(** * Artimancer: input abstraction and room editor

    A shallow embedding of [src/InputManager.ts] (classes [Status], [Button],
    [Directional], [InputManager]) and of the room editor
    ([WorldRoomEditor]), with the properties of the specification stated
    and settled against it.

    Conventions of the embedding:
    - a JavaScript [number] that holds a coordinate, an axis reading or a
      button value is a binary64 float ([PrimFloat]); counters and array
      indices, which only ever hold integers, are [Z];
    - objects that are shared by reference ([Button], [Directional],
      [Polygon], ...) live in a store indexed by references, and the
      name-keyed [Map]s hold references;
    - a [Map<string, V>] is an association list in insertion order, which is
      the order [forEach] visits;
    - calls of user callbacks, [console.log] and [preventDefault] are
      recorded as a trace of events, in the order they happen; a callback
      is taken not to call back into the object that calls it, as none of
      the repository's does. *)

From Stdlib Require Import ZArith List Bool Floats Lia.
From stdpp Require Import base option list gmap strings.
Import ListNotations.

Set Default Proof Using "Type".
#[local] Set Warnings "-inexact-float".
#[local] Open Scope Z_scope.

(** ** JavaScript values *)

(** An object reference. *)
Abbreviation ref := nat (only parsing).

(** [a[i]] for an array [a] and a number [i]: [undefined] out of range. *)
Definition index {A : Type} (a : list A) (i : Z) : option A :=
  if i <? 0 then None else nth_error a (Z.to_nat i).

(** ToBoolean of a number: false for [0], [-0] and [NaN]. *)
Definition truthy (x : float) : bool :=
  (negb (x =? 0) && (x =? x))%float.

(** The functions the program stores and calls back.  [noOp] is the
    constant of that name; [toggleFullScreen] is
    [DM.toggleFullScreen.bind(DM)]; any other function is named. *)
Inductive Callback : Type :=
| noOp
| toggleFullScreen
| Handler (name : string).

(** [handler ?? noOp] *)
Definition orNoOp (handler : option Callback) : Callback :=
  match handler with Some h => h | None => noOp end.

(** The argument of a directional's callback:
    ["up" | "down" | "left" | "right"]. *)
Module Label.
Inductive t : Type := up | right | down | left.
End Label.

(** The fields of a [MouseEvent] the program reads. *)
Module MouseEvent.
Record t : Type := mk {
  clientX : float;
  clientY : float;
  button : Z;
  shiftKey : bool
}.
End MouseEvent.

(** What a run leaves behind besides the new state. *)
Inductive Event : Type :=
| Invoke (f : Callback)
| InvokeDir (f : Callback) (dir : Label.t)
| InvokeMouse (f : Callback) (ev : MouseEvent.t)
| PreventDefault
| ConsoleLog (msg : string).

(** ** Vector *)

Module Vector.

(** Modelled from the spec: Vector.ts is not among the sources.  "(x, y)
    real pair"; the numbers are the binary64 floats of the language. *)
Record t : Type := mk { x : float; y : float }.

#[local] Open Scope float_scope.

(** Modelled from the spec: "immutable-style ops (add, subtract,
    multiply, divide, normalize, magnitude) return new instances." *)
Definition add (a b : t) : t := mk (x a + x b) (y a + y b).

(** Modelled from the spec: see [add]. *)
Definition subtract (a b : t) : t := mk (x a - x b) (y a - y b).

(** Modelled from the spec: see [add]; the scalar form used by the input
    manager. *)
Definition multiply (a : t) (k : float) : t := mk (x a * k) (y a * k).

(** Modelled from the spec: see [add]. *)
Definition getMagnitude (a : t) : float := sqrt (x a * x a + y a * y a).

(** Modelled from the spec: "normalize() of a zero vector yields a zero
    vector (no division-by-zero propagation)". *)
Definition normalize (a : t) : t :=
  let m := getMagnitude a in
  if m =? 0 then mk 0 0 else mk (x a / m) (y a / m).

End Vector.

(** ** Status *)

Module Status.

Record t : Type := mk {
  isDown : bool;
  wasDown : bool;
  isPressed : bool;
  isHeld : bool;
  isReleased : bool
}.

(** The constructor: all values false. *)
Definition new : t := mk false false false false false.

End Status.

(** ** Button *)

Module Button.

Record t : Type := mk {
  key : string;
  status : Status.t;
  gpButtonIndex : option Z;
  onPressed : Callback;
  onReleased : Callback
}.

Definition new (key : string) (gpButtonIndex : option Z) : t :=
  mk key Status.new gpButtonIndex noOp noOp.

Definition set_status (st : Status.t) (b : t) : t :=
  mk (key b) st (gpButtonIndex b) (onPressed b) (onReleased b).

Definition set_onPressed (f : Callback) (b : t) : t :=
  mk (key b) (status b) (gpButtonIndex b) f (onReleased b).

Definition set_onReleased (f : Callback) (b : t) : t :=
  mk (key b) (status b) (gpButtonIndex b) (onPressed b) f.

(** [down()]: the button has just been pressed. *)
Definition down (b : t) : t :=
  let st := status b in
  set_status
    (Status.mk true (Status.wasDown st)
       (negb (Status.wasDown st)) (Status.wasDown st) false) b.

(** [up()]: the button has just been released. *)
Definition up (b : t) : t :=
  let st := status b in
  set_status
    (Status.mk false (Status.wasDown st) false false (Status.wasDown st)) b.

(** [step(currentlyDown)]: the polled update. *)
Definition step (currentlyDown : bool) (b : t) : t :=
  let st := status b in
  set_status
    (Status.mk currentlyDown (Status.wasDown st)
       (currentlyDown && negb (Status.wasDown st))
       (currentlyDown && Status.wasDown st)
       (negb currentlyDown && Status.wasDown st)) b.

(** The body of the loop of [InputManager.ageButtons], on one button. *)
Definition age (b : t) : t :=
  let st := status b in
  set_status
    (Status.mk (Status.isDown st) (Status.isDown st) false
       (Status.isDown st) false) b.

End Button.

(** ** Directional *)

Module Directional.

Record t : Type := mk {
  upButton : Button.t;
  rightButton : Button.t;
  downButton : Button.t;
  leftButton : Button.t;
  hAxisIndex : option Z;
  vAxisIndex : option Z;
  vec : Vector.t;
  fn : Callback;
  keyDelay : Z;
  keyRate : Z;
  keyCounter : Z
}.

Definition new (upKey rightKey downKey leftKey : string)
    (hAxisIndex vAxisIndex : option Z) : t :=
  mk (Button.new upKey None) (Button.new rightKey None)
     (Button.new downKey None) (Button.new leftKey None)
     hAxisIndex vAxisIndex (Vector.mk 0 0) noOp 20 5 0.

Definition set_vec (v : Vector.t) (d : t) : t :=
  mk (upButton d) (rightButton d) (downButton d) (leftButton d)
     (hAxisIndex d) (vAxisIndex d) v (fn d)
     (keyDelay d) (keyRate d) (keyCounter d).

Definition set_fn (f : Callback) (d : t) : t :=
  mk (upButton d) (rightButton d) (downButton d) (leftButton d)
     (hAxisIndex d) (vAxisIndex d) (vec d) f
     (keyDelay d) (keyRate d) (keyCounter d).

Definition set_keyCounter (c : Z) (d : t) : t :=
  mk (upButton d) (rightButton d) (downButton d) (leftButton d)
     (hAxisIndex d) (vAxisIndex d) (vec d) (fn d)
     (keyDelay d) (keyRate d) c.

(** The button of a directional on one side. *)
Definition button (side : Label.t) (d : t) : Button.t :=
  match side with
  | Label.up => upButton d
  | Label.right => rightButton d
  | Label.down => downButton d
  | Label.left => leftButton d
  end.

Definition set_button (side : Label.t) (b : Button.t) (d : t) : t :=
  match side with
  | Label.up =>
      mk b (rightButton d) (downButton d) (leftButton d)
         (hAxisIndex d) (vAxisIndex d) (vec d) (fn d)
         (keyDelay d) (keyRate d) (keyCounter d)
  | Label.right =>
      mk (upButton d) b (downButton d) (leftButton d)
         (hAxisIndex d) (vAxisIndex d) (vec d) (fn d)
         (keyDelay d) (keyRate d) (keyCounter d)
  | Label.down =>
      mk (upButton d) (rightButton d) b (leftButton d)
         (hAxisIndex d) (vAxisIndex d) (vec d) (fn d)
         (keyDelay d) (keyRate d) (keyCounter d)
  | Label.left =>
      mk (upButton d) (rightButton d) (downButton d) b
         (hAxisIndex d) (vAxisIndex d) (vec d) (fn d)
         (keyDelay d) (keyRate d) (keyCounter d)
  end.

(** [setVecFromButtons()] *)
Definition setVecFromButtons (d : t) : t :=
  let isDown side := Status.isDown (Button.status (button side d)) in
  let vx := 0%float in
  let vy := 0%float in
  let vx := if isDown Label.left then (vx - 1)%float else vx in
  let vx := if isDown Label.right then (vx + 1)%float else vx in
  let vy := if isDown Label.up then (vy - 1)%float else vy in
  let vy := if isDown Label.down then (vy + 1)%float else vy in
  set_vec (Vector.normalize (Vector.mk vx vy)) d.

(** [getButtons()]: the sides in the order up, right, down, left. *)
Definition sides : list Label.t :=
  [Label.up; Label.right; Label.down; Label.left].

Definition getButtons (d : t) : list Button.t :=
  map (fun side => button side d) sides.

(** The label [step()] passes to [fn] when it fires. *)
Definition fireLabel (v : Vector.t) : Label.t :=
  if (abs (Vector.y v) <? abs (Vector.x v))%float then
    if (0 <? Vector.x v)%float then Label.right else Label.left
  else
    if (0 <? Vector.y v)%float then Label.up else Label.down.

(** [step()] *)
Definition step (d : t) : t * list Event :=
  if (Vector.getMagnitude (vec d) =? 0)%float then
    (set_keyCounter (keyDelay d) d, [])
  else
    let '(d1, out) :=
      if keyCounter d =? 0
      then (set_keyCounter (keyRate d) d, [InvokeDir (fn d) (fireLabel (vec d))])
      else (d, []) in
    (set_keyCounter (keyCounter d1 - 1) d1, out).

(** One game step of a directional whose intent vector was set to [v]
    (by the key handlers or by the gamepad poll) since the previous one. *)
Definition stepWith (v : Vector.t) (d : t) : t * list Event :=
  step (set_vec v d).

(** What each of a run of steps fires, the intent vector of each step
    given. *)
Fixpoint run (d : t) (vs : list Vector.t) : t * list (list Event) :=
  match vs with
  | [] => (d, [])
  | v :: vs' =>
      let '(d1, out) := stepWith v d in
      let '(d2, outs) := run d1 vs' in
      (d2, out :: outs)
  end.

End Directional.

(** ** Map<string, V> *)

Module JsMap.

(** The entries in insertion order; a well-formed map has no key twice
    ([wf]). *)
Definition t (V : Type) : Type := list (string * V).

Definition wf {V : Type} (m : t V) : Prop := NoDup (map fst m).

Fixpoint get {V : Type} (m : t V) (k : string) : option V :=
  match m with
  | [] => None
  | (k', v) :: m' => if String.eqb k k' then Some v else get m' k
  end.

(** [set]: a present key keeps its place, a new one goes last. *)
Fixpoint set {V : Type} (m : t V) (k : string) (v : V) : t V :=
  match m with
  | [] => [(k, v)]
  | (k', v') :: m' =>
      if String.eqb k k' then (k', v) :: m' else (k', v') :: set m' k v
  end.

Fixpoint delete {V : Type} (m : t V) (k : string) : t V :=
  match m with
  | [] => []
  | (k', v') :: m' =>
      if String.eqb k k' then m' else (k', v') :: delete m' k
  end.

(** The values in the order [forEach] visits them. *)
Definition values {V : Type} (m : t V) : list V := map snd m.

(** [m.forEach((v, k) => out.set(k, v))] into a map [out]. *)
Definition copyInto {V : Type} (m out : t V) : t V :=
  fold_left (fun acc kv => set acc (fst kv) (snd kv)) m out.

End JsMap.

(** ** Gamepad *)

Module GamepadButton.
Record t : Type := mk { value : float; pressed : bool }.
End GamepadButton.

Module Gamepad.
Record t : Type := mk {
  connected : bool;
  axes : list float;
  buttons : list GamepadButton.t
}.
End Gamepad.

(** ** InputManager *)

Module MouseFunctions.
Record t : Type := mk { down : Callback; up : Callback; move : Callback }.
End MouseFunctions.

Module MenuNavigationInputs.
Record t : Type := mk {
  up : string;
  right : string;
  down : string;
  left : string;
  hAxis : option Z;
  vAxis : option Z;
  clickKey : string;
  clickGP : option Z;
  cancelKey : string;
  cancelGP : option Z;
  fullscreenKey : string;
  fullscreenGP : option Z
}.
End MenuNavigationInputs.

Module SavedControls.
Record t : Type := mk {
  buttons : JsMap.t ref;
  directionals : JsMap.t ref
}.
End SavedControls.

(** What [getAllButtons] can hand out: a registered button, or the button
    on one side of a registered directional ([dir.getButtons()]). *)
Inductive ButtonRef : Type :=
| Registered (r : ref)
| Side (d : ref) (side : Label.t).

Module InputManager.

(** The manager's fields, together with the store of the [Button] and
    [Directional] objects its maps refer to ([buttonObjs],
    [directionalObjs]; [nextRef] is the next reference [new] hands out). *)
Record t : Type := mk {
  buttonObjs : gmap ref Button.t;
  directionalObjs : gmap ref Directional.t;
  nextRef : ref;
  directionals : JsMap.t ref;
  buttons : JsMap.t ref;
  usingKeyboard : bool;
  mouseFunctions : MouseFunctions.t;
  noContextMenu : bool;
  savedControls : option SavedControls.t;
  menuNavigationInputs : MenuNavigationInputs.t
}.

(** [deadZone], [stickSensitivity] and [noisy] are private and never
    assigned after their initialisers. *)
Definition deadZone : float := 0.2%float.
Definition stickSensitivity : float := 1.4%float.
Definition noisy : bool := true.

Definition set_buttonObjs (h : gmap ref Button.t) (s : t) : t :=
  mk h (directionalObjs s) (nextRef s) (directionals s) (buttons s)
     (usingKeyboard s) (mouseFunctions s) (noContextMenu s)
     (savedControls s) (menuNavigationInputs s).

Definition set_directionalObjs (h : gmap ref Directional.t) (s : t) : t :=
  mk (buttonObjs s) h (nextRef s) (directionals s) (buttons s)
     (usingKeyboard s) (mouseFunctions s) (noContextMenu s)
     (savedControls s) (menuNavigationInputs s).

Definition set_nextRef (r : ref) (s : t) : t :=
  mk (buttonObjs s) (directionalObjs s) r (directionals s) (buttons s)
     (usingKeyboard s) (mouseFunctions s) (noContextMenu s)
     (savedControls s) (menuNavigationInputs s).

Definition set_directionals (m : JsMap.t ref) (s : t) : t :=
  mk (buttonObjs s) (directionalObjs s) (nextRef s) m (buttons s)
     (usingKeyboard s) (mouseFunctions s) (noContextMenu s)
     (savedControls s) (menuNavigationInputs s).

Definition set_buttons (m : JsMap.t ref) (s : t) : t :=
  mk (buttonObjs s) (directionalObjs s) (nextRef s) (directionals s) m
     (usingKeyboard s) (mouseFunctions s) (noContextMenu s)
     (savedControls s) (menuNavigationInputs s).

Definition set_usingKeyboard (b : bool) (s : t) : t :=
  mk (buttonObjs s) (directionalObjs s) (nextRef s) (directionals s)
     (buttons s) b (mouseFunctions s) (noContextMenu s)
     (savedControls s) (menuNavigationInputs s).

Definition set_mouseFunctions (m : MouseFunctions.t) (s : t) : t :=
  mk (buttonObjs s) (directionalObjs s) (nextRef s) (directionals s)
     (buttons s) (usingKeyboard s) m (noContextMenu s)
     (savedControls s) (menuNavigationInputs s).

Definition set_noContextMenu (b : bool) (s : t) : t :=
  mk (buttonObjs s) (directionalObjs s) (nextRef s) (directionals s)
     (buttons s) (usingKeyboard s) (mouseFunctions s) b
     (savedControls s) (menuNavigationInputs s).

Definition set_savedControls (c : option SavedControls.t) (s : t) : t :=
  mk (buttonObjs s) (directionalObjs s) (nextRef s) (directionals s)
     (buttons s) (usingKeyboard s) (mouseFunctions s) (noContextMenu s)
     c (menuNavigationInputs s).

(** The constructor. *)
Definition new : t :=
  mk ∅ ∅ 0%nat [] [] false (MouseFunctions.mk noOp noOp noOp) false None
     (MenuNavigationInputs.mk "w" "d" "s" "a" (Some 0) (Some 1)
        "space" (Some 4) "tab" (Some 3) "f" (Some 8)).

(** Reading and updating the object behind a reference. *)
Definition modifyRegistered (r : ref) (f : Button.t -> Button.t) (s : t) : t :=
  set_buttonObjs (alter f r (buttonObjs s)) s.

Definition modifyDirectional (r : ref) (f : Directional.t -> Directional.t)
    (s : t) : t :=
  set_directionalObjs (alter f r (directionalObjs s)) s.

Definition readButton (h : ButtonRef) (s : t) : option Button.t :=
  match h with
  | Registered r => buttonObjs s !! r
  | Side d side => Directional.button side <$> directionalObjs s !! d
  end.

Definition modifyButton (h : ButtonRef) (f : Button.t -> Button.t) (s : t) : t :=
  match h with
  | Registered r => modifyRegistered r f s
  | Side d side =>
      modifyDirectional d
        (fun dir =>
           Directional.set_button side (f (Directional.button side dir)) dir) s
  end.

(** [save()] *)
Definition save (s : t) : t * list Event :=
  let out :=
    if noisy && bool_decide (is_Some (savedControls s))
    then [ConsoleLog "IM: Overwriting savedControls"] else [] in
  let saveButtons := JsMap.copyInto (buttons s) [] in
  let saveDirectionals := JsMap.copyInto (directionals s) [] in
  (set_savedControls (Some (SavedControls.mk saveButtons saveDirectionals)) s,
   out).

(** [restore()] *)
Definition restore (s : t) : t * list Event :=
  match savedControls s with
  | Some saved =>
      (set_savedControls None
         (set_directionals (SavedControls.directionals saved)
            (set_buttons (SavedControls.buttons saved) s)), [])
  | None =>
      (s, if noisy
          then [ConsoleLog "IM: Tried to restore undefined controls"]
          else [])
  end.

(** [registerButton(name, key, gpButtonIndex)] *)
Definition registerButton (name key : string) (gpButtonIndex : option Z)
    (s : t) : t :=
  let r := nextRef s in
  set_buttons (JsMap.set (buttons s) name r)
    (set_nextRef (S r)
       (set_buttonObjs (<[r := Button.new key gpButtonIndex]> (buttonObjs s)) s)).

(** [unregisterButton(name)] *)
Definition unregisterButton (name : string) (s : t) : t :=
  set_buttons (JsMap.delete (buttons s) name) s.

(** [setOnPressed(name, handler)] *)
Definition setOnPressed (name : string) (handler : option Callback) (s : t)
    : t * bool :=
  match JsMap.get (buttons s) name with
  | Some r => (modifyRegistered r (Button.set_onPressed (orNoOp handler)) s, true)
  | None => (s, false)
  end.

(** [setOnReleased(name, handler)] *)
Definition setOnReleased (name : string) (handler : option Callback) (s : t)
    : t * bool :=
  match JsMap.get (buttons s) name with
  | Some r => (modifyRegistered r (Button.set_onReleased (orNoOp handler)) s, true)
  | None => (s, false)
  end.

(** [registerDirectional(name, upKey, rightKey, downKey, leftKey,
    hAxisIndex, vAxisIndex)] *)
Definition registerDirectional (name upKey rightKey downKey leftKey : string)
    (hAxisIndex vAxisIndex : option Z) (s : t) : t :=
  let r := nextRef s in
  set_directionals (JsMap.set (directionals s) name r)
    (set_nextRef (S r)
       (set_directionalObjs
          (<[r := Directional.new upKey rightKey downKey leftKey
                    hAxisIndex vAxisIndex]> (directionalObjs s)) s)).

(** [setDirectionalFunction(label, handler)] *)
Definition setDirectionalFunction (label : string) (handler : Callback)
    (s : t) : t :=
  match JsMap.get (directionals s) label with
  | Some r => modifyDirectional r (Directional.set_fn handler) s
  | None => s
  end.

(** [getDirectionalVec(name)] *)
Definition getDirectionalVec (name : string) (s : t) : option Vector.t :=
  r ← JsMap.get (directionals s) name;
  Directional.vec <$> directionalObjs s !! r.

(** [unregisterAll()] *)
Definition unregisterAll (s : t) : t :=
  set_directionals [] (set_buttons [] s).

(** [enterMenuMode()] *)
Definition enterMenuMode (s : t) : t :=
  let s := unregisterAll s in
  let m := menuNavigationInputs s in
  let s :=
    registerDirectional "navigation"
      (MenuNavigationInputs.up m) (MenuNavigationInputs.right m)
      (MenuNavigationInputs.down m) (MenuNavigationInputs.left m)
      (MenuNavigationInputs.hAxis m) (MenuNavigationInputs.vAxis m) s in
  let s :=
    registerButton "enter"
      (MenuNavigationInputs.clickKey m) (MenuNavigationInputs.clickGP m) s in
  let s :=
    registerButton "cancel"
      (MenuNavigationInputs.clickKey m) (MenuNavigationInputs.clickGP m) s in
  let s :=
    registerButton "fullscreen"
      (MenuNavigationInputs.fullscreenKey m)
      (MenuNavigationInputs.fullscreenGP m) s in
  fst (setOnPressed "fullscreen" (Some toggleFullScreen) s).

(** [getAllButtons()].  [out.concat(...)] builds a new array and leaves
    [out] as it is; the new array is dropped. *)
Definition getAllButtons (s : t) : list ButtonRef :=
  let out := map Registered (JsMap.values (buttons s)) in
  fold_left
    (fun out d =>
       let _dropped := out ++ map (Side d) Directional.sides in
       out)
    (JsMap.values (directionals s)) out.

(** [ageButtons()] *)
Definition ageButtons (s : t) : t :=
  fold_left (fun s h => modifyButton h Button.age s) (getAllButtons s) s.

(** [deadZoneGuard] of [getGamepadInput] *)
Definition deadZoneGuard (x : float) : float :=
  if (deadZone <? abs x)%float then x else 0%float.

(** The reading behind
    [if (ai !== undefined && gamepad.axes[ai]) deadZoneGuard(gamepad.axes[ai])]:
    [None] when the condition fails. *)
Definition axisReading (gamepad : Gamepad.t) (ai : option Z) : option float :=
  match ai with
  | Some i =>
      match index (Gamepad.axes gamepad) i with
      | Some a => if truthy a then Some (deadZoneGuard a) else None
      | None => None
      end
  | None => None
  end.

(** The value behind
    [if (bi !== undefined && gamepad.buttons[bi])
       gamepad.buttons[bi].value > 0 || gamepad.buttons[bi].pressed]:
    [None] when the condition fails. *)
Definition buttonReading (gamepad : Gamepad.t) (bi : option Z) : option bool :=
  match bi with
  | Some i =>
      match index (Gamepad.buttons gamepad) i with
      | Some gb =>
          Some ((0 <? GamepadButton.value gb)%float || GamepadButton.pressed gb)
      | None => None
      end
  | None => None
  end.

(** One axis of the first loop: a reading that is not [0] hands the
    controls to the gamepad. *)
Definition checkAxis (gamepad : Gamepad.t) (ai : option Z) (s : t) : t :=
  match axisReading gamepad ai with
  | Some reading =>
      if negb (reading =? 0)%float then set_usingKeyboard false s else s
  | None => s
  end.

(** The body of the first loop: the sticks we care about. *)
Definition checkStick (gamepad : Gamepad.t) (s : t) (r : ref) : t :=
  match directionalObjs s !! r with
  | Some dir =>
      checkAxis gamepad (Directional.vAxisIndex dir)
        (checkAxis gamepad (Directional.hAxisIndex dir) s)
  | None => s
  end.

(** The body of the second loop: the buttons we care about. *)
Definition checkButton (gamepad : Gamepad.t) (s : t) (r : ref) : t :=
  match buttonObjs s !! r with
  | Some but =>
      match buttonReading gamepad (Button.gpButtonIndex but) with
      | Some true => set_usingKeyboard false s
      | _ => s
      end
  | None => s
  end.

(** The body of the third loop: the vector of a directional from its
    stick. *)
Definition readStick (gamepad : Gamepad.t) (dir : Directional.t)
    : Directional.t :=
  let xReading := default 0%float (axisReading gamepad (Directional.hAxisIndex dir)) in
  let yReading := default 0%float (axisReading gamepad (Directional.vAxisIndex dir)) in
  let v := Vector.multiply (Vector.mk xReading yReading) stickSensitivity in
  let v := if (1 <? Vector.getMagnitude v)%float then Vector.normalize v else v in
  Directional.set_vec v dir.

(** The body of the fourth loop: the status of a button from its gamepad
    button. *)
Definition readGamepadButton (gamepad : Gamepad.t) (but : Button.t) : Button.t :=
  match buttonReading gamepad (Button.gpButtonIndex but) with
  | Some currentlyDown => Button.step currentlyDown but
  | None => but
  end.

(** The body of the loop of [getGamepadInput] for a connected gamepad. *)
Definition pollGamepad (gamepad : Gamepad.t) (s : t) : t :=
  let s := fold_left (checkStick gamepad) (JsMap.values (directionals s)) s in
  let s := fold_left (checkButton gamepad) (JsMap.values (buttons s)) s in
  if negb (usingKeyboard s) then
    let s :=
      fold_left (fun s r => modifyDirectional r (readStick gamepad) s)
        (JsMap.values (directionals s)) s in
    fold_left (fun s r => modifyRegistered r (readGamepadButton gamepad) s)
      (JsMap.values (buttons s)) s
  else s.

(** [getGamepadInput()], [gamepads] being what [navigator.getGamepads()]
    returns: [None] is a [null] entry. *)
Definition getGamepadInput (gamepads : list (option Gamepad.t)) (s : t) : t :=
  fold_left
    (fun s entry =>
       match entry with
       | Some gamepad =>
           if Gamepad.connected gamepad then pollGamepad gamepad s else s
       | None => s
       end)
    gamepads s.

(** The inner loop of the key handlers on one side of a directional:
    [act] is [down()] or [up()]. *)
Definition keySide (act : Button.t -> Button.t) (key : string)
    (acc : Directional.t * list Event) (side : Label.t)
    : Directional.t * list Event :=
  let '(dir, out) := acc in
  let db := Directional.button side dir in
  if String.eqb key (Button.key db)
  then (Directional.setVecFromButtons (Directional.set_button side (act db) dir),
        out ++ [PreventDefault])
  else (dir, out).

Definition keyDirectional (act : Button.t -> Button.t) (key : string)
    (dir : Directional.t) : Directional.t * list Event :=
  fold_left (keySide act key) Directional.sides (dir, []).

(** "is it a stick button?" *)
Definition keySticks (act : Button.t -> Button.t) (key : string)
    (acc : t * list Event) (r : ref) : t * list Event :=
  let '(s, out) := acc in
  match directionalObjs s !! r with
  | Some dir =>
      let '(dir', out') := keyDirectional act key dir in
      (set_directionalObjs (<[r := dir']> (directionalObjs s)) s, out ++ out')
  | None => (s, out)
  end.

(** "is it a normal button?" *)
Definition keyButtons (act : Button.t -> Button.t) (key : string)
    (acc : t * list Event) (r : ref) : t * list Event :=
  let '(s, out) := acc in
  match buttonObjs s !! r with
  | Some but =>
      if String.eqb key (Button.key but)
      then (set_buttonObjs (<[r := act but]> (buttonObjs s)) s,
            out ++ [PreventDefault])
      else (s, out)
  | None => (s, out)
  end.

(** What [keydownHandler] and [keyupHandler] share: they differ in the call
    of [down()] or [up()] only. *)
Definition keyHandler (act : Button.t -> Button.t) (key : string) (s : t)
    : t * list Event :=
  let s := set_usingKeyboard true s in
  let acc := fold_left (keySticks act key) (JsMap.values (directionals s)) (s, []) in
  fold_left (keyButtons act key) (JsMap.values (buttons (fst acc))) acc.

(** [keydownHandler(e)], [key] being [e.key] *)
Definition keydownHandler (key : string) (s : t) : t * list Event :=
  keyHandler Button.down key s.

(** [keyupHandler(e)], [key] being [e.key] *)
Definition keyupHandler (key : string) (s : t) : t * list Event :=
  keyHandler Button.up key s.

(** [mousedownHandler(e)] *)
Definition mousedownHandler (e : MouseEvent.t) (s : t) : t * list Event :=
  (s, [InvokeMouse (MouseFunctions.down (mouseFunctions s)) e]).

(** [mouseupHandler(e)] *)
Definition mouseupHandler (e : MouseEvent.t) (s : t) : t * list Event :=
  (s, [InvokeMouse (MouseFunctions.up (mouseFunctions s)) e]).

(** [mousemoveHandler(e)] *)
Definition mousemoveHandler (e : MouseEvent.t) (s : t) : t * list Event :=
  (s, [InvokeMouse (MouseFunctions.move (mouseFunctions s)) e]).

(** [gamepadconnectHandler()] *)
Definition gamepadconnectHandler (s : t) : t * list Event :=
  (set_usingKeyboard false s,
   if noisy then [ConsoleLog "IM: gamepad connected"] else []).

(** [gamepaddisconnectHandler()] *)
Definition gamepaddisconnectHandler (s : t) : t * list Event :=
  (set_usingKeyboard true s,
   if noisy then [ConsoleLog "IM: gamepad disconnected"] else []).

(** [setMouseDown(func)], [setMouseUp(func)], [setMouseMove(func)] *)
Definition setMouseDown (func : option Callback) (s : t) : t :=
  let m := mouseFunctions s in
  set_mouseFunctions
    (MouseFunctions.mk (orNoOp func) (MouseFunctions.up m) (MouseFunctions.move m)) s.

Definition setMouseUp (func : option Callback) (s : t) : t :=
  let m := mouseFunctions s in
  set_mouseFunctions
    (MouseFunctions.mk (MouseFunctions.down m) (orNoOp func) (MouseFunctions.move m)) s.

Definition setMouseMove (func : option Callback) (s : t) : t :=
  let m := mouseFunctions s in
  set_mouseFunctions
    (MouseFunctions.mk (MouseFunctions.down m) (MouseFunctions.up m) (orNoOp func)) s.

(** [suppressContextMenu(arg0)] *)
Definition suppressContextMenu (arg0 : bool) (s : t) : t :=
  set_noContextMenu arg0 s.

(** [contextmenuHandler(ev)]: the value it returns, and whether it
    prevents the default. *)
Definition contextmenuHandler (s : t) : bool * list Event :=
  if noContextMenu s then (false, [PreventDefault]) else (true, []).

(** [startUp()], as far as the manager's own fields go: the listeners that
    [resetListeners()] sets and the flag of the base class are not part of
    this state. *)
Definition startUp (s : t) : t * list Event :=
  (set_usingKeyboard true (unregisterAll s),
   (if noisy then [ConsoleLog "IM: listeners set"] else [])
   ++ (if noisy then [ConsoleLog "IM: successfully started"] else [])).

(** [directionals.forEach(dir => dir.step())] *)
Definition stepDirectional (acc : t * list Event) (r : ref) : t * list Event :=
  let '(s, out) := acc in
  match directionalObjs s !! r with
  | Some dir =>
      let '(dir', out') := Directional.step dir in
      (set_directionalObjs (<[r := dir']> (directionalObjs s)) s, out ++ out')
  | None => (s, out)
  end.

(** What the callback loop of [step()] does for one button: a stored
    function is never falsy, so the guard is the edge alone. *)
Definition fire (b : Button.t) : list Event :=
  (if Status.isPressed (Button.status b) then [Invoke (Button.onPressed b)] else [])
  ++ (if Status.isReleased (Button.status b) then [Invoke (Button.onReleased b)] else []).

(** "do all onPressed and onReleased functions for all buttons" *)
Definition fireAll (s : t) : list Event :=
  flat_map (fun h => from_option fire [] (readButton h s)) (getAllButtons s).

(** [step()], [gamepads] being what [navigator.getGamepads()] returns
    during it. *)
Definition step (gamepads : list (option Gamepad.t)) (s : t) : t * list Event :=
  let '(s, out) := fold_left stepDirectional (JsMap.values (directionals s)) (s, []) in
  let s := getGamepadInput gamepads s in
  let out' := fireAll s in
  (ageButtons s, out ++ out').

End InputManager.

(** ** Box, Polygon *)

Module Box.
(** Modelled from the spec: Box.ts is not among the sources.  "axis-aligned
    rectangle (topLeft Vector, width, height)". *)
Record t : Type := mk { topLeft : Vector.t; width : float; height : float }.
End Box.

Module Polygon.

(** Modelled from the spec: Polygon.ts is not among the sources.  "ordered
    sequence of Vector points (insertion order = winding order for
    rendering) ... created empty, points appended during authoring". *)
Abbreviation t := (list Vector.t) (only parsing).

(** Modelled from the spec: see [t]. *)
Definition new : t := [].

(** Modelled from the spec: see [t]. *)
Definition addPoints (p : t) (points : list Vector.t) : t := p ++ points.

(** Modelled from the spec: see [t]. *)
Definition getPoints (p : t) : list Vector.t := p.

End Polygon.

(** ** The room an editor works on *)

Module Background.
(** Modelled from the spec: Room.ts is not among the sources.  "background
    layers (each with a draw box)"; the editor reads the field [box]. *)
Record t : Type := mk { box : Box.t }.
End Background.

Module FreeRoamEntity.
(** Modelled from the spec: FreeRoamEntity.ts is not among the sources.
    "entities (each with a draw box, label, altitude)". *)
Record t : Type := mk { drawBox : Box.t; label : string; altitude : float }.
End FreeRoamEntity.

Module Room.
(** Modelled from the spec: Room.ts is not among the sources.  "ordered
    mutable list of entities (each with a draw box, label, altitude),
    ordered mutable list of background layers (each with a draw box)".
    The lists hold references. *)
Record t : Type := mk { entities : list ref; backgrounds : list ref }.
End Room.

(** [a.indexOf(r)] on an array of objects: [None] is [-1]. *)
Fixpoint indexOf (a : list ref) (r : ref) : option nat :=
  match a with
  | [] => None
  | r' :: a' => if Nat.eqb r' r then Some 0%nat else S <$> indexOf a' r
  end.

(** [a.splice(i, 1)]: what is left in [a]. *)
Definition splice1 {A : Type} (i : nat) (a : list A) : list A :=
  firstn i a ++ skipn (S i) a.

(** ** WorldRoomEditor *)

Inductive Mode : Type := select | drawBarrier.

Module WorldRoomEditor.

(** The editor's fields, the room it edits, and the store of the objects
    they refer to. *)
Record t : Type := mk {
  polygonObjs : gmap ref Polygon.t;
  backgroundObjs : gmap ref Background.t;
  entityObjs : gmap ref FreeRoamEntity.t;
  nextRef : ref;
  currentRoom : option Room.t;
  cameraOffset : Vector.t;
  completedPolygons : list ref;
  selectedPolygon : option ref;
  selectedBgObj : option ref;
  selectedEntity : option ref;
  mousePos : Vector.t;
  mouseIsDown : bool;
  mode : Mode;
  dragging : bool
}.

Definition set_polygonObjs (h : gmap ref Polygon.t) (s : t) : t :=
  mk h (backgroundObjs s) (entityObjs s) (nextRef s) (currentRoom s)
     (cameraOffset s) (completedPolygons s) (selectedPolygon s)
     (selectedBgObj s) (selectedEntity s) (mousePos s) (mouseIsDown s)
     (mode s) (dragging s).

Definition set_nextRef (r : ref) (s : t) : t :=
  mk (polygonObjs s) (backgroundObjs s) (entityObjs s) r (currentRoom s)
     (cameraOffset s) (completedPolygons s) (selectedPolygon s)
     (selectedBgObj s) (selectedEntity s) (mousePos s) (mouseIsDown s)
     (mode s) (dragging s).

Definition set_currentRoom (room : option Room.t) (s : t) : t :=
  mk (polygonObjs s) (backgroundObjs s) (entityObjs s) (nextRef s) room
     (cameraOffset s) (completedPolygons s) (selectedPolygon s)
     (selectedBgObj s) (selectedEntity s) (mousePos s) (mouseIsDown s)
     (mode s) (dragging s).

Definition set_completedPolygons (ps : list ref) (s : t) : t :=
  mk (polygonObjs s) (backgroundObjs s) (entityObjs s) (nextRef s)
     (currentRoom s) (cameraOffset s) ps (selectedPolygon s)
     (selectedBgObj s) (selectedEntity s) (mousePos s) (mouseIsDown s)
     (mode s) (dragging s).

Definition set_selectedPolygon (p : option ref) (s : t) : t :=
  mk (polygonObjs s) (backgroundObjs s) (entityObjs s) (nextRef s)
     (currentRoom s) (cameraOffset s) (completedPolygons s) p
     (selectedBgObj s) (selectedEntity s) (mousePos s) (mouseIsDown s)
     (mode s) (dragging s).

Definition set_selectedBgObj (b : option ref) (s : t) : t :=
  mk (polygonObjs s) (backgroundObjs s) (entityObjs s) (nextRef s)
     (currentRoom s) (cameraOffset s) (completedPolygons s)
     (selectedPolygon s) b (selectedEntity s) (mousePos s) (mouseIsDown s)
     (mode s) (dragging s).

Definition set_selectedEntity (e : option ref) (s : t) : t :=
  mk (polygonObjs s) (backgroundObjs s) (entityObjs s) (nextRef s)
     (currentRoom s) (cameraOffset s) (completedPolygons s)
     (selectedPolygon s) (selectedBgObj s) e (mousePos s) (mouseIsDown s)
     (mode s) (dragging s).

Definition set_mousePos (v : Vector.t) (s : t) : t :=
  mk (polygonObjs s) (backgroundObjs s) (entityObjs s) (nextRef s)
     (currentRoom s) (cameraOffset s) (completedPolygons s)
     (selectedPolygon s) (selectedBgObj s) (selectedEntity s) v
     (mouseIsDown s) (mode s) (dragging s).

Definition set_mouseIsDown (b : bool) (s : t) : t :=
  mk (polygonObjs s) (backgroundObjs s) (entityObjs s) (nextRef s)
     (currentRoom s) (cameraOffset s) (completedPolygons s)
     (selectedPolygon s) (selectedBgObj s) (selectedEntity s) (mousePos s)
     b (mode s) (dragging s).

Definition set_mode (m : Mode) (s : t) : t :=
  mk (polygonObjs s) (backgroundObjs s) (entityObjs s) (nextRef s)
     (currentRoom s) (cameraOffset s) (completedPolygons s)
     (selectedPolygon s) (selectedBgObj s) (selectedEntity s) (mousePos s)
     (mouseIsDown s) m (dragging s).

Definition set_dragging (b : bool) (s : t) : t :=
  mk (polygonObjs s) (backgroundObjs s) (entityObjs s) (nextRef s)
     (currentRoom s) (cameraOffset s) (completedPolygons s)
     (selectedPolygon s) (selectedBgObj s) (selectedEntity s) (mousePos s)
     (mouseIsDown s) (mode s) b.

(** The constructor, for a room [room] (with the objects it refers to) and
    the camera offset of the world. *)
Definition new (backgroundObjs : gmap ref Background.t)
    (entityObjs : gmap ref FreeRoamEntity.t) (nextRef : ref)
    (room : option Room.t) (cameraOffset : Vector.t) : t :=
  mk ∅ backgroundObjs entityObjs nextRef room cameraOffset
     [] None None None (Vector.mk 0 0) false drawBarrier false.

(** [cancel()] *)
Definition cancel (s : t) : t :=
  set_selectedEntity None (set_selectedBgObj None (set_selectedPolygon None s)).

(** [setMode(newMode)]; the corner UI it swaps belongs to the UI manager
    and is not part of this state. *)
Definition setMode (newMode : Mode) (s : t) : t :=
  cancel (set_mode newMode s).

(** [delete()] *)
Definition delete (s : t) : t :=
  match selectedPolygon s with
  | Some p =>
      match indexOf (completedPolygons s) p with
      | Some i =>
          set_selectedPolygon None
            (set_completedPolygons (splice1 i (completedPolygons s)) s)
      | None => s
      end
  | None =>
      let removedBg :=
        match currentRoom s, selectedBgObj s with
        | Some room, Some bg =>
            match indexOf (Room.backgrounds room) bg with
            | Some i =>
                Some (set_selectedBgObj None
                        (set_currentRoom
                           (Some (Room.mk (Room.entities room)
                                    (splice1 i (Room.backgrounds room)))) s))
            | None => None
            end
        | _, _ => None
        end in
      match removedBg with
      | Some s' => s'
      | None =>
          match currentRoom s, selectedEntity s with
          | Some room, Some e =>
              match indexOf (Room.entities room) e with
              | Some i =>
                  set_selectedEntity None
                    (set_currentRoom
                       (Some (Room.mk (splice1 i (Room.entities room))
                                (Room.backgrounds room))) s)
              | None => s
              end
          | _, _ => s
          end
      end
  end.

Section Display.

(** [DM.windowToWorldCoord], [Polygon.contains] and [Box.contains] are not
    among the sources. *)
Variable windowToWorldCoord : Vector.t -> Vector.t.
Variable polygonContains : Polygon.t -> Vector.t -> bool.
Variable boxContains : Box.t -> Vector.t -> bool.

Definition worldCoord (ev : MouseEvent.t) (s : t) : Vector.t :=
  Vector.add
    (windowToWorldCoord (Vector.mk (MouseEvent.clientX ev) (MouseEvent.clientY ev)))
    (cameraOffset s).

(** The three searches of the select branch of [mousedownHandler]. *)
Definition hitPolygon (vec : Vector.t) (s : t) : option ref :=
  List.find
    (fun p => from_option (fun pol => polygonContains pol vec) false
                (polygonObjs s !! p))
    (completedPolygons s).

Definition hitEntity (vec : Vector.t) (room : Room.t) (s : t) : option ref :=
  List.find
    (fun e => from_option
                (fun ent => boxContains (FreeRoamEntity.drawBox ent) vec) false
                (entityObjs s !! e))
    (Room.entities room).

Definition hitBackground (vec : Vector.t) (room : Room.t) (s : t) : option ref :=
  List.find
    (fun b => from_option (fun bg => boxContains (Background.box bg) vec) false
                (backgroundObjs s !! b))
    (rev (Room.backgrounds room)).

(** [mousedownHandler(ev)] *)
Definition mousedownHandler (ev : MouseEvent.t) (s : t) : t * list Event :=
  let s := set_mouseIsDown true s in
  let vec := worldCoord ev s in
  let s := set_mousePos vec s in
  if MouseEvent.button ev =? 2 then (set_dragging true s, [PreventDefault])
  else
    match mode s with
    | drawBarrier =>
        let '(p, s) :=
          match selectedPolygon s with
          | Some p => (p, s)
          | None =>
              let p := nextRef s in
              (p, set_selectedPolygon (Some p)
                    (set_nextRef (S p)
                       (set_polygonObjs (<[p := Polygon.new]> (polygonObjs s)) s)))
          end in
        let s :=
          set_polygonObjs
            (alter (fun pol => Polygon.addPoints pol [vec]) p (polygonObjs s)) s in
        if MouseEvent.shiftKey ev then
          if (2 <? length (Polygon.getPoints (default Polygon.new (polygonObjs s !! p))))%nat
          then (set_selectedPolygon None
                  (set_completedPolygons (completedPolygons s ++ [p]) s), [])
          else (s, [])
        else (s, [])
    | select =>
        if negb (MouseEvent.shiftKey ev) then
          let s := cancel s in
          match hitPolygon vec s with
          | Some p => (set_selectedPolygon (Some p) s, [])
          | None =>
              match currentRoom s with
              | Some room =>
                  match hitEntity vec room s with
                  | Some e => (set_selectedEntity (Some e) s, [])
                  | None =>
                      match hitBackground vec room s with
                      | Some b => (set_selectedBgObj (Some b) s, [])
                      | None => (s, [])
                      end
                  end
              | None => (s, [])
              end
          end
        else (s, [])
    end.

(** [selectMouseupHandler(ev)] *)
Definition selectMouseupHandler (ev : MouseEvent.t) (s : t) : t :=
  let s := set_dragging false (set_mouseIsDown false s) in
  set_mousePos (worldCoord ev s) s.

End Display.

End WorldRoomEditor.

(** ** The specification's transition table, and runs of one button *)

Module Spec.

(** The table of section 4.1 of the specification, row by row: the status
    it prescribes for a control that was down or not ([wasDown]) and is
    down or not now ([currentlyDown]). *)
Definition transitionTable (wasDown currentlyDown : bool) : Status.t :=
  match wasDown, currentlyDown with
  | false, true => Status.mk true false true false false
  | true, true => Status.mk true true false true false
  | true, false => Status.mk false true false false true
  | false, false => Status.mk false false false false false
  end.

(** The statuses the table prescribes step by step, each step's [wasDown]
    being whether the control was down at the step before. *)
Fixpoint tableRun (wasDown : bool) (steps : list bool) : list Status.t :=
  match steps with
  | [] => []
  | currentlyDown :: steps' =>
      transitionTable wasDown currentlyDown :: tableRun currentlyDown steps'
  end.

End Spec.

(** The discrete path: [down()] when the control is down, [up()] when it
    is not. *)
Definition discrete (currentlyDown : bool) (b : Button.t) : Button.t :=
  if currentlyDown then Button.down b else Button.up b.

(** The status of a button at each step of a run in which every step
    updates it by [update] and then ages it. *)
Fixpoint runButton (update : bool -> Button.t -> Button.t) (b : Button.t)
    (steps : list bool) : list Status.t :=
  match steps with
  | [] => []
  | currentlyDown :: steps' =>
      let b' := update currentlyDown b in
      Button.status b' :: runButton update (Button.age b') steps'
  end.

(** ** Predicates, relations and runs the statements use *)

(** The test of [Directional.step()]: the intent has magnitude 0. *)
Definition atRest (v : Vector.t) : Prop :=
  (Vector.getMagnitude v =? 0)%float = true.

(** The intent has a magnitude other than 0. *)
Definition moving (v : Vector.t) : Prop :=
  (Vector.getMagnitude v =? 0)%float = false.

(** The fields of a button that no method assigns. *)
Definition buttonIdent (b : Button.t) : string * option Z :=
  (Button.key b, Button.gpButtonIndex b).

(** The fields of a directional that no method assigns. *)
Definition stickIdent (d : Directional.t) : option Z * option Z :=
  (Directional.hAxisIndex d, Directional.vAxisIndex d).

(** [sameControls s s']: from [s] to [s'] nothing was registered,
    unregistered, saved or restored, and every object kept its place and
    its identity. *)
Record sameControls (s s' : InputManager.t) : Prop := SameControls {
  same_buttons : InputManager.buttons s' = InputManager.buttons s;
  same_directionals : InputManager.directionals s' = InputManager.directionals s;
  same_saved : InputManager.savedControls s' = InputManager.savedControls s;
  same_nextRef : InputManager.nextRef s' = InputManager.nextRef s;
  same_buttonIdent :
    forall r, buttonIdent <$> InputManager.buttonObjs s' !! r
              = buttonIdent <$> InputManager.buttonObjs s !! r;
  same_stickIdent :
    forall r, stickIdent <$> InputManager.directionalObjs s' !! r
              = stickIdent <$> InputManager.directionalObjs s !! r
}.

(** What the gamepad poll keeps: the controls, and a [usingKeyboard] that
    is false. *)
Definition pollKeeps (s s' : InputManager.t) : Prop :=
  sameControls s s'
  /\ (InputManager.usingKeyboard s = false ->
      InputManager.usingKeyboard s' = false).

(** A stick some registered directional watches is over the dead zone on
    [gamepad]. *)
Definition stickOverDeadZone (gamepad : Gamepad.t) (s : InputManager.t) : Prop :=
  exists (r : ref) (dir : Directional.t) (i : Z) (a : float),
    r ∈ JsMap.values (InputManager.directionals s)
    /\ InputManager.directionalObjs s !! r = Some dir
    /\ (Directional.hAxisIndex dir = Some i \/ Directional.vAxisIndex dir = Some i)
    /\ index (Gamepad.axes gamepad) i = Some a
    /\ (InputManager.deadZone <? abs a)%float = true.

(** A gamepad button some registered button watches has a value over 0 or
    is pressed on [gamepad]. *)
Definition gamepadButtonActive (gamepad : Gamepad.t) (s : InputManager.t) : Prop :=
  exists (r : ref) (but : Button.t) (i : Z) (gb : GamepadButton.t),
    r ∈ JsMap.values (InputManager.buttons s)
    /\ InputManager.buttonObjs s !! r = Some but
    /\ Button.gpButtonIndex but = Some i
    /\ index (Gamepad.buttons gamepad) i = Some gb
    /\ (0 <? GamepadButton.value gb)%float || GamepadButton.pressed gb = true.

(** What the loops of the key handlers keep: the controls and
    [usingKeyboard]. *)
Definition keyKeeps {A : Type} (a a' : InputManager.t * A) : Prop :=
  sameControls (fst a) (fst a')
  /\ InputManager.usingKeyboard (fst a') = InputManager.usingKeyboard (fst a).

(** What can happen to an input manager other than [save()] and
    [restore()]: the calls of its other public methods, the device events
    its listeners handle, and game steps. *)
Inductive Op : Type :=
| RegisterButton (name key : string) (gpButtonIndex : option Z)
| UnregisterButton (name : string)
| RegisterDirectional (name upKey rightKey downKey leftKey : string)
    (hAxisIndex vAxisIndex : option Z)
| UnregisterAll
| EnterMenuMode
| SetOnPressed (name : string) (handler : option Callback)
| SetOnReleased (name : string) (handler : option Callback)
| SetDirectionalFunction (label : string) (handler : Callback)
| SetMouseDown (func : option Callback)
| SetMouseUp (func : option Callback)
| SetMouseMove (func : option Callback)
| SuppressContextMenu (arg0 : bool)
| Keydown (key : string)
| Keyup (key : string)
| Mousedown (e : MouseEvent.t)
| Mouseup (e : MouseEvent.t)
| Mousemove (e : MouseEvent.t)
| GamepadConnect
| GamepadDisconnect
| Step (gamepads : list (option Gamepad.t))
| StartUp.

(** The manager after an operation; what the operation logs or calls is
    left out. *)
Definition perform (op : Op) (s : InputManager.t) : InputManager.t :=
  match op with
  | RegisterButton name key gp => InputManager.registerButton name key gp s
  | UnregisterButton name => InputManager.unregisterButton name s
  | RegisterDirectional name u r d l h v =>
      InputManager.registerDirectional name u r d l h v s
  | UnregisterAll => InputManager.unregisterAll s
  | EnterMenuMode => InputManager.enterMenuMode s
  | SetOnPressed name handler => fst (InputManager.setOnPressed name handler s)
  | SetOnReleased name handler => fst (InputManager.setOnReleased name handler s)
  | SetDirectionalFunction label handler =>
      InputManager.setDirectionalFunction label handler s
  | SetMouseDown func => InputManager.setMouseDown func s
  | SetMouseUp func => InputManager.setMouseUp func s
  | SetMouseMove func => InputManager.setMouseMove func s
  | SuppressContextMenu arg0 => InputManager.suppressContextMenu arg0 s
  | Keydown key => fst (InputManager.keydownHandler key s)
  | Keyup key => fst (InputManager.keyupHandler key s)
  | Mousedown e => fst (InputManager.mousedownHandler e s)
  | Mouseup e => fst (InputManager.mouseupHandler e s)
  | Mousemove e => fst (InputManager.mousemoveHandler e s)
  | GamepadConnect => fst (InputManager.gamepadconnectHandler s)
  | GamepadDisconnect => fst (InputManager.gamepaddisconnectHandler s)
  | Step gamepads => fst (InputManager.step gamepads s)
  | StartUp => fst (InputManager.startUp s)
  end.

(** The manager after a sequence of operations. *)
Definition performAll (ops : list Op) (s : InputManager.t) : InputManager.t :=
  fold_left (fun s op => perform op s) ops s.

(** No object lies at a reference that [new] has not handed out yet. *)
Definition storeWf (s : InputManager.t) : Prop :=
  forall r : ref,
    (InputManager.nextRef s <= r)%nat ->
    InputManager.buttonObjs s !! r = None
    /\ InputManager.directionalObjs s !! r = None.

(** [keeps s s']: from [s] to [s'] there was no save and no restore, and
    the objects of [s] are still there, each with its identity. *)
Record keeps (s s' : InputManager.t) : Prop := Keeps {
  keeps_saved : InputManager.savedControls s' = InputManager.savedControls s;
  keeps_nextRef : (InputManager.nextRef s <= InputManager.nextRef s')%nat;
  keeps_buttonIdent :
    forall r, (r < InputManager.nextRef s)%nat ->
              buttonIdent <$> InputManager.buttonObjs s' !! r
              = buttonIdent <$> InputManager.buttonObjs s !! r;
  keeps_stickIdent :
    forall r, (r < InputManager.nextRef s)%nat ->
              stickIdent <$> InputManager.directionalObjs s' !! r
              = stickIdent <$> InputManager.directionalObjs s !! r;
  keeps_storeWf : storeWf s -> storeWf s';
  keeps_buttons_wf :
    JsMap.wf (InputManager.buttons s) -> JsMap.wf (InputManager.buttons s');
  keeps_directionals_wf :
    JsMap.wf (InputManager.directionals s) ->
    JsMap.wf (InputManager.directionals s')
}.

(** A click that is not a right click. *)
Definition notRightClick (ev : MouseEvent.t) : Prop := MouseEvent.button ev <> 2.

(** A click without shift that is not a right click. *)
Definition plainClick (ev : MouseEvent.t) : Prop :=
  notRightClick ev /\ MouseEvent.shiftKey ev = false.

(** The points of the polygon being drawn, none when there is no such
    polygon. *)
Definition pointsInProgress (s : WorldRoomEditor.t) : list Vector.t :=
  match WorldRoomEditor.selectedPolygon s with
  | Some p => default [] (WorldRoomEditor.polygonObjs s !! p)
  | None => []
  end.

(** The polygon being drawn, if any, is in the store. *)
Definition inProgressWf (s : WorldRoomEditor.t) : Prop :=
  forall p, WorldRoomEditor.selectedPolygon s = Some p ->
            is_Some (WorldRoomEditor.polygonObjs s !! p).

Section Clicks.

Variable windowToWorldCoord : Vector.t -> Vector.t.
Variable polygonContains : Polygon.t -> Vector.t -> bool.
Variable boxContains : Box.t -> Vector.t -> bool.

(** The editor after a mouse-down event. *)
Definition click (ev : MouseEvent.t) (s : WorldRoomEditor.t) : WorldRoomEditor.t :=
  fst (WorldRoomEditor.mousedownHandler windowToWorldCoord polygonContains
         boxContains ev s).

(** The editor after a run of mouse-down events. *)
Definition clicks (evs : list MouseEvent.t) (s : WorldRoomEditor.t)
    : WorldRoomEditor.t :=
  fold_left (fun s ev => click ev s) evs s.

(** The point an event is at, in world coordinates. *)
Definition world (s : WorldRoomEditor.t) (ev : MouseEvent.t) : Vector.t :=
  WorldRoomEditor.worldCoord windowToWorldCoord ev s.

End Clicks.

(** ** States an input manager can reach *)

(** The button and the directional a name stands for. *)
Definition buttonNamed (s : InputManager.t) (name : string) : option Button.t :=
  r ← JsMap.get (InputManager.buttons s) name; InputManager.buttonObjs s !! r.

Definition directionalNamed (s : InputManager.t) (name : string)
    : option Directional.t :=
  r ← JsMap.get (InputManager.directionals s) name;
  InputManager.directionalObjs s !! r.

(** A map of references into a store: no name twice, no object under two
    names, and every reference has its object. *)
Definition mapAlive {V : Type} (objs : gmap ref V) (m : JsMap.t ref) : Prop :=
  JsMap.wf m
  /\ NoDup (JsMap.values m)
  /\ forall r, r ∈ JsMap.values m -> is_Some (objs !! r).

(** What holds of every state the manager can be in. *)
Record inv (s : InputManager.t) : Prop := Inv {
  inv_store : storeWf s;
  inv_buttons : mapAlive (InputManager.buttonObjs s) (InputManager.buttons s);
  inv_directionals :
    mapAlive (InputManager.directionalObjs s) (InputManager.directionals s);
  inv_saved :
    forall saved, InputManager.savedControls s = Some saved ->
      mapAlive (InputManager.buttonObjs s) (SavedControls.buttons saved)
      /\ mapAlive (InputManager.directionalObjs s)
           (SavedControls.directionals saved)
}.

(** Everything that can happen to an input manager. *)
Inductive Action : Type :=
| Perform (op : Op)
| Save
| Restore.

Definition act (a : Action) (s : InputManager.t) : InputManager.t :=
  match a with
  | Perform op => perform op s
  | Save => fst (InputManager.save s)
  | Restore => fst (InputManager.restore s)
  end.

Definition actAll (actions : list Action) (s : InputManager.t) : InputManager.t :=
  fold_left (fun s a => act a s) actions s.

(** ** What a step calls *)

(** The button callbacks among the events of a run, in order. *)
Definition buttonCalls (out : list Event) : list Callback :=
  flat_map (fun e => match e with Invoke f => [f] | _ => [] end) out.

(** The directional callbacks among the events of a run, with their
    labels, in order. *)
Definition directionalCalls (out : list Event) : list (Callback * Label.t) :=
  flat_map (fun e => match e with InvokeDir f dir => [(f, dir)] | _ => [] end) out.

(** An entry of [navigator.getGamepads()] that the poll skips: [null], or a
    gamepad that is not connected. *)
Definition skipped (entry : option Gamepad.t) : Prop :=
  match entry with
  | Some gamepad => Gamepad.connected gamepad = false
  | None => True
  end.

(** The reading of an axis is missing or within the dead zone. *)
Definition withinDeadZone (gamepad : Gamepad.t) (ai : option Z) : Prop :=
  forall i a, ai = Some i -> index (Gamepad.axes gamepad) i = Some a ->
              (InputManager.deadZone <? abs a)%float = false.

(** [flagOnly s s']: [s'] is [s] but for [usingKeyboard]. *)
Definition flagOnly (s s' : InputManager.t) : Prop :=
  s' = InputManager.set_usingKeyboard (InputManager.usingKeyboard s') s.

(** On [gamepad] no stick that a registered directional watches is over
    the dead zone and no gamepad button that a registered button watches
    is active. *)
Definition quiet (gamepad : Gamepad.t) (s : InputManager.t) : Prop :=
  (forall r dir,
     r ∈ JsMap.values (InputManager.directionals s) ->
     InputManager.directionalObjs s !! r = Some dir ->
     withinDeadZone gamepad (Directional.hAxisIndex dir)
     /\ withinDeadZone gamepad (Directional.vAxisIndex dir))
  /\ (forall r but,
        r ∈ JsMap.values (InputManager.buttons s) ->
        InputManager.buttonObjs s !! r = Some but ->
        InputManager.buttonReading gamepad (Button.gpButtonIndex but) <> Some true).

(** [dirOnly a a']: from [a] to [a'], a state with the events so far, only
    objects of directionals changed and no button callback was called. *)
Definition dirOnly (a a' : InputManager.t * list Event) : Prop :=
  fst a' = InputManager.set_directionalObjs
             (InputManager.directionalObjs (fst a')) (fst a)
  /\ buttonCalls (snd a') = buttonCalls (snd a).

(** ** Key events *)

(** The body of the button loop of a key handler on one button: [act] is
    [down()] or [up()]. *)
Definition keyOnButton (act : Button.t -> Button.t) (key : string)
    (b : Button.t) : Button.t :=
  if String.eqb key (Button.key b) then act b else b.

(** [key] is the key of side [side] of [d]. *)
Definition sideHasKey (key : string) (d : Directional.t) (side : Label.t) : bool :=
  String.eqb key (Button.key (Directional.button side d)).

(** A registered button or a side of a registered directional has [key]. *)
Definition boundKey (key : string) (s : InputManager.t) : Prop :=
  (exists r b,
     r ∈ JsMap.values (InputManager.buttons s)
     /\ InputManager.buttonObjs s !! r = Some b
     /\ Button.key b = key)
  \/ (exists r d side,
        r ∈ JsMap.values (InputManager.directionals s)
        /\ InputManager.directionalObjs s !! r = Some d
        /\ Button.key (Directional.button side d) = key).

(** ** Mouse functions *)

(** [mouseKept s s']: from [s] to [s'] the mouse functions and the
    context-menu flag stayed what they were. *)
Definition mouseKept (s s' : InputManager.t) : Prop :=
  InputManager.mouseFunctions s' = InputManager.mouseFunctions s
  /\ InputManager.noContextMenu s' = InputManager.noContextMenu s.

(** The action is no call of [setMouseDown], [setMouseUp], [setMouseMove]
    or [suppressContextMenu]. *)
Definition noMouseSetter (a : Action) : Prop :=
  match a with
  | Perform (SetMouseDown _) | Perform (SetMouseUp _)
  | Perform (SetMouseMove _) | Perform (SuppressContextMenu _) => False
  | _ => True
  end.

(** ** What a click in select mode hits *)

Section Hits.

Variable polygonContains : Polygon.t -> Vector.t -> bool.
Variable boxContains : Box.t -> Vector.t -> bool.

(** The tests of the three searches of the select branch of
    [mousedownHandler]: the polygon, the draw box of the entity, the box
    of the background behind a reference contains [vec]. *)
Definition inPolygon (s : WorldRoomEditor.t) (vec : Vector.t) (p : ref) : bool :=
  from_option (fun pol => polygonContains pol vec) false
    (WorldRoomEditor.polygonObjs s !! p).

Definition inEntity (s : WorldRoomEditor.t) (vec : Vector.t) (e : ref) : bool :=
  from_option (fun ent => boxContains (FreeRoamEntity.drawBox ent) vec) false
    (WorldRoomEditor.entityObjs s !! e).

Definition inBackground (s : WorldRoomEditor.t) (vec : Vector.t) (b : ref) : bool :=
  from_option (fun bg => boxContains (Background.box bg) vec) false
    (WorldRoomEditor.backgroundObjs s !! b).

End Hits.

(** [firstOf f l x]: [x] is the first element of [l] that passes [f]. *)
Definition firstOf {A : Type} (f : A -> bool) (l : list A) (x : A) : Prop :=
  exists l1 l2, l = l1 ++ x :: l2 /\ f x = true /\ Forall (fun y => f y = false) l1.

(** [lastOf f l x]: [x] is the last element of [l] that passes [f]. *)
Definition lastOf {A : Type} (f : A -> bool) (l : list A) (x : A) : Prop :=
  exists l1 l2, l = l1 ++ x :: l2 /\ f x = true /\ Forall (fun y => f y = false) l2.

(** The selection of an editor: polygon, entity, background. *)
Definition selection (s : WorldRoomEditor.t) : option ref * option ref * option ref :=
  (WorldRoomEditor.selectedPolygon s, WorldRoomEditor.selectedEntity s,
   WorldRoomEditor.selectedBgObj s).

(** ** The room editor's use of the input manager *)

Module WorldRoomEditorInput.

(** The calls of [WorldRoomEditor.enter()] on the input manager, in the
    order of the source, the bound methods and closures it passes named by
    what they call.  The UI elements it builds and its [setMode] are not
    part of the input manager. *)
Definition enterCalls : list Op :=
  [SetOnPressed "escape" (Some (Handler "cancel"));
   RegisterButton "select-mode" "m" None;
   SetOnPressed "select-mode" (Some (Handler "setMode(Mode.select)"));
   RegisterButton "barrier-mode" "b" None;
   SetOnPressed "barrier-mode" (Some (Handler "setMode(Mode.drawBarrier)"));
   RegisterButton "delete" "Delete" None;
   SetOnPressed "delete" (Some (Handler "delete"));
   RegisterButton "export" "x" None;
   SetOnPressed "export" (Some (Handler "exportString"));
   SetMouseDown (Some (Handler "mousedownHandler"));
   SetMouseUp (Some (Handler "selectMouseupHandler"));
   SetMouseMove (Some (Handler "mousemoveHandler"));
   SuppressContextMenu true].

Definition enter (im : InputManager.t) : InputManager.t :=
  performAll enterCalls im.

(** The calls of [WorldRoomEditor.exit()] on the input manager. *)
Definition exitCalls : list Op :=
  [SetOnPressed "delete" None;
   UnregisterButton "select-mode";
   UnregisterButton "barrier-mode";
   UnregisterButton "export";
   SetMouseDown None;
   SetMouseUp None;
   SetMouseMove None;
   SuppressContextMenu false].

Definition exit (im : InputManager.t) : InputManager.t :=
  performAll exitCalls im.

End WorldRoomEditorInput.

(** What a call does to the button a name stands for. *)
Definition onName (op : Op) (name : string) (b : option Button.t)
    : option Button.t :=
  match op with
  | RegisterButton n key gp =>
      if String.eqb name n then Some (Button.new key gp) else b
  | UnregisterButton n => if String.eqb name n then None else b
  | SetOnPressed n handler =>
      if String.eqb name n then Button.set_onPressed (orNoOp handler) <$> b else b
  | SetOnReleased n handler =>
      if String.eqb name n then Button.set_onReleased (orNoOp handler) <$> b else b
  | _ => b
  end.

(** The operation is a call of a method that registers or configures:
    no event, no step, and not [unregisterAll], [enterMenuMode] or
    [startUp]. *)
Definition configures (op : Op) : Prop :=
  match op with
  | RegisterButton _ _ _ | UnregisterButton _ | RegisterDirectional _ _ _ _ _ _ _
  | SetOnPressed _ _ | SetOnReleased _ _ | SetDirectionalFunction _ _
  | SetMouseDown _ | SetMouseUp _ | SetMouseMove _ | SuppressContextMenu _ => True
  | _ => False
  end.

(** * Properties *)

(** ** Button and Status *)

Lemma step_status_table (currentlyDown : bool) (b : Button.t) :
  Button.status (Button.step currentlyDown b)
  = Spec.transitionTable (Status.wasDown (Button.status b)) currentlyDown.
Proof.
  destruct b as [k [d w p h r] g op orl]; destruct w, currentlyDown; reflexivity.
Qed.

Lemma discrete_is_step (currentlyDown : bool) (b : Button.t) :
  discrete currentlyDown b = Button.step currentlyDown b.
Proof.
  destruct b as [k [d w p h r] g op orl]; destruct w, currentlyDown; reflexivity.
Qed.

Lemma age_wasDown (b : Button.t) :
  Status.wasDown (Button.status (Button.age b)) = Status.isDown (Button.status b).
Proof. reflexivity. Qed.

Lemma step_isDown (currentlyDown : bool) (b : Button.t) :
  Status.isDown (Button.status (Button.step currentlyDown b)) = currentlyDown.
Proof. reflexivity. Qed.

Lemma runButton_ext (f g : bool -> Button.t -> Button.t) :
  (forall c b, f c b = g c b) ->
  forall steps b, runButton f b steps = runButton g b steps.
Proof.
  intros Hfg steps; induction steps as [|c steps IH]; intros b; cbn [runButton].
  - reflexivity.
  - rewrite Hfg, IH. reflexivity.
Qed.

Lemma runButton_step_table (steps : list bool) :
  forall b : Button.t,
    runButton Button.step b steps
    = Spec.tableRun (Status.wasDown (Button.status b)) steps.
Proof.
  induction steps as [|c steps IH]; intros b; cbn [runButton Spec.tableRun].
  - reflexivity.
  - rewrite step_status_table, IH, age_wasDown, step_isDown. reflexivity.
Qed.

(** C1.  Each of the two update paths of a button, the discrete
    [down()]/[up()] and the polled [step(currentlyDown)], leaves the status
    the table of section 4.1 prescribes: [isPressed] is
    [currentlyDown && !wasDown], [isHeld] is [currentlyDown && wasDown],
    [isReleased] is [!currentlyDown && wasDown] and [isDown] is
    [currentlyDown]; and over every sequence of updates alternated with
    aging, from every button, the two paths give the same status at each
    step, the one the table prescribes. *)
Theorem button_paths_follow_table :
  (forall (b : Button.t) (currentlyDown : bool),
     let wasDown := Status.wasDown (Button.status b) in
     Button.status (discrete currentlyDown b)
     = Spec.transitionTable wasDown currentlyDown
     /\ Button.status (Button.step currentlyDown b)
        = Spec.transitionTable wasDown currentlyDown
     /\ Spec.transitionTable wasDown currentlyDown
        = Status.mk currentlyDown wasDown
            (currentlyDown && negb wasDown)
            (currentlyDown && wasDown)
            (negb currentlyDown && wasDown))
  /\ (forall (b : Button.t) (steps : list bool),
        runButton discrete b steps = runButton Button.step b steps
        /\ runButton Button.step b steps
           = Spec.tableRun (Status.wasDown (Button.status b)) steps).
Proof.
  split.
  - intros b c wasDown. rewrite discrete_is_step, step_status_table.
    repeat split. destruct wasDown, c; reflexivity.
  - intros b steps. split.
    + apply runButton_ext. intros c b0. apply discrete_is_step.
    + apply runButton_step_table.
Qed.

(** ** Aging *)

Lemma getAllButtons_registered (s : InputManager.t) :
  InputManager.getAllButtons s
  = map Registered (JsMap.values (InputManager.buttons s)).
Proof.
  unfold InputManager.getAllButtons.
  generalize (map Registered (JsMap.values (InputManager.buttons s))).
  induction (JsMap.values (InputManager.directionals s)) as [|d ds IH];
    intros out; simpl; [reflexivity | apply IH].
Qed.

Lemma age_idempotent (b : Button.t) : Button.age (Button.age b) = Button.age b.
Proof. reflexivity. Qed.

(** Aging the registered buttons [rs] ages each of them once, however
    often it is listed, and touches nothing else. *)
Lemma age_registered_lookup (rs : list ref) :
  forall (s : InputManager.t) (r : ref),
    let s' :=
      fold_left (fun s h => InputManager.modifyButton h Button.age s)
        (map Registered rs) s in
    InputManager.buttonObjs s' !! r
    = (if bool_decide (r ∈ rs) then Button.age else id)
        <$> InputManager.buttonObjs s !! r
    /\ InputManager.directionalObjs s' = InputManager.directionalObjs s.
Proof.
  induction rs as [|r0 rs IH]; intros s r; simpl.
  - split; [|reflexivity]. destruct (InputManager.buttonObjs s !! r); reflexivity.
  - destruct (IH (InputManager.modifyRegistered r0 Button.age s) r) as [-> ->].
    split; [|reflexivity]. simpl. rewrite lookup_alter.
    destruct (decide (r = r0)) as [->|Hne].
    + rewrite decide_True by reflexivity.
      rewrite (bool_decide_eq_true_2 (r0 ∈ r0 :: rs)) by apply list_elem_of_here.
      destruct (InputManager.buttonObjs s !! r0) as [b|]; simpl; [|reflexivity].
      destruct (bool_decide (r0 ∈ rs)); reflexivity.
    + rewrite decide_False by congruence.
      rewrite (bool_decide_ext (r ∈ r0 :: rs) (r ∈ rs)); [reflexivity|].
      rewrite elem_of_cons. tauto.
Qed.

Lemma JsMap_get_values {V : Type} (m : JsMap.t V) (k : string) (v : V) :
  JsMap.get m k = Some v -> v ∈ JsMap.values m.
Proof.
  induction m as [|[k' v'] m IH]; simpl; [discriminate|].
  destruct (String.eqb k k').
  - intros [= ->]. apply list_elem_of_here.
  - intros H. apply list_elem_of_further, IH, H.
Qed.

(** C9.  [ageButtons()] sets [isHeld] to [isDown] on every button it ages,
    besides rolling [wasDown] and clearing [isPressed] and [isReleased]: a
    registered button that is down reports [isHeld = true] right after the
    aging, with no [down()] or [step()] in between. *)
Theorem ageButtons_sets_isHeld (s : InputManager.t) (name : string) (r : ref)
    (b : Button.t) :
  JsMap.get (InputManager.buttons s) name = Some r ->
  InputManager.buttonObjs s !! r = Some b ->
  exists b' : Button.t,
    InputManager.buttonObjs (InputManager.ageButtons s) !! r = Some b'
    /\ Button.status b'
       = Status.mk (Status.isDown (Button.status b))
           (Status.isDown (Button.status b)) false
           (Status.isDown (Button.status b)) false
    /\ (Status.isDown (Button.status b) = true ->
        Status.isHeld (Button.status b') = true).
Proof.
  intros Hname Hobj. exists (Button.age b).
  unfold InputManager.ageButtons. rewrite getAllButtons_registered.
  destruct (age_registered_lookup (JsMap.values (InputManager.buttons s)) s r)
    as [-> _].
  rewrite Hobj, bool_decide_eq_true_2 by (eapply JsMap_get_values, Hname).
  repeat split. intros Hdown. simpl. exact Hdown.
Qed.

(** The theorem at a button that was pressed before the aging. *)
Lemma ageButtons_sets_isHeld_witness :
  let s :=
    fst (InputManager.keydownHandler "m"
           (InputManager.registerButton "select-mode" "m" None InputManager.new)) in
  exists b' : Button.t,
    InputManager.buttonObjs (InputManager.ageButtons s) !! 0%nat = Some b'
    /\ Button.status b' = Status.mk true true false true false
    /\ (true = true -> Status.isHeld (Button.status b') = true).
Proof.
  apply (ageButtons_sets_isHeld _ "select-mode" 0%nat
           (Button.down (Button.new "m" None))); reflexivity.
Defined.

(** ** The label a directional fires with *)

(** On the horizontal axis the label agrees with the contributions of
    [setVecFromButtons] (right is [+x], left is [-x]). *)
Lemma fireLabel_horizontal (v : Vector.t) :
  (abs (Vector.y v) <? abs (Vector.x v))%float = true ->
  Directional.fireLabel v
  = if (0 <? Vector.x v)%float then Label.right else Label.left.
Proof. intros H. unfold Directional.fireLabel. rewrite H. reflexivity. Qed.

(** On the vertical axis, ties included, it is the other way round:
    [y > 0], which is what the down button contributes, fires ["up"]. *)
Lemma fireLabel_vertical (v : Vector.t) :
  (abs (Vector.y v) <? abs (Vector.x v))%float = false ->
  Directional.fireLabel v
  = if (0 <? Vector.y v)%float then Label.up else Label.down.
Proof. intros H. unfold Directional.fireLabel. rewrite H. reflexivity. Qed.

(** C7.  The code at an input where it departs from the specification:
    with only the down key of a directional pressed, [setVecFromButtons]
    makes the vector [(0, 1)] (down is [+y]), and the step that fires
    calls the callback with ["up"], where the specification has ["down"];
    with only the up key pressed the vector is [(0, -1)] and the label is
    ["down"]. *)
Theorem down_key_fires_up :
  let s0 :=
    InputManager.setDirectionalFunction "move" (Handler "onMove")
      (InputManager.registerDirectional "move" "w" "d" "s" "a" None None
         InputManager.new) in
  let pressDown := fst (InputManager.keydownHandler "s" s0) in
  let pressUp := fst (InputManager.keydownHandler "w" s0) in
  InputManager.getDirectionalVec "move" pressDown = Some (Vector.mk 0 1)
  /\ snd (InputManager.step [] pressDown) = [InvokeDir (Handler "onMove") Label.up]
  /\ InputManager.getDirectionalVec "move" pressUp = Some (Vector.mk 0 (-1))
  /\ snd (InputManager.step [] pressUp) = [InvokeDir (Handler "onMove") Label.down].
Proof. vm_compute. repeat split. Qed.

(** ** Key repeat *)

(** A step at rest fires nothing and winds the counter up to [keyDelay]. *)
Lemma stepWith_atRest (v : Vector.t) (d : Directional.t) :
  atRest v ->
  Directional.stepWith v d
  = (Directional.set_keyCounter (Directional.keyDelay d) (Directional.set_vec v d), []).
Proof.
  unfold atRest, Directional.stepWith, Directional.step. simpl.
  intros ->. reflexivity.
Qed.

(** A moving step fires when the counter has run down, and goes on from
    [keyRate - 1]; otherwise it counts down. *)
Lemma stepWith_moving (v : Vector.t) (d : Directional.t) :
  moving v ->
  Directional.stepWith v d
  = if Directional.keyCounter d =? 0
    then (Directional.set_keyCounter (Directional.keyRate d - 1)
            (Directional.set_vec v d),
          [InvokeDir (Directional.fn d) (Directional.fireLabel v)])
    else (Directional.set_keyCounter (Directional.keyCounter d - 1)
            (Directional.set_vec v d), []).
Proof.
  unfold moving, Directional.stepWith, Directional.step. simpl.
  intros ->. destruct (Directional.keyCounter d =? 0); reflexivity.
Qed.

Lemma run_cons (d : Directional.t) (v : Vector.t) (vs : list Vector.t) :
  Directional.run d (v :: vs)
  = (fst (Directional.run (fst (Directional.stepWith v d)) vs),
     snd (Directional.stepWith v d)
     :: snd (Directional.run (fst (Directional.stepWith v d)) vs)).
Proof.
  cbn [Directional.run].
  destruct (Directional.stepWith v d) as [d1 out]. cbn [fst snd].
  destruct (Directional.run d1 vs) as [d2 outs]. reflexivity.
Qed.

(** At rest nothing fires, and after at least one step at rest the
    counter stands at [keyDelay]. *)
Lemma run_atRest (vs : list Vector.t) :
  forall d : Directional.t,
    Forall atRest vs ->
    Forall (fun out => out = []) (snd (Directional.run d vs))
    /\ Directional.keyDelay (fst (Directional.run d vs)) = Directional.keyDelay d
    /\ Directional.keyRate (fst (Directional.run d vs)) = Directional.keyRate d
    /\ Directional.fn (fst (Directional.run d vs)) = Directional.fn d
    /\ (vs <> [] ->
        Directional.keyCounter (fst (Directional.run d vs)) = Directional.keyDelay d).
Proof.
  induction vs as [|v vs IH]; intros d Hrest.
  - simpl. repeat split; [constructor | congruence].
  - inversion Hrest as [|? ? Hv Hvs]; subst.
    rewrite run_cons, (stepWith_atRest v d Hv). cbn [fst snd].
    destruct (IH (Directional.set_keyCounter (Directional.keyDelay d)
                    (Directional.set_vec v d)) Hvs)
      as (Hq & Hd & Hr & Hf & Hc).
    repeat split; [constructor; [reflexivity | exact Hq] | exact Hd | exact Hr | exact Hf |].
    intros _. destruct vs as [|v' vs']; [reflexivity|].
    rewrite Hc by discriminate. reflexivity.
Qed.

(** From a counter at [c], the moving steps fire at the steps numbered
    [c], [c + keyRate], [c + 2 keyRate], ... (from 0). *)
Lemma run_moving (vs : list Vector.t) :
  forall (d : Directional.t) (k : nat) (v : Vector.t),
    Forall moving vs ->
    0 <= Directional.keyCounter d ->
    0 < Directional.keyRate d ->
    vs !! k = Some v ->
    snd (Directional.run d vs) !! k
    = Some (if (Directional.keyCounter d <=? Z.of_nat k)
               && ((Z.of_nat k - Directional.keyCounter d)
                   mod Directional.keyRate d =? 0)
            then [InvokeDir (Directional.fn d) (Directional.fireLabel v)]
            else []).
Proof.
  induction vs as [|v0 vs IH]; intros d k v Hmov Hc Hr Hk; [discriminate|].
  inversion Hmov as [|? ? Hv0 Hvs]; subst.
  rewrite run_cons, (stepWith_moving v0 d Hv0).
  destruct k as [|k].
  - injection Hk as ->. cbn [lookup list_lookup].
    destruct (Z.eqb_spec (Directional.keyCounter d) 0) as [E|E]; cbn [snd].
    + rewrite E. reflexivity.
    + replace (Directional.keyCounter d <=? Z.of_nat 0) with false
        by (symmetry; apply Z.leb_gt; lia).
      reflexivity.
  - cbn [lookup list_lookup] in Hk |- *.
    destruct (Z.eqb_spec (Directional.keyCounter d) 0) as [E|E]; cbn [fst snd].
    + rewrite lookup_cons, (IH _ k v Hvs) by (simpl; first [lia | exact Hk]).
      simpl. rewrite E. f_equal.
      set (R := Directional.keyRate d) in *.
      replace (Z.of_nat (S k) - 0) with (Z.of_nat k - (R - 1) + 1 * R) by lia.
      rewrite Z_mod_plus_full.
      replace (0 <=? Z.of_nat (S k)) with true by (symmetry; apply Z.leb_le; lia).
      destruct (Z.leb_spec (R - 1) (Z.of_nat k)) as [Hle|Hlt]; [reflexivity|].
      replace ((Z.of_nat k - (R - 1)) mod R =? 0) with false; [reflexivity|].
      symmetry. apply Z.eqb_neq. intros Hm.
      apply Z.mod_divide in Hm; [|lia]. destruct Hm as [q Hq].
      clearbody R.
      assert (Hq0 : q < 0) by nia.
      assert (Hq1 : q * R <= -1 * R) by (apply Z.mul_le_mono_nonneg_r; lia).
      lia.
    + rewrite lookup_cons, (IH _ k v Hvs) by (simpl; first [lia | exact Hk]).
      simpl.
      replace (Z.of_nat (S k) - Directional.keyCounter d)
        with (Z.of_nat k - (Directional.keyCounter d - 1)) by lia.
      replace (Directional.keyCounter d <=? Z.of_nat (S k))
        with (Directional.keyCounter d - 1 <=? Z.of_nat k); [reflexivity|].
      apply eq_true_iff_eq. rewrite !Z.leb_le. lia.
Qed.

Lemma stepWith_fields (v : Vector.t) (d : Directional.t) :
  Directional.keyDelay (fst (Directional.stepWith v d)) = Directional.keyDelay d
  /\ Directional.keyRate (fst (Directional.stepWith v d)) = Directional.keyRate d
  /\ Directional.fn (fst (Directional.stepWith v d)) = Directional.fn d.
Proof.
  unfold Directional.stepWith, Directional.step. simpl.
  destruct (Vector.getMagnitude v =? 0)%float; [repeat split|].
  destruct (Directional.keyCounter d =? 0); repeat split.
Qed.

Lemma run_fields (vs : list Vector.t) :
  forall d : Directional.t,
    Directional.keyDelay (fst (Directional.run d vs)) = Directional.keyDelay d
    /\ Directional.keyRate (fst (Directional.run d vs)) = Directional.keyRate d
    /\ Directional.fn (fst (Directional.run d vs)) = Directional.fn d.
Proof.
  induction vs as [|v vs IH]; intros d; [repeat split|].
  rewrite run_cons. cbn [fst].
  destruct (IH (fst (Directional.stepWith v d))) as (-> & -> & ->).
  apply stepWith_fields.
Qed.

Lemma schedule_20_5 (n : nat) :
  (20 <=? Z.of_nat n) && ((Z.of_nat n - 20) mod 5 =? 0)
  = ((21 <=? S n)%nat && ((S n - 21) mod 5 =? 0)%nat).
Proof.
  apply eq_true_iff_eq.
  rewrite !andb_true_iff, Z.leb_le, Z.eqb_eq, Nat.leb_le, Nat.eqb_eq.
  split; intros [Hle Hmod]; (split; [lia|]).
  - apply Nat2Z.inj. rewrite Nat2Z.inj_mod.
    replace (Z.of_nat (S n - 21)) with (Z.of_nat n - 20) by lia. exact Hmod.
  - apply (f_equal Z.of_nat) in Hmod. rewrite Nat2Z.inj_mod in Hmod.
    replace (Z.of_nat (S n - 21)) with (Z.of_nat n - 20) in Hmod by lia.
    exact Hmod.
Qed.

(** C3, as the code has it.  A directional with [keyDelay = 20] and
    [keyRate = 5] that is stepped at rest (intent of magnitude 0) at least
    once and then with an intent that is not 0: no step at rest fires and
    the counter stands at [keyDelay] after them; of the steps that follow,
    numbered from 1, exactly the steps 21, 26, 31, ... fire (the first 20
    are the delay), each with the label of its vector; and the first step
    at which the vector is back at magnitude 0 fires nothing and winds the
    counter up to [keyDelay] again. *)
Theorem key_repeat_schedule (d : Directional.t) (rest held : list Vector.t) :
  Directional.keyDelay d = 20 ->
  Directional.keyRate d = 5 ->
  rest <> [] ->
  Forall atRest rest ->
  Forall moving held ->
  let d1 := fst (Directional.run d rest) in
  let d2 := fst (Directional.run d1 held) in
  Forall (fun out => out = []) (snd (Directional.run d rest))
  /\ Directional.keyCounter d1 = Directional.keyDelay d
  /\ (forall (n : nat) (v : Vector.t),
        held !! n = Some v ->
        snd (Directional.run d1 held) !! n
        = Some (if (21 <=? S n)%nat && ((S n - 21) mod 5 =? 0)%nat
                then [InvokeDir (Directional.fn d) (Directional.fireLabel v)]
                else []))
  /\ (forall v : Vector.t,
        atRest v ->
        snd (Directional.stepWith v d2) = []
        /\ Directional.keyCounter (fst (Directional.stepWith v d2))
           = Directional.keyDelay d).
Proof.
  intros HD HR Hne Hrest Hheld d1 d2.
  destruct (run_atRest rest d Hrest) as (Hquiet & Hd1 & Hr1 & Hf1 & Hc1).
  specialize (Hc1 Hne). fold d1 in Hd1, Hr1, Hf1, Hc1.
  repeat split.
  - exact Hquiet.
  - exact Hc1.
  - intros n v Hn.
    rewrite (run_moving held d1 n v Hheld) by (first [exact Hn | lia]).
    rewrite Hc1, Hr1, Hf1, HD, HR, schedule_20_5. reflexivity.
  - rewrite (stepWith_atRest v d2 H). reflexivity.
  - rewrite (stepWith_atRest v d2 H). cbn [fst].
    change (Directional.keyDelay d2 = Directional.keyDelay d).
    destruct (run_fields held d1) as (Hd2 & _ & _). fold d2 in Hd2.
    rewrite Hd2. exact Hd1.
Qed.

(** The theorem at a directional held to the right for 26 steps. *)
Lemma key_repeat_schedule_witness :
  let d := Directional.new "w" "d" "s" "a" None None in
  let held := repeat (Vector.mk 1 0) 26 in
  let d1 := fst (Directional.run d [Vector.mk 0 0]) in
  Directional.keyCounter d1 = 20
  /\ snd (Directional.run d1 held) !! 20%nat = Some [InvokeDir noOp Label.right]
  /\ snd (Directional.run d1 held) !! 21%nat = Some []
  /\ snd (Directional.run d1 held) !! 25%nat = Some [InvokeDir noOp Label.right].
Proof.
  intros d held d1.
  assert (Hrest : Forall atRest [Vector.mk 0 0]) by (repeat constructor).
  assert (Hheld : Forall moving held) by (repeat constructor).
  destruct (key_repeat_schedule d [Vector.mk 0 0] held
              eq_refl eq_refl ltac:(discriminate) Hrest Hheld)
    as (_ & Hc & Hfire & _).
  split; [exact Hc|].
  split; [exact (Hfire 20%nat (Vector.mk 1 0) eq_refl)|].
  split; [exact (Hfire 21%nat (Vector.mk 1 0) eq_refl)|].
  exact (Hfire 25%nat (Vector.mk 1 0) eq_refl).
Defined.

(** A directional that has never been stepped at rest has its counter at
    0, and fires at the first step of an intent that is not 0. *)
Lemma fresh_directional_fires_at_once :
  snd (Directional.run (Directional.new "w" "d" "s" "a" None None)
         [Vector.mk 1 0; Vector.mk 1 0])
  = [[InvokeDir noOp Label.right]; []].
Proof. reflexivity. Qed.

(** C3, as the specification has it, fails: on the 20th step of an intent that is
    not 0 nothing fires; the first firing is on the 21st. *)
Lemma key_repeat_20th_step_silent :
  let d := Directional.new "w" "d" "s" "a" None None in
  let d1 := fst (Directional.run d [Vector.mk 0 0]) in
  let fired := snd (Directional.run d1 (repeat (Vector.mk 1 0) 30)) in
  Directional.keyDelay d = 20
  /\ Directional.keyRate d = 5
  /\ fired !! 19%nat = Some []
  /\ fired !! 20%nat = Some [InvokeDir noOp Label.right]
  /\ fired !! 24%nat = Some []
  /\ fired !! 25%nat = Some [InvokeDir noOp Label.right].
Proof. vm_compute. repeat split. Qed.

(** ** The buttons a step sees *)

(** C2.  The code at an input where it departs from the specification.  A
    button "jump" and a directional "move" share the key "w"; after the key goes
    down both the registered button and the up button of the directional
    have their [isPressed] edge set.  The step then calls [onPressed] once,
    for the registered button, and ages that button only: the
    directional's up button still has [isPressed] set and [wasDown] clear
    after the step.  (The other event of the step is the directional's own
    repeat callback.) *)
Theorem step_skips_directional_buttons :
  let s0 :=
    InputManager.registerButton "jump" "w" None
      (InputManager.registerDirectional "move" "w" "d" "s" "a" None None
         InputManager.new) in
  let s1 := fst (InputManager.keydownHandler "w" s0) in
  let pressed := Status.mk true false true false false in
  let aged := Status.mk true true false true false in
  InputManager.getAllButtons s1 = [Registered 1%nat]
  /\ Button.status <$> InputManager.readButton (Registered 1%nat) s1 = Some pressed
  /\ Button.status <$> InputManager.readButton (Side 0%nat Label.up) s1 = Some pressed
  /\ snd (InputManager.step [] s1) = [InvokeDir noOp Label.down; Invoke noOp]
  /\ Button.status
       <$> InputManager.readButton (Registered 1%nat) (fst (InputManager.step [] s1))
     = Some aged
  /\ Button.status
       <$> InputManager.readButton (Side 0%nat Label.up) (fst (InputManager.step [] s1))
     = Some pressed.
Proof. vm_compute. repeat split. Qed.

(** ** Menu mode *)

(** What [enterMenuMode()] leaves, whatever was registered before and
    whatever the configured inputs are: the three buttons and the
    directional are new objects, and "cancel" is made from [clickKey] and
    [clickGP], like "enter". *)
Lemma enterMenuMode_controls (s : InputManager.t) :
  let m := InputManager.menuNavigationInputs s in
  let r := InputManager.nextRef s in
  let s' := InputManager.enterMenuMode s in
  InputManager.directionals s' = [("navigation", r)]
  /\ InputManager.buttons s'
     = [("enter", S r); ("cancel", S (S r)); ("fullscreen", S (S (S r)))]
  /\ InputManager.directionalObjs s' !! r
     = Some (Directional.new
               (MenuNavigationInputs.up m) (MenuNavigationInputs.right m)
               (MenuNavigationInputs.down m) (MenuNavigationInputs.left m)
               (MenuNavigationInputs.hAxis m) (MenuNavigationInputs.vAxis m))
  /\ InputManager.buttonObjs s' !! S r
     = Some (Button.new (MenuNavigationInputs.clickKey m)
               (MenuNavigationInputs.clickGP m))
  /\ InputManager.buttonObjs s' !! S (S r)
     = Some (Button.new (MenuNavigationInputs.clickKey m)
               (MenuNavigationInputs.clickGP m))
  /\ InputManager.buttonObjs s' !! S (S (S r))
     = Some (Button.set_onPressed toggleFullScreen
               (Button.new (MenuNavigationInputs.fullscreenKey m)
                  (MenuNavigationInputs.fullscreenGP m))).
Proof.
  intros m r s'. subst s'. unfold InputManager.enterMenuMode. cbn.
  fold r. fold m.
  repeat split.
  - apply lookup_insert_eq.
  - rewrite lookup_alter_ne by lia.
    rewrite !lookup_insert_ne by lia. apply lookup_insert_eq.
  - rewrite lookup_alter_ne by lia.
    rewrite lookup_insert_ne by lia. apply lookup_insert_eq.
  - rewrite lookup_alter_eq, lookup_insert_eq. reflexivity.
Qed.

(** C8.  The code at an input where it departs from the specification:
    in menu mode entered from the manager as constructed (cancelKey "tab",
    cancelGP 3, clickKey "space", clickGP 4), the button "cancel" has the
    key "space" and the gamepad button 4.  The rest of the preset is as
    the specification has it, and nothing else is registered. *)
Theorem enterMenuMode_cancel_bound_to_click :
  let s :=
    InputManager.enterMenuMode
      (InputManager.registerButton "export" "x" None InputManager.new) in
  let m := InputManager.menuNavigationInputs s in
  let button name :=
    r ← JsMap.get (InputManager.buttons s) name; InputManager.buttonObjs s !! r in
  let directional name :=
    r ← JsMap.get (InputManager.directionals s) name;
    InputManager.directionalObjs s !! r in
  (MenuNavigationInputs.cancelKey m, MenuNavigationInputs.cancelGP m)
  = ("tab", Some 3)
  /\ button "cancel" = Some (Button.new "space" (Some 4))
  /\ button "enter" = Some (Button.new "space" (Some 4))
  /\ button "fullscreen"
     = Some (Button.set_onPressed toggleFullScreen (Button.new "f" (Some 8)))
  /\ directional "navigation"
     = Some (Directional.new "w" "d" "s" "a" (Some 0) (Some 1))
  /\ map fst (InputManager.buttons s) = ["enter"; "cancel"; "fullscreen"]
  /\ map fst (InputManager.directionals s) = ["navigation"].
Proof. vm_compute. repeat split. Qed.

(** ** What the handlers and the step leave alone *)

#[local] Instance sameControls_refl : Reflexive sameControls.
Proof. intros s. split; reflexivity. Qed.

#[local] Instance sameControls_trans : Transitive sameControls.
Proof.
  intros s1 s2 s3 [] []. split; try congruence;
    intros r; etransitivity; eauto.
Qed.

(** A loop whose body keeps a preorder keeps it. *)
Lemma fold_left_rel {A B : Type} (R : relation A) `{!Reflexive R, !Transitive R}
    (f : A -> B -> A) (l : list B) :
  (forall a b, R a (f a b)) -> forall a, R a (fold_left f l a).
Proof.
  intros Hf. induction l as [|b l IH]; intros a; simpl.
  - reflexivity.
  - transitivity (f a b); [apply Hf | apply IH].
Qed.

Lemma sameControls_set_usingKeyboard (b : bool) (s : InputManager.t) :
  sameControls s (InputManager.set_usingKeyboard b s).
Proof. split; reflexivity. Qed.

Lemma sameControls_alter_button (f : Button.t -> Button.t) (r : ref)
    (s : InputManager.t) :
  (forall b, buttonIdent (f b) = buttonIdent b) ->
  sameControls s (InputManager.modifyRegistered r f s).
Proof.
  intros Hf. split; try reflexivity. intros r'. simpl.
  rewrite lookup_alter. destruct (decide (r = r')) as [->|]; [|reflexivity].
  destruct (InputManager.buttonObjs s !! r'); simpl; [rewrite Hf|]; reflexivity.
Qed.

Lemma sameControls_alter_directional (f : Directional.t -> Directional.t)
    (r : ref) (s : InputManager.t) :
  (forall d, stickIdent (f d) = stickIdent d) ->
  sameControls s (InputManager.modifyDirectional r f s).
Proof.
  intros Hf. split; try reflexivity. intros r'. simpl.
  rewrite lookup_alter. destruct (decide (r = r')) as [->|]; [|reflexivity].
  destruct (InputManager.directionalObjs s !! r'); simpl; [rewrite Hf|]; reflexivity.
Qed.

Lemma sameControls_insert_button (b b' : Button.t) (r : ref)
    (s : InputManager.t) :
  InputManager.buttonObjs s !! r = Some b ->
  buttonIdent b' = buttonIdent b ->
  sameControls s
    (InputManager.set_buttonObjs (<[r := b']> (InputManager.buttonObjs s)) s).
Proof.
  intros Hr Hb. split; try reflexivity. intros r'. simpl.
  destruct (decide (r' = r)) as [->|Hne].
  - rewrite lookup_insert_eq, Hr. simpl. rewrite Hb. reflexivity.
  - rewrite lookup_insert_ne by congruence. reflexivity.
Qed.

Lemma sameControls_insert_directional (d d' : Directional.t) (r : ref)
    (s : InputManager.t) :
  InputManager.directionalObjs s !! r = Some d ->
  stickIdent d' = stickIdent d ->
  sameControls s
    (InputManager.set_directionalObjs
       (<[r := d']> (InputManager.directionalObjs s)) s).
Proof.
  intros Hr Hd. split; try reflexivity. intros r'. simpl.
  destruct (decide (r' = r)) as [->|Hne].
  - rewrite lookup_insert_eq, Hr. simpl. rewrite Hd. reflexivity.
  - rewrite lookup_insert_ne by congruence. reflexivity.
Qed.

(** ** Who has the controls *)

#[local] Instance pollKeeps_refl : Reflexive pollKeeps.
Proof. intros s. split; [reflexivity | auto]. Qed.

#[local] Instance pollKeeps_trans : Transitive pollKeeps.
Proof.
  intros s1 s2 s3 [H12 F12] [H23 F23]. split; [etransitivity; eauto | auto].
Qed.

Lemma pollKeeps_checkAxis (gamepad : Gamepad.t) (ai : option Z)
    (s : InputManager.t) :
  pollKeeps s (InputManager.checkAxis gamepad ai s).
Proof.
  unfold InputManager.checkAxis.
  destruct (InputManager.axisReading gamepad ai) as [reading|]; [|reflexivity].
  destruct (negb (reading =? 0)%float); [|reflexivity].
  split; [apply sameControls_set_usingKeyboard | reflexivity].
Qed.

Lemma pollKeeps_checkStick (gamepad : Gamepad.t) (s : InputManager.t) (r : ref) :
  pollKeeps s (InputManager.checkStick gamepad s r).
Proof.
  unfold InputManager.checkStick.
  destruct (InputManager.directionalObjs s !! r) as [dir|]; [|reflexivity].
  etransitivity; apply pollKeeps_checkAxis.
Qed.

Lemma pollKeeps_checkButton (gamepad : Gamepad.t) (s : InputManager.t) (r : ref) :
  pollKeeps s (InputManager.checkButton gamepad s r).
Proof.
  unfold InputManager.checkButton.
  destruct (InputManager.buttonObjs s !! r) as [but|]; [|reflexivity].
  destruct (InputManager.buttonReading gamepad (Button.gpButtonIndex but))
    as [[|]|]; try reflexivity.
  split; [apply sameControls_set_usingKeyboard | reflexivity].
Qed.

Lemma pollKeeps_readStick (gamepad : Gamepad.t) (s : InputManager.t) (r : ref) :
  pollKeeps s
    (InputManager.modifyDirectional r (InputManager.readStick gamepad) s).
Proof.
  split; [|auto]. apply sameControls_alter_directional. reflexivity.
Qed.

Lemma pollKeeps_readGamepadButton (gamepad : Gamepad.t) (s : InputManager.t)
    (r : ref) :
  pollKeeps s
    (InputManager.modifyRegistered r (InputManager.readGamepadButton gamepad) s).
Proof.
  split; [|auto]. apply sameControls_alter_button. intros b.
  unfold InputManager.readGamepadButton.
  destruct (InputManager.buttonReading gamepad (Button.gpButtonIndex b));
    reflexivity.
Qed.

Lemma pollKeeps_pollGamepad (gamepad : Gamepad.t) (s : InputManager.t) :
  pollKeeps s (InputManager.pollGamepad gamepad s).
Proof.
  assert (Hstick : forall l a, pollKeeps a (fold_left (InputManager.checkStick gamepad) l a))
    by (intros; apply fold_left_rel; [typeclasses eauto.. | apply pollKeeps_checkStick]).
  assert (Hbut : forall l a, pollKeeps a (fold_left (InputManager.checkButton gamepad) l a))
    by (intros; apply fold_left_rel; [typeclasses eauto.. | apply pollKeeps_checkButton]).
  assert (Hrs : forall l a,
             pollKeeps a
               (fold_left
                  (fun s r => InputManager.modifyDirectional r
                                (InputManager.readStick gamepad) s) l a))
    by (intros; apply fold_left_rel;
        [typeclasses eauto.. | intros; apply pollKeeps_readStick]).
  assert (Hrb : forall l a,
             pollKeeps a
               (fold_left
                  (fun s r => InputManager.modifyRegistered r
                                (InputManager.readGamepadButton gamepad) s) l a))
    by (intros; apply fold_left_rel;
        [typeclasses eauto.. | intros; apply pollKeeps_readGamepadButton]).
  unfold InputManager.pollGamepad. cbv zeta.
  match goal with |- context [negb ?b] => destruct (negb b) end.
  - repeat (etransitivity; [|first [apply Hrb | apply Hrs | apply Hbut | apply Hstick]]).
    reflexivity.
  - etransitivity; [apply Hstick | apply Hbut].
Qed.

Lemma pollKeeps_getGamepadInput (gamepads : list (option Gamepad.t))
    (s : InputManager.t) :
  pollKeeps s (InputManager.getGamepadInput gamepads s).
Proof.
  unfold InputManager.getGamepadInput.
  apply fold_left_rel; [typeclasses eauto.. |].
  intros a [gamepad|]; [|reflexivity].
  destruct (Gamepad.connected gamepad);
    [apply pollKeeps_pollGamepad | reflexivity].
Qed.

(** A number that compares equal to itself when it is not [NaN]. *)
Lemma SFeqb_refl (f : SpecFloat.spec_float) :
  f <> SpecFloat.S754_nan -> SpecFloat.SFeqb f f = true.
Proof.
  destruct f as [[|]|[|]| |[|] m e]; intros Hnan;
    try reflexivity; try congruence;
    unfold SpecFloat.SFeqb, SpecFloat.SFcompare;
    rewrite Z.compare_refl, Pos.compare_cont_refl; reflexivity.
Qed.

(** A reading over the dead zone is a number other than [0] and [NaN]: it
    passes the truthiness test and the dead zone guard as it is. *)
Lemma over_deadZone (a : float) :
  (InputManager.deadZone <? abs a)%float = true ->
  truthy a = true
  /\ InputManager.deadZoneGuard a = a
  /\ (a =? 0)%float = false.
Proof.
  intros H. unfold truthy, InputManager.deadZoneGuard. rewrite H.
  rewrite FloatAxioms.ltb_spec, FloatAxioms.abs_spec in H.
  rewrite !FloatAxioms.eqb_spec.
  assert (Hz : SpecFloat.SFeqb (Prim2SF a) (Prim2SF 0) = false).
  { destruct (Prim2SF a) as [[|]|[|]| |[|] m e];
      first [reflexivity | vm_compute in H; discriminate]. }
  rewrite Hz, SFeqb_refl; [repeat split|].
  intros Hnan. rewrite Hnan in H. vm_compute in H. discriminate.
Qed.

Lemma axisReading_over_deadZone (gamepad : Gamepad.t) (i : Z) (a : float) :
  index (Gamepad.axes gamepad) i = Some a ->
  (InputManager.deadZone <? abs a)%float = true ->
  InputManager.axisReading gamepad (Some i) = Some a /\ (a =? 0)%float = false.
Proof.
  intros Hi Ha. destruct (over_deadZone a Ha) as (Ht & Hg & Hz).
  unfold InputManager.axisReading. rewrite Hi, Ht, Hg. split; [reflexivity | exact Hz].
Qed.

Lemma checkAxis_over_deadZone (gamepad : Gamepad.t) (i : Z) (a : float)
    (s : InputManager.t) :
  index (Gamepad.axes gamepad) i = Some a ->
  (InputManager.deadZone <? abs a)%float = true ->
  InputManager.usingKeyboard (InputManager.checkAxis gamepad (Some i) s) = false.
Proof.
  intros Hi Ha. destruct (axisReading_over_deadZone gamepad i a Hi Ha) as [Hr Hz].
  unfold InputManager.checkAxis. rewrite Hr, Hz. reflexivity.
Qed.

(** A loop that keeps [pollKeeps] and whose body hands the controls over
    at one element, whatever came before, hands them over. *)
Lemma fold_left_hands_over (f : InputManager.t -> ref -> InputManager.t)
    (rs : list ref) (r : ref) (s : InputManager.t) :
  (forall a b, pollKeeps a (f a b)) ->
  r ∈ rs ->
  (forall a, pollKeeps s a -> InputManager.usingKeyboard (f a r) = false) ->
  InputManager.usingKeyboard (fold_left f rs s) = false.
Proof.
  intros Hf Hin Hr. revert s Hr.
  induction rs as [|r0 rs IH]; intros s Hr; [inversion Hin|].
  simpl. apply elem_of_cons in Hin as [<- | Hin].
  - assert (Hk : pollKeeps (f s r) (fold_left f rs (f s r)))
      by (apply fold_left_rel; [typeclasses eauto.. | exact Hf]).
    apply Hk, Hr. reflexivity.
  - apply IH; [exact Hin|]. intros a Ha. apply Hr.
    etransitivity; [apply Hf | exact Ha].
Qed.

Lemma sameControls_directional (s s' : InputManager.t) (r : ref)
    (dir : Directional.t) :
  sameControls s s' ->
  InputManager.directionalObjs s !! r = Some dir ->
  exists dir', InputManager.directionalObjs s' !! r = Some dir'
               /\ Directional.hAxisIndex dir' = Directional.hAxisIndex dir
               /\ Directional.vAxisIndex dir' = Directional.vAxisIndex dir.
Proof.
  intros Hs Hr. pose proof (same_stickIdent _ _ Hs r) as H. rewrite Hr in H.
  destruct (InputManager.directionalObjs s' !! r) as [dir'|]; [|discriminate].
  injection H as H1 H2. eauto.
Qed.

Lemma sameControls_button (s s' : InputManager.t) (r : ref) (but : Button.t) :
  sameControls s s' ->
  InputManager.buttonObjs s !! r = Some but ->
  exists but', InputManager.buttonObjs s' !! r = Some but'
               /\ Button.key but' = Button.key but
               /\ Button.gpButtonIndex but' = Button.gpButtonIndex but.
Proof.
  intros Hs Hr. pose proof (same_buttonIdent _ _ Hs r) as H. rewrite Hr in H.
  destruct (InputManager.buttonObjs s' !! r) as [but'|]; [|discriminate].
  injection H as H1 H2. eauto.
Qed.

Lemma stickOverDeadZone_stable (gamepad : Gamepad.t) (s s' : InputManager.t) :
  sameControls s s' -> stickOverDeadZone gamepad s -> stickOverDeadZone gamepad s'.
Proof.
  intros Hs (r & dir & i & a & Hin & Hr & Hax & Hi & Ha).
  destruct (sameControls_directional s s' r dir Hs Hr) as (dir' & Hr' & Hh & Hv).
  exists r, dir', i, a. rewrite (same_directionals _ _ Hs), Hh, Hv. auto.
Qed.

Lemma gamepadButtonActive_stable (gamepad : Gamepad.t) (s s' : InputManager.t) :
  sameControls s s' ->
  gamepadButtonActive gamepad s -> gamepadButtonActive gamepad s'.
Proof.
  intros Hs (r & but & i & gb & Hin & Hr & Hgp & Hi & Ha).
  destruct (sameControls_button s s' r but Hs Hr) as (but' & Hr' & _ & Hg).
  exists r, but', i, gb. rewrite (same_buttons _ _ Hs), Hg. auto.
Qed.

Lemma checkStick_hands_over (gamepad : Gamepad.t) (s : InputManager.t)
    (r : ref) (dir : Directional.t) (i : Z) (a : float) :
  InputManager.directionalObjs s !! r = Some dir ->
  Directional.hAxisIndex dir = Some i \/ Directional.vAxisIndex dir = Some i ->
  index (Gamepad.axes gamepad) i = Some a ->
  (InputManager.deadZone <? abs a)%float = true ->
  InputManager.usingKeyboard (InputManager.checkStick gamepad s r) = false.
Proof.
  intros Hr [Hax|Hax] Hi Ha; unfold InputManager.checkStick; rewrite Hr, Hax.
  - apply pollKeeps_checkAxis. eapply checkAxis_over_deadZone; eauto.
  - eapply checkAxis_over_deadZone; eauto.
Qed.

Lemma checkButton_hands_over (gamepad : Gamepad.t) (s : InputManager.t)
    (r : ref) (but : Button.t) (i : Z) (gb : GamepadButton.t) :
  InputManager.buttonObjs s !! r = Some but ->
  Button.gpButtonIndex but = Some i ->
  index (Gamepad.buttons gamepad) i = Some gb ->
  (0 <? GamepadButton.value gb)%float || GamepadButton.pressed gb = true ->
  InputManager.usingKeyboard (InputManager.checkButton gamepad s r) = false.
Proof.
  intros Hr Hgp Hi Ha. unfold InputManager.checkButton, InputManager.buttonReading.
  rewrite Hr, Hgp, Hi, Ha. reflexivity.
Qed.

Lemma pollKeeps_fold (f : InputManager.t -> ref -> InputManager.t) :
  (forall a b, pollKeeps a (f a b)) ->
  forall l a, pollKeeps a (fold_left f l a).
Proof. intros Hf l. apply fold_left_rel; [typeclasses eauto.. | exact Hf]. Qed.

Lemma pollGamepad_hands_over (gamepad : Gamepad.t) (s : InputManager.t) :
  stickOverDeadZone gamepad s \/ gamepadButtonActive gamepad s ->
  InputManager.usingKeyboard (InputManager.pollGamepad gamepad s) = false.
Proof.
  intros Hactive.
  pose proof (pollKeeps_pollGamepad gamepad s) as Hkeeps.
  unfold InputManager.pollGamepad in *. cbv zeta in *.
  set (s1 := fold_left (InputManager.checkStick gamepad)
               (JsMap.values (InputManager.directionals s)) s) in *.
  set (s2 := fold_left (InputManager.checkButton gamepad)
               (JsMap.values (InputManager.buttons s1)) s1) in *.
  assert (H1 : pollKeeps s s1)
    by (apply pollKeeps_fold, pollKeeps_checkStick).
  assert (H2 : pollKeeps s1 s2)
    by (apply pollKeeps_fold, pollKeeps_checkButton).
  assert (Hoff : InputManager.usingKeyboard s2 = false).
  { destruct Hactive as [(r & dir & i & a & Hin & Hr & Hax & Hi & Ha)
                        |(r & but & i & gb & Hin & Hr & Hgp & Hi & Ha)].
    - apply H2. apply (fold_left_hands_over _ _ r);
        [apply pollKeeps_checkStick | exact Hin |].
      intros s' [Hs' _].
      destruct (sameControls_directional s s' r dir Hs' Hr) as (dir' & Hr' & Hh & Hv).
      apply (checkStick_hands_over gamepad s' r dir' i a); congruence.
    - apply (fold_left_hands_over _ _ r); [apply pollKeeps_checkButton | |].
      + rewrite (same_buttons _ _ (proj1 H1)). exact Hin.
      + intros s' [Hs' _].
        assert (Hss' : sameControls s s') by (etransitivity; [apply H1 | exact Hs']).
        destruct (sameControls_button s s' r but Hss' Hr) as (but' & Hr' & _ & Hg).
        apply (checkButton_hands_over gamepad s' r but' i gb); congruence. }
  rewrite Hoff in *. simpl in *.
  assert (H12 : pollKeeps s s2) by (etransitivity; eauto).
  destruct H12 as [H12s H12f]. destruct Hkeeps as [Hks Hkf].
  set (s4 := fold_left _ _ (fold_left _ _ s2)) in *.
  assert (H24 : pollKeeps s2 s4).
  { unfold s4. etransitivity.
    - apply pollKeeps_fold. intros; apply pollKeeps_readStick.
    - apply pollKeeps_fold. intros; apply pollKeeps_readGamepadButton. }
  apply H24, Hoff.
Qed.

Lemma getGamepadInput_hands_over (gamepads : list (option Gamepad.t))
    (gamepad : Gamepad.t) :
  forall s : InputManager.t,
    Some gamepad ∈ gamepads ->
    Gamepad.connected gamepad = true ->
    stickOverDeadZone gamepad s \/ gamepadButtonActive gamepad s ->
    InputManager.usingKeyboard (InputManager.getGamepadInput gamepads s) = false.
Proof.
  induction gamepads as [|entry gamepads IH]; intros s Hin Hconn Hactive;
    [inversion Hin|].
  unfold InputManager.getGamepadInput. simpl.
  fold (InputManager.getGamepadInput gamepads).
  apply elem_of_cons in Hin as [<- | Hin].
  - rewrite Hconn. apply pollKeeps_getGamepadInput.
    apply pollGamepad_hands_over, Hactive.
  - apply IH; [exact Hin | exact Hconn |].
    assert (Hk : sameControls s
                   match entry with
                   | Some g => if Gamepad.connected g
                               then InputManager.pollGamepad g s else s
                   | None => s
                   end).
    { destruct entry as [g|]; [|reflexivity].
      destruct (Gamepad.connected g); [apply pollKeeps_pollGamepad | reflexivity]. }
    destruct Hactive as [H|H];
      [left; eapply stickOverDeadZone_stable | right; eapply gamepadButtonActive_stable];
      eauto.
Qed.

#[local] Instance keyKeeps_refl {A : Type} : Reflexive (@keyKeeps A).
Proof. intros a. split; reflexivity. Qed.

#[local] Instance keyKeeps_trans {A : Type} : Transitive (@keyKeeps A).
Proof.
  intros a1 a2 a3 [H12 F12] [H23 F23].
  split; [etransitivity; eauto | congruence].
Qed.

Lemma keyKeeps_fold {A : Type}
    (f : InputManager.t * A -> ref -> InputManager.t * A) :
  (forall a b, keyKeeps a (f a b)) ->
  forall l a, keyKeeps a (fold_left f l a).
Proof. intros Hf l. apply fold_left_rel; [typeclasses eauto.. | exact Hf]. Qed.

Lemma keyDirectional_stickIdent (act : Button.t -> Button.t) (key : string)
    (dir : Directional.t) :
  stickIdent (fst (InputManager.keyDirectional act key dir)) = stickIdent dir.
Proof.
  unfold InputManager.keyDirectional, Directional.sides. cbn [fold_left].
  unfold InputManager.keySide.
  repeat match goal with
         | |- context [String.eqb ?a ?b] => destruct (String.eqb a b)
         end; reflexivity.
Qed.

Lemma keyKeeps_keySticks (act : Button.t -> Button.t) (key : string)
    (acc : InputManager.t * list Event) (r : ref) :
  keyKeeps acc (InputManager.keySticks act key acc r).
Proof.
  destruct acc as [s out]. unfold InputManager.keySticks.
  destruct (InputManager.directionalObjs s !! r) as [dir|] eqn:Hr; [|reflexivity].
  pose proof (keyDirectional_stickIdent act key dir) as Hid.
  destruct (InputManager.keyDirectional act key dir) as [dir' out'].
  split; [|reflexivity].
  apply (sameControls_insert_directional dir dir' r s Hr Hid).
Qed.

Lemma keyKeeps_keyButtons (act : Button.t -> Button.t) (key : string)
    (acc : InputManager.t * list Event) (r : ref) :
  (forall b, buttonIdent (act b) = buttonIdent b) ->
  keyKeeps acc (InputManager.keyButtons act key acc r).
Proof.
  intros Hact. destruct acc as [s out]. unfold InputManager.keyButtons.
  destruct (InputManager.buttonObjs s !! r) as [but|] eqn:Hr; [|reflexivity].
  destruct (String.eqb key (Button.key but)); [|reflexivity].
  split; [|reflexivity].
  apply (sameControls_insert_button but (act but) r s Hr (Hact but)).
Qed.

(** A key handler keeps the controls and leaves [usingKeyboard] true. *)
Lemma keyHandler_keeps (act : Button.t -> Button.t) (key : string)
    (s : InputManager.t) :
  (forall b, buttonIdent (act b) = buttonIdent b) ->
  sameControls s (fst (InputManager.keyHandler act key s))
  /\ InputManager.usingKeyboard (fst (InputManager.keyHandler act key s)) = true.
Proof.
  intros Hact. unfold InputManager.keyHandler. cbv zeta.
  set (s0 := InputManager.set_usingKeyboard true s).
  set (acc := fold_left (InputManager.keySticks act key) _ (s0, [])).
  assert (H1 : keyKeeps (s0, []) acc)
    by (apply keyKeeps_fold; intros; apply keyKeeps_keySticks).
  assert (H2 : keyKeeps acc
                 (fold_left (InputManager.keyButtons act key)
                    (JsMap.values (InputManager.buttons (fst acc))) acc))
    by (apply keyKeeps_fold; intros; apply keyKeeps_keyButtons, Hact).
  destruct (keyKeeps_trans _ _ _ H1 H2) as [Hs Hf]. split.
  - etransitivity; [apply (sameControls_set_usingKeyboard true s) | exact Hs].
  - rewrite Hf. reflexivity.
Qed.

Lemma down_buttonIdent (b : Button.t) : buttonIdent (Button.down b) = buttonIdent b.
Proof. reflexivity. Qed.

Lemma up_buttonIdent (b : Button.t) : buttonIdent (Button.up b) = buttonIdent b.
Proof. reflexivity. Qed.

(** C4, as the code has it.  After the keydown and the keyup handler
    [usingKeyboard] is true.  The mousedown, mouseup and mousemove handlers
    call the mouse function that is set and change nothing, [usingKeyboard]
    included.  A gamepad poll in which a connected gamepad has a watched
    axis over the dead zone, or a watched button with a value over 0 or
    pressed, leaves [usingKeyboard] false. *)
Theorem usingKeyboard_arbitration :
  (forall (key : string) (s : InputManager.t),
     InputManager.usingKeyboard (fst (InputManager.keydownHandler key s)) = true
     /\ InputManager.usingKeyboard (fst (InputManager.keyupHandler key s)) = true)
  /\ (forall (e : MouseEvent.t) (s : InputManager.t),
        InputManager.mousedownHandler e s
        = (s, [InvokeMouse (MouseFunctions.down (InputManager.mouseFunctions s)) e])
        /\ InputManager.mouseupHandler e s
           = (s, [InvokeMouse (MouseFunctions.up (InputManager.mouseFunctions s)) e])
        /\ InputManager.mousemoveHandler e s
           = (s, [InvokeMouse (MouseFunctions.move (InputManager.mouseFunctions s)) e]))
  /\ (forall (gamepads : list (option Gamepad.t)) (gamepad : Gamepad.t)
             (s : InputManager.t),
        Some gamepad ∈ gamepads ->
        Gamepad.connected gamepad = true ->
        stickOverDeadZone gamepad s \/ gamepadButtonActive gamepad s ->
        InputManager.usingKeyboard (InputManager.getGamepadInput gamepads s)
        = false).
Proof.
  split; [|split].
  - intros key s. split.
    + apply (keyHandler_keeps Button.down key s down_buttonIdent).
    + apply (keyHandler_keeps Button.up key s up_buttonIdent).
  - intros e s. repeat split.
  - intros gamepads gamepad s. apply getGamepadInput_hands_over.
Qed.

(** The theorem at a manager in menu mode that has the keyboard, polled
    with a gamepad whose stick is pushed right and with one whose button 4
    is pressed. *)
Lemma usingKeyboard_arbitration_witness :
  let s :=
    fst (InputManager.keyupHandler "x"
           (InputManager.enterMenuMode InputManager.new)) in
  let stick := Gamepad.mk true [0.5%float; 0%float] [] in
  let pad :=
    Gamepad.mk true []
      (repeat (GamepadButton.mk 0 false) 4 ++ [GamepadButton.mk 1 true]) in
  InputManager.usingKeyboard s = true
  /\ InputManager.usingKeyboard (InputManager.getGamepadInput [None; Some stick] s)
     = false
  /\ InputManager.usingKeyboard (InputManager.getGamepadInput [Some pad] s)
     = false.
Proof.
  intros s stick pad.
  destruct usingKeyboard_arbitration as (Hkey & _ & Hpoll).
  split; [apply Hkey|]. split.
  - apply (Hpoll [None; Some stick] stick s);
      [apply list_elem_of_further, list_elem_of_here | reflexivity |].
    left. exists 0%nat, (Directional.new "w" "d" "s" "a" (Some 0) (Some 1)).
    exists 0, 0.5%float.
    split; [apply list_elem_of_here|]. split; [reflexivity|].
    split; [left; reflexivity|]. split; reflexivity.
  - apply (Hpoll [Some pad] pad s); [apply list_elem_of_here | reflexivity |].
    right. exists 1%nat, (Button.new "space" (Some 4)), 4, (GamepadButton.mk 1 true).
    split; [apply list_elem_of_here|].
    repeat (split; [reflexivity|]). reflexivity.
Defined.

(** C4, as the specification has it, fails: after a gamepad has taken the controls
    ([usingKeyboard] false), the mouse handlers leave [usingKeyboard]
    false. *)
Lemma mouse_leaves_usingKeyboard_false :
  let e := MouseEvent.mk 10 20 0 false in
  let s := fst (InputManager.gamepadconnectHandler InputManager.new) in
  InputManager.usingKeyboard s = false
  /\ InputManager.usingKeyboard (fst (InputManager.mousedownHandler e s)) = false
  /\ InputManager.usingKeyboard (fst (InputManager.mouseupHandler e s)) = false
  /\ InputManager.usingKeyboard (fst (InputManager.mousemoveHandler e s)) = false.
Proof. repeat split. Qed.

(** ** Maps in insertion order *)

Lemma String_eqb_false (k k' : string) : k <> k' -> String.eqb k k' = false.
Proof. intros H. apply String.eqb_neq, H. Qed.

Lemma JsMap_set_fresh {V : Type} (m : JsMap.t V) (k : string) (v : V) :
  k ∉ map fst m -> JsMap.set m k v = m ++ [(k, v)].
Proof.
  induction m as [|[k' v'] m IH]; simpl; intros Hk; [reflexivity|].
  rewrite not_elem_of_cons in Hk. destruct Hk as [Hne Hk].
  rewrite (String_eqb_false k k' Hne), (IH Hk). reflexivity.
Qed.

Lemma JsMap_copyInto_app {V : Type} (m : JsMap.t V) :
  forall out : JsMap.t V,
    NoDup (map fst out ++ map fst m) -> JsMap.copyInto m out = out ++ m.
Proof.
  unfold JsMap.copyInto.
  induction m as [|[k v] m IH]; intros out Hnd; simpl.
  - rewrite app_nil_r. reflexivity.
  - simpl in Hnd. apply NoDup_app in Hnd as (Hout & Hdisj & Hm).
    apply NoDup_cons in Hm as [Hk Hm].
    assert (Hfresh : k ∉ map fst out).
    { intros Hin. apply (Hdisj k Hin), list_elem_of_here. }
    rewrite (JsMap_set_fresh out k v Hfresh), IH.
    + rewrite <- app_assoc. reflexivity.
    + rewrite map_app. simpl. rewrite <- app_assoc. simpl.
      apply NoDup_app. split; [exact Hout|]. split.
      * intros k' Hin Hin'. exact (Hdisj k' Hin Hin').
      * apply NoDup_cons. split; assumption.
Qed.

(** Copying a map entry by entry into a new one gives the same entries in
    the same order. *)
Lemma JsMap_copy {V : Type} (m : JsMap.t V) :
  JsMap.wf m -> JsMap.copyInto m [] = m.
Proof. intros Hwf. apply (JsMap_copyInto_app m []). exact Hwf. Qed.

Lemma JsMap_set_keys {V : Type} (m : JsMap.t V) (k : string) (v : V) :
  map fst (JsMap.set m k v)
  = if bool_decide (k ∈ map fst m) then map fst m else map fst m ++ [k].
Proof.
  induction m as [|[k' v'] m IH]; simpl; [reflexivity|].
  destruct (String.eqb_spec k k') as [->|Hne].
  - rewrite bool_decide_eq_true_2 by apply list_elem_of_here. reflexivity.
  - simpl. rewrite IH.
    rewrite (bool_decide_ext (k ∈ k' :: map fst m) (k ∈ map fst m))
      by (rewrite elem_of_cons; tauto).
    destruct (bool_decide (k ∈ map fst m)); reflexivity.
Qed.

Lemma JsMap_set_wf {V : Type} (m : JsMap.t V) (k : string) (v : V) :
  JsMap.wf m -> JsMap.wf (JsMap.set m k v).
Proof.
  unfold JsMap.wf. intros Hwf. rewrite JsMap_set_keys.
  destruct (bool_decide_reflect (k ∈ map fst m)) as [Hin|Hin]; [exact Hwf|].
  apply NoDup_app. split; [exact Hwf|]. split; [|apply NoDup_singleton].
  intros k' Hk' Hk''. apply list_elem_of_singleton in Hk''. subst. contradiction.
Qed.

Lemma JsMap_delete_wf {V : Type} (m : JsMap.t V) (k : string) :
  JsMap.wf m -> JsMap.wf (JsMap.delete m k).
Proof.
  unfold JsMap.wf. induction m as [|[k' v'] m IH]; simpl; intros Hwf; [exact Hwf|].
  apply NoDup_cons in Hwf as [Hk' Hwf].
  destruct (String.eqb k k'); [exact Hwf|].
  simpl. apply NoDup_cons. split; [|apply IH, Hwf].
  intros Hin. apply Hk'. clear - Hin.
  induction m as [|[k0 v0] m IH]; simpl in *; [exact Hin|].
  destruct (String.eqb k k0); [apply list_elem_of_further, Hin|].
  simpl in Hin. apply elem_of_cons in Hin as [->|Hin];
    [apply list_elem_of_here | apply list_elem_of_further, IH, Hin].
Qed.

(** ** Between a save and a restore *)

#[local] Instance keeps_refl : Reflexive keeps.
Proof. intros s. split; auto. Qed.

#[local] Instance keeps_trans : Transitive keeps.
Proof.
  intros s1 s2 s3 H12 H23. destruct H12, H23. split; auto.
  - congruence.
  - lia.
  - intros r Hr. etransitivity; [apply keeps_buttonIdent1; lia | auto].
  - intros r Hr. etransitivity; [apply keeps_stickIdent1; lia | auto].
Qed.

Lemma sameControls_keeps (s s' : InputManager.t) : sameControls s s' -> keeps s s'.
Proof.
  intros []. split; try congruence; auto.
  - lia.
  - intros Hwf r Hr. rewrite same_nextRef0 in Hr. destruct (Hwf r Hr) as [Hb Hd].
    pose proof (same_buttonIdent0 r) as Hb'. pose proof (same_stickIdent0 r) as Hd'.
    rewrite Hb in Hb'. rewrite Hd in Hd'.
    apply fmap_None in Hb'. apply fmap_None in Hd'. auto.
Qed.

Lemma keeps_registerButton (name key : string) (gp : option Z)
    (s : InputManager.t) :
  keeps s (InputManager.registerButton name key gp s).
Proof.
  split; simpl; auto.
  - intros r Hr. rewrite lookup_insert_ne by lia. reflexivity.
  - intros Hwf r Hr. simpl in *.
    assert (Hle : (InputManager.nextRef s <= r)%nat) by lia.
    destruct (Hwf r Hle) as [Hb Hd].
    rewrite lookup_insert_ne by lia. auto.
  - apply JsMap_set_wf.
Qed.

Lemma keeps_registerDirectional (name u r0 d l : string) (h v : option Z)
    (s : InputManager.t) :
  keeps s (InputManager.registerDirectional name u r0 d l h v s).
Proof.
  split; simpl; auto.
  - intros r Hr. rewrite lookup_insert_ne by lia. reflexivity.
  - intros Hwf r Hr. simpl in *.
    assert (Hle : (InputManager.nextRef s <= r)%nat) by lia.
    destruct (Hwf r Hle) as [Hb Hd].
    rewrite lookup_insert_ne by lia. auto.
  - apply JsMap_set_wf.
Qed.

Lemma keeps_unregisterButton (name : string) (s : InputManager.t) :
  keeps s (InputManager.unregisterButton name s).
Proof. split; simpl; auto. apply JsMap_delete_wf. Qed.

Lemma keeps_unregisterAll (s : InputManager.t) :
  keeps s (InputManager.unregisterAll s).
Proof. split; simpl; auto; intros _; apply NoDup_nil_2. Qed.

Lemma sameControls_fold {B : Type} (f : InputManager.t -> B -> InputManager.t) :
  (forall a b, sameControls a (f a b)) ->
  forall l a, sameControls a (fold_left f l a).
Proof. intros Hf l. apply fold_left_rel; [typeclasses eauto.. | exact Hf]. Qed.

Lemma sameControls_setOnPressed (name : string) (handler : option Callback)
    (s : InputManager.t) :
  sameControls s (fst (InputManager.setOnPressed name handler s)).
Proof.
  unfold InputManager.setOnPressed.
  destruct (JsMap.get (InputManager.buttons s) name); [|reflexivity].
  apply sameControls_alter_button. reflexivity.
Qed.

Lemma sameControls_setOnReleased (name : string) (handler : option Callback)
    (s : InputManager.t) :
  sameControls s (fst (InputManager.setOnReleased name handler s)).
Proof.
  unfold InputManager.setOnReleased.
  destruct (JsMap.get (InputManager.buttons s) name); [|reflexivity].
  apply sameControls_alter_button. reflexivity.
Qed.

Lemma sameControls_setDirectionalFunction (label : string) (handler : Callback)
    (s : InputManager.t) :
  sameControls s (InputManager.setDirectionalFunction label handler s).
Proof.
  unfold InputManager.setDirectionalFunction.
  destruct (JsMap.get (InputManager.directionals s) label); [|reflexivity].
  apply sameControls_alter_directional. reflexivity.
Qed.

Lemma step_stickIdent (d : Directional.t) :
  stickIdent (fst (Directional.step d)) = stickIdent d.
Proof.
  unfold Directional.step.
  destruct (Vector.getMagnitude (Directional.vec d) =? 0)%float; [reflexivity|].
  destruct (Directional.keyCounter d =? 0); reflexivity.
Qed.

Lemma keyKeeps_stepDirectional (acc : InputManager.t * list Event) (r : ref) :
  keyKeeps acc (InputManager.stepDirectional acc r).
Proof.
  destruct acc as [s out]. unfold InputManager.stepDirectional.
  destruct (InputManager.directionalObjs s !! r) as [dir|] eqn:Hr; [|reflexivity].
  pose proof (step_stickIdent dir) as Hid.
  destruct (Directional.step dir) as [dir' out'].
  split; [|reflexivity].
  apply (sameControls_insert_directional dir dir' r s Hr Hid).
Qed.

Lemma sameControls_modifyButton (h : ButtonRef) (f : Button.t -> Button.t)
    (s : InputManager.t) :
  (forall b, buttonIdent (f b) = buttonIdent b) ->
  sameControls s (InputManager.modifyButton h f s).
Proof.
  intros Hf. destruct h as [r | d side]; simpl.
  - apply sameControls_alter_button, Hf.
  - apply sameControls_alter_directional. intros dir. destruct side; reflexivity.
Qed.

Lemma sameControls_ageButtons (s : InputManager.t) :
  sameControls s (InputManager.ageButtons s).
Proof.
  unfold InputManager.ageButtons. apply sameControls_fold.
  intros a h. apply sameControls_modifyButton. reflexivity.
Qed.

Lemma sameControls_step (gamepads : list (option Gamepad.t)) (s : InputManager.t) :
  sameControls s (fst (InputManager.step gamepads s)).
Proof.
  unfold InputManager.step.
  pose proof (keyKeeps_fold InputManager.stepDirectional keyKeeps_stepDirectional
                (JsMap.values (InputManager.directionals s)) (s, [])) as [H1 _].
  destruct (fold_left InputManager.stepDirectional _ (s, [])) as [s1 out].
  cbn [fst] in *.
  etransitivity; [exact H1|].
  etransitivity; [apply pollKeeps_getGamepadInput | apply sameControls_ageButtons].
Qed.

(** Every operation keeps the snapshot and the objects. *)
Lemma perform_keeps (op : Op) (s : InputManager.t) : keeps s (perform op s).
Proof.
  destruct op; simpl;
    try (apply sameControls_keeps;
         first [ apply sameControls_setOnPressed
               | apply sameControls_setOnReleased
               | apply sameControls_setDirectionalFunction
               | apply sameControls_step
               | apply (keyHandler_keeps Button.down), down_buttonIdent
               | apply (keyHandler_keeps Button.up), up_buttonIdent
               | split; reflexivity ]).
  - apply keeps_registerButton.
  - apply keeps_unregisterButton.
  - apply keeps_registerDirectional.
  - apply keeps_unregisterAll.
  - unfold InputManager.enterMenuMode.
    repeat (etransitivity;
            [|first [ apply sameControls_keeps, sameControls_setOnPressed
                    | apply keeps_registerButton
                    | apply keeps_registerDirectional ]]).
    apply keeps_unregisterAll.
  - etransitivity; [apply keeps_unregisterAll|].
    apply sameControls_keeps, sameControls_set_usingKeyboard.
Qed.

Lemma performAll_keeps (ops : list Op) (s : InputManager.t) :
  keeps s (performAll ops s).
Proof.
  unfold performAll. apply fold_left_rel; [typeclasses eauto.. |].
  intros a op. apply perform_keeps.
Qed.

Lemma storeWf_new : storeWf InputManager.new.
Proof. intros r _. split; apply lookup_empty. Qed.

(** A restore with no snapshot changes nothing (it logs a diagnostic). *)
Lemma restore_without_snapshot (s : InputManager.t) :
  InputManager.savedControls s = None ->
  InputManager.restore s
  = (s, [ConsoleLog "IM: Tried to restore undefined controls"]).
Proof. intros H. unfold InputManager.restore. rewrite H. reflexivity. Qed.

(** C5.  [save()], then any registrations, unregistrations, events and
    steps, then [restore()]: the two maps are the ones of the time of the
    save, entry by entry with the same references, while the objects are
    what the interval left of them (the restore does not touch the store);
    every object that was registered at the save is still there under its
    name, with its key and gamepad indices; and no snapshot is left.  A
    [restore()] with no snapshot leaves the manager, so both maps, as it
    was. *)
Theorem save_restore_same_objects (s : InputManager.t) (ops : list Op) :
  JsMap.wf (InputManager.buttons s) ->
  JsMap.wf (InputManager.directionals s) ->
  storeWf s ->
  let mutated := performAll ops (fst (InputManager.save s)) in
  let restored := fst (InputManager.restore mutated) in
  InputManager.buttons restored = InputManager.buttons s
  /\ InputManager.directionals restored = InputManager.directionals s
  /\ InputManager.buttonObjs restored = InputManager.buttonObjs mutated
  /\ InputManager.directionalObjs restored = InputManager.directionalObjs mutated
  /\ (forall (name : string) (r : ref) (but : Button.t),
        JsMap.get (InputManager.buttons s) name = Some r ->
        InputManager.buttonObjs s !! r = Some but ->
        exists but' : Button.t,
          JsMap.get (InputManager.buttons restored) name = Some r
          /\ InputManager.buttonObjs restored !! r = Some but'
          /\ buttonIdent but' = buttonIdent but)
  /\ (forall (name : string) (r : ref) (dir : Directional.t),
        JsMap.get (InputManager.directionals s) name = Some r ->
        InputManager.directionalObjs s !! r = Some dir ->
        exists dir' : Directional.t,
          JsMap.get (InputManager.directionals restored) name = Some r
          /\ InputManager.directionalObjs restored !! r = Some dir'
          /\ stickIdent dir' = stickIdent dir)
  /\ InputManager.savedControls restored = None
  /\ (forall s0 : InputManager.t,
        InputManager.savedControls s0 = None ->
        fst (InputManager.restore s0) = s0).
Proof.
  intros Hb Hd Hwf mutated restored.
  pose proof (performAll_keeps ops (fst (InputManager.save s))) as Hkeeps.
  fold mutated in Hkeeps.
  assert (Hsaved : InputManager.savedControls mutated
                   = Some (SavedControls.mk (InputManager.buttons s)
                             (InputManager.directionals s))).
  { rewrite (keeps_saved _ _ Hkeeps). simpl.
    rewrite (JsMap_copy _ Hb), (JsMap_copy _ Hd). reflexivity. }
  assert (Hrestored :
            restored
            = InputManager.set_savedControls None
                (InputManager.set_directionals (InputManager.directionals s)
                   (InputManager.set_buttons (InputManager.buttons s) mutated))).
  { unfold restored, InputManager.restore. rewrite Hsaved. reflexivity. }
  rewrite Hrestored. simpl.
  repeat split.
  - intros name r but Hname Hr.
    assert (Hlt : (r < InputManager.nextRef s)%nat).
    { destruct (Nat.lt_ge_cases r (InputManager.nextRef s)) as [Hlt|Hge]; [exact Hlt|].
      destruct (Hwf r Hge) as [Hnone _]. congruence. }
    pose proof (keeps_buttonIdent _ _ Hkeeps r Hlt) as Hid. simpl in Hid.
    rewrite Hr in Hid.
    destruct (InputManager.buttonObjs mutated !! r) as [but'|]; [|discriminate].
    exists but'. injection Hid as Hk Hg. unfold buttonIdent. rewrite Hk, Hg. auto.
  - intros name r dir Hname Hr.
    assert (Hlt : (r < InputManager.nextRef s)%nat).
    { destruct (Nat.lt_ge_cases r (InputManager.nextRef s)) as [Hlt|Hge]; [exact Hlt|].
      destruct (Hwf r Hge) as [_ Hnone]. congruence. }
    pose proof (keeps_stickIdent _ _ Hkeeps r Hlt) as Hid. simpl in Hid.
    rewrite Hr in Hid.
    destruct (InputManager.directionalObjs mutated !! r) as [dir'|]; [|discriminate].
    exists dir'. injection Hid as Hh Hv. unfold stickIdent. rewrite Hh, Hv. auto.
  - intros s0 H0. rewrite (restore_without_snapshot s0 H0). reflexivity.
Qed.

(** The theorem at a manager with a button "jump" and a directional
    "move": between the save and the restore the key of "jump" goes down,
    "jump" gets a handler and the manager enters menu mode.  After the
    restore "jump" names the same object, which is down and has the
    handler. *)
Lemma save_restore_same_objects_witness :
  let s :=
    performAll
      [RegisterDirectional "move" "w" "d" "s" "a" None None;
       RegisterButton "jump" "j" None] InputManager.new in
  let ops :=
    [Keydown "j"; SetOnPressed "jump" (Some (Handler "hop")); EnterMenuMode] in
  let restored :=
    fst (InputManager.restore (performAll ops (fst (InputManager.save s)))) in
  InputManager.buttons restored = [("jump", 1%nat)]
  /\ InputManager.directionals restored = [("move", 0%nat)]
  /\ InputManager.buttonObjs restored !! 1%nat
     = Some (Button.set_onPressed (Handler "hop")
               (Button.down (Button.new "j" None))).
Proof.
  intros s ops restored.
  assert (Hb : JsMap.wf (InputManager.buttons s)) by apply NoDup_singleton.
  assert (Hd : JsMap.wf (InputManager.directionals s)) by apply NoDup_singleton.
  assert (Hwf : storeWf s)
    by exact (keeps_storeWf _ _ (performAll_keeps _ InputManager.new) storeWf_new).
  destruct (save_restore_same_objects s ops Hb Hd Hwf) as (H1 & H2 & H3 & _).
  split; [exact H1|]. split; [exact H2|].
  fold restored in H3. rewrite H3. reflexivity.
Defined.

(** ** The room editor: deleting *)

Lemma indexOf_not_elem (a : list ref) (r : ref) : r ∉ a -> indexOf a r = None.
Proof.
  induction a as [|r' a IH]; simpl; intros Hr; [reflexivity|].
  rewrite not_elem_of_cons in Hr. destruct Hr as [Hne Hr].
  destruct (Nat.eqb_spec r' r) as [->|_]; [congruence|].
  rewrite (IH Hr). reflexivity.
Qed.

(** C10.  [delete()] with a selected polygon that is not among the
    completed ones (the polygon being drawn) changes nothing: the
    completed polygons, the room with its backgrounds and entities, and
    the three selections stay as they are, the selected polygon included,
    also when a background or an entity is selected as well. *)
Theorem delete_polygon_in_progress (s : WorldRoomEditor.t) (p : ref) :
  WorldRoomEditor.selectedPolygon s = Some p ->
  p ∉ WorldRoomEditor.completedPolygons s ->
  WorldRoomEditor.delete s = s
  /\ WorldRoomEditor.completedPolygons (WorldRoomEditor.delete s)
     = WorldRoomEditor.completedPolygons s
  /\ WorldRoomEditor.currentRoom (WorldRoomEditor.delete s)
     = WorldRoomEditor.currentRoom s
  /\ WorldRoomEditor.selectedPolygon (WorldRoomEditor.delete s) = Some p
  /\ WorldRoomEditor.selectedBgObj (WorldRoomEditor.delete s)
     = WorldRoomEditor.selectedBgObj s
  /\ WorldRoomEditor.selectedEntity (WorldRoomEditor.delete s)
     = WorldRoomEditor.selectedEntity s.
Proof.
  intros Hsel Hnot.
  assert (Hsame : WorldRoomEditor.delete s = s).
  { unfold WorldRoomEditor.delete.
    rewrite Hsel, (indexOf_not_elem _ p Hnot). reflexivity. }
  rewrite Hsame. repeat split. exact Hsel.
Qed.

(** The theorem at an editor in which one point of a polygon has been
    drawn and a background of the room is selected as well. *)
Lemma delete_polygon_in_progress_witness :
  let room := Room.mk [] [7%nat] in
  let s0 :=
    WorldRoomEditor.new ∅ ∅ 8%nat (Some room) (Vector.mk 0 0) in
  let s :=
    WorldRoomEditor.set_selectedBgObj (Some 7%nat)
      (fst (WorldRoomEditor.mousedownHandler (fun v => v)
              (fun _ _ => false) (fun _ _ => false)
              (MouseEvent.mk 3 4 0 false) s0)) in
  WorldRoomEditor.selectedPolygon s = Some 8%nat
  /\ WorldRoomEditor.delete s = s
  /\ WorldRoomEditor.currentRoom (WorldRoomEditor.delete s) = Some room.
Proof.
  intros room s0 s.
  destruct (delete_polygon_in_progress s 8%nat eq_refl (not_elem_of_nil _))
    as (H1 & _ & H2 & _).
  split; [reflexivity|]. split; [exact H1 | exact H2].
Defined.

(** ** The room editor: drawing a barrier *)

Section DrawBarrier.

Variable windowToWorldCoord : Vector.t -> Vector.t.
Variable polygonContains : Polygon.t -> Vector.t -> bool.
Variable boxContains : Box.t -> Vector.t -> bool.

#[local] Abbreviation click :=
  (click windowToWorldCoord polygonContains boxContains).
#[local] Abbreviation clicks :=
  (clicks windowToWorldCoord polygonContains boxContains).
#[local] Abbreviation world := (world windowToWorldCoord).

(** One click in drawBarrier mode. *)
Lemma click_drawBarrier (ev : MouseEvent.t) (s : WorldRoomEditor.t) :
  WorldRoomEditor.mode s = drawBarrier ->
  notRightClick ev ->
  inProgressWf s ->
  let p := default (WorldRoomEditor.nextRef s) (WorldRoomEditor.selectedPolygon s) in
  let points := pointsInProgress s ++ [world s ev] in
  let s' := click ev s in
  WorldRoomEditor.polygonObjs s' !! p = Some points
  /\ WorldRoomEditor.mode s' = drawBarrier
  /\ WorldRoomEditor.cameraOffset s' = WorldRoomEditor.cameraOffset s
  /\ (if MouseEvent.shiftKey ev && (2 <? length points)%nat
      then WorldRoomEditor.completedPolygons s'
           = WorldRoomEditor.completedPolygons s ++ [p]
           /\ WorldRoomEditor.selectedPolygon s' = None
      else WorldRoomEditor.completedPolygons s'
           = WorldRoomEditor.completedPolygons s
           /\ WorldRoomEditor.selectedPolygon s' = Some p).
Proof.
  intros Hmode Hbtn Hwf p points s'. subst s' p points.
  apply Z.eqb_neq in Hbtn. unfold inProgressWf in Hwf.
  unfold click, WorldRoomEditor.mousedownHandler, world, pointsInProgress,
    WorldRoomEditor.worldCoord, Polygon.addPoints, Polygon.getPoints, Polygon.new.
  cbn -[Nat.ltb]. rewrite Hmode, Hbtn.
  destruct (WorldRoomEditor.selectedPolygon s) as [p|] eqn:Hsel;
    cbn -[Nat.ltb]; unfold id.
  - destruct (Hwf p eq_refl) as [pts Hpts]. rewrite Hpts. cbn -[Nat.ltb].
    destruct (MouseEvent.shiftKey ev);
      repeat (progress (rewrite ?lookup_alter_eq, ?Hpts; cbn -[Nat.ltb]; unfold id));
      [match goal with |- context [Nat.ltb 2 ?n] => destruct (Nat.ltb 2 n) end|];
      repeat (progress (rewrite ?lookup_alter_eq, ?Hpts; cbn -[Nat.ltb]; unfold id));
      auto.
  - destruct (MouseEvent.shiftKey ev);
      repeat (progress (rewrite ?lookup_alter_eq, ?lookup_insert_eq;
                        cbn -[Nat.ltb]; unfold id));
      change (2 <? 1)%nat with false;
      repeat (progress (rewrite ?lookup_alter_eq, ?lookup_insert_eq;
                        cbn -[Nat.ltb]; unfold id));
      auto.
Qed.

Lemma world_cameraOffset (s s' : WorldRoomEditor.t) (ev : MouseEvent.t) :
  WorldRoomEditor.cameraOffset s' = WorldRoomEditor.cameraOffset s ->
  world s' ev = world s ev.
Proof. unfold world, WorldRoomEditor.worldCoord. intros ->. reflexivity. Qed.

(** Plain clicks, at least one, in drawBarrier mode: each appends its
    point to the polygon being drawn, and nothing is completed. *)
Lemma clicks_plain (evs : list MouseEvent.t) :
  forall (ev : MouseEvent.t) (s : WorldRoomEditor.t),
    WorldRoomEditor.mode s = drawBarrier ->
    inProgressWf s ->
    Forall plainClick (ev :: evs) ->
    let p := default (WorldRoomEditor.nextRef s) (WorldRoomEditor.selectedPolygon s) in
    let s' := clicks (ev :: evs) s in
    WorldRoomEditor.selectedPolygon s' = Some p
    /\ WorldRoomEditor.polygonObjs s' !! p
       = Some (pointsInProgress s ++ map (world s) (ev :: evs))
    /\ WorldRoomEditor.completedPolygons s' = WorldRoomEditor.completedPolygons s
    /\ WorldRoomEditor.mode s' = drawBarrier
    /\ WorldRoomEditor.cameraOffset s' = WorldRoomEditor.cameraOffset s.
Proof.
  induction evs as [|ev' evs IH]; intros ev s Hmode Hwf Hplain p s';
    inversion Hplain as [|? ? [Hbtn Hshift] Hrest]; subst.
  - destruct (click_drawBarrier ev s Hmode Hbtn Hwf) as (Hp & Hm & Hc & Hsel).
    rewrite Hshift in Hsel. destruct Hsel as [Hcompl Hsel].
    subst s' p. unfold clicks. simpl. auto.
  - destruct (click_drawBarrier ev s Hmode Hbtn Hwf) as (Hp & Hm & Hc & Hsel).
    rewrite Hshift in Hsel. destruct Hsel as [Hcompl Hsel]. fold p in Hp, Hsel.
    assert (Hwf1 : inProgressWf (click ev s)).
    { intros q Hq. rewrite Hsel in Hq. injection Hq as <-. rewrite Hp. eauto. }
    destruct (IH ev' (click ev s) Hm Hwf1 Hrest) as (Hsel' & Hp' & Hcompl' & Hm' & Hc').
    rewrite Hsel in Hsel', Hp'. cbn [from_option id] in Hsel', Hp'.
    subst s'. change (clicks (ev :: ev' :: evs) s) with (clicks (ev' :: evs) (click ev s)).
    split; [exact Hsel'|]. split; [|split; [congruence|split; congruence]].
    rewrite Hp'. unfold pointsInProgress at 1. rewrite Hsel, Hp.
    cbn [from_option id]. rewrite <- app_assoc.
    rewrite (map_ext (world (click ev s)) (world s)
               (fun e => world_cameraOffset s (click ev s) e Hc)).
    reflexivity.
Qed.

(** Plain clicks closed by a shift-click, from an editor in drawBarrier
    mode with no polygon being drawn: the polygon gets all the points, and
    is completed when the shift-click makes it one of more than 2 points,
    that is after 2 plain clicks or more. *)
Lemma clicks_then_shift (evs : list MouseEvent.t) (last : MouseEvent.t)
    (s : WorldRoomEditor.t) :
  WorldRoomEditor.mode s = drawBarrier ->
  WorldRoomEditor.selectedPolygon s = None ->
  Forall plainClick evs ->
  notRightClick last ->
  MouseEvent.shiftKey last = true ->
  let p := WorldRoomEditor.nextRef s in
  let s' := clicks (evs ++ [last]) s in
  WorldRoomEditor.polygonObjs s' !! p = Some (map (world s) (evs ++ [last]))
  /\ (if (2 <=? length evs)%nat
      then WorldRoomEditor.completedPolygons s'
           = WorldRoomEditor.completedPolygons s ++ [p]
           /\ WorldRoomEditor.selectedPolygon s' = None
      else WorldRoomEditor.completedPolygons s'
           = WorldRoomEditor.completedPolygons s
           /\ WorldRoomEditor.selectedPolygon s' = Some p).
Proof.
  intros Hmode Hnone Hplain Hbtn Hshift p s'.
  assert (Hwf : inProgressWf s) by (intros q Hq; congruence).
  assert (Hs' : s' = click last (clicks evs s))
    by (subst s'; unfold clicks; rewrite fold_left_app; reflexivity).
  rewrite Hs'. clear Hs' s'.
  destruct evs as [|ev evs].
  - change (clicks [] s) with s.
    destruct (click_drawBarrier last s Hmode Hbtn Hwf) as (Hp & _ & _ & Hsel).
    unfold pointsInProgress in Hp, Hsel. rewrite Hnone in Hp, Hsel.
    rewrite Hshift in Hsel. cbn [from_option id] in Hp, Hsel.
    split; [exact Hp | exact Hsel].
  - destruct (clicks_plain evs ev s Hmode Hwf Hplain)
      as (Hsel1 & Hp1 & Hc1 & Hm1 & Hcam1).
    unfold pointsInProgress in Hp1. rewrite Hnone in Hsel1, Hp1.
    cbn [from_option id app] in Hsel1, Hp1. fold p in Hsel1, Hp1.
    set (s1 := clicks (ev :: evs) s) in *.
    assert (Hwf1 : inProgressWf s1).
    { intros q Hq. rewrite Hsel1 in Hq. injection Hq as <-. rewrite Hp1. eauto. }
    destruct (click_drawBarrier last s1 Hm1 Hbtn Hwf1) as (Hp & _ & _ & Hsel).
    unfold pointsInProgress in Hp, Hsel. rewrite Hsel1, Hp1 in Hp, Hsel.
    rewrite Hshift in Hsel. cbn [from_option id andb] in Hp, Hsel.
    rewrite (world_cameraOffset s s1 last Hcam1) in Hp, Hsel.
    change [world s last] with (map (world s) [last]) in Hp, Hsel.
    rewrite <- (map_app (world s) (ev :: evs) [last]) in Hp, Hsel.
    split; [exact Hp|].
    rewrite Hc1 in Hsel.
    replace (2 <=? length (ev :: evs))%nat
      with (2 <? length (map (world s) ((ev :: evs) ++ [last])))%nat;
      [exact Hsel|].
    rewrite length_map, length_app. cbn [length].
    apply eq_true_iff_eq. rewrite Nat.ltb_lt, Nat.leb_le. lia.
Qed.

End DrawBarrier.

(** C6, as the code has it.  In drawBarrier mode every click other than a
    right click appends the clicked point, in world coordinates, to the
    polygon being drawn, which it creates when there is none.  From an
    editor with no polygon being drawn, plain clicks closed by a
    shift-click give a polygon of all the clicked points; the shift-click
    completes it (one polygon more in the completed list, nothing in
    progress) when it comes after 2 plain clicks or more, so that the
    polygon has more than 2 points with the point just appended: after 3
    plain clicks the completed polygon has 4 points, after 2 it has 3.
    After fewer than 2 plain clicks the shift-click appends its point and
    the polygon stays in progress. *)
Theorem drawBarrier_clicks (windowToWorldCoord : Vector.t -> Vector.t)
    (polygonContains : list Vector.t -> Vector.t -> bool)
    (boxContains : Box.t -> Vector.t -> bool) :
  let click := click windowToWorldCoord polygonContains boxContains in
  let clicks := clicks windowToWorldCoord polygonContains boxContains in
  let world := world windowToWorldCoord in
  (forall (ev : MouseEvent.t) (s : WorldRoomEditor.t),
     WorldRoomEditor.mode s = drawBarrier ->
     notRightClick ev ->
     inProgressWf s ->
     WorldRoomEditor.polygonObjs (click ev s)
       !! default (WorldRoomEditor.nextRef s) (WorldRoomEditor.selectedPolygon s)
     = Some (pointsInProgress s ++ [world s ev]))
  /\ (forall (evs : list MouseEvent.t) (last : MouseEvent.t)
             (s : WorldRoomEditor.t),
        WorldRoomEditor.mode s = drawBarrier ->
        WorldRoomEditor.selectedPolygon s = None ->
        Forall plainClick evs ->
        notRightClick last ->
        MouseEvent.shiftKey last = true ->
        let p := WorldRoomEditor.nextRef s in
        let s' := clicks (evs ++ [last]) s in
        WorldRoomEditor.polygonObjs s' !! p = Some (map (world s) (evs ++ [last]))
        /\ (if (2 <=? length evs)%nat
            then WorldRoomEditor.completedPolygons s'
                 = WorldRoomEditor.completedPolygons s ++ [p]
                 /\ WorldRoomEditor.selectedPolygon s' = None
            else WorldRoomEditor.completedPolygons s'
                 = WorldRoomEditor.completedPolygons s
                 /\ WorldRoomEditor.selectedPolygon s' = Some p)).
Proof.
  intros click0 clicks0 world0. split.
  - intros ev s Hmode Hbtn Hwf.
    apply (click_drawBarrier windowToWorldCoord polygonContains boxContains
             ev s Hmode Hbtn Hwf).
  - intros evs last s. apply clicks_then_shift.
Qed.

(** The theorem at a new editor: three clicks and a shift-click complete a
    polygon of 4 points; one click and a shift-click leave a polygon of 2
    points in progress. *)
Lemma drawBarrier_clicks_witness :
  let s := WorldRoomEditor.new ∅ ∅ 0%nat (Some (Room.mk [] [])) (Vector.mk 0 0) in
  let c1 := MouseEvent.mk 1 1 0 false in
  let c2 := MouseEvent.mk 5 1 0 false in
  let c3 := MouseEvent.mk 5 4 0 false in
  let shift4 := MouseEvent.mk 1 4 0 true in
  let shift2 := MouseEvent.mk 5 1 0 true in
  let run := clicks (fun v => v) (fun _ _ => false) (fun _ _ => false) in
  let four := run [c1; c2; c3; shift4] s in
  let two := run [c1; shift2] s in
  (WorldRoomEditor.polygonObjs four !! 0%nat
   = Some [Vector.mk 1 1; Vector.mk 5 1; Vector.mk 5 4; Vector.mk 1 4]
   /\ WorldRoomEditor.completedPolygons four = [0%nat]
   /\ WorldRoomEditor.selectedPolygon four = None)
  /\ (WorldRoomEditor.polygonObjs two !! 0%nat = Some [Vector.mk 1 1; Vector.mk 5 1]
      /\ WorldRoomEditor.completedPolygons two = []
      /\ WorldRoomEditor.selectedPolygon two = Some 0%nat).
Proof.
  intros s c1 c2 c3 shift4 shift2 run four two.
  assert (Hc1 : plainClick c1) by (split; [discriminate | reflexivity]).
  assert (Hc2 : plainClick c2) by (split; [discriminate | reflexivity]).
  assert (Hc3 : plainClick c3) by (split; [discriminate | reflexivity]).
  assert (H4 : notRightClick shift4) by discriminate.
  assert (H2 : notRightClick shift2) by discriminate.
  destruct (drawBarrier_clicks (fun v => v) (fun _ _ => false) (fun _ _ => false))
    as [_ Hrun].
  split.
  - apply (Hrun [c1; c2; c3] shift4 s eq_refl eq_refl
             ltac:(repeat constructor; assumption) H4 eq_refl).
  - apply (Hrun [c1] shift2 s eq_refl eq_refl
             ltac:(repeat constructor; assumption) H2 eq_refl).
Defined.

(** C6, as the specification has it, fails: a shift-click after 2 plain clicks
    completes the polygon, with 3 points, and nothing stays in progress. *)
Lemma shift_click_after_two_completes :
  let s := WorldRoomEditor.new ∅ ∅ 0%nat (Some (Room.mk [] [])) (Vector.mk 0 0) in
  let c1 := MouseEvent.mk 1 1 0 false in
  let c2 := MouseEvent.mk 5 1 0 false in
  let shift3 := MouseEvent.mk 3 4 0 true in
  let s' :=
    clicks (fun v => v) (fun _ _ => false) (fun _ _ => false) [c1; c2; shift3] s in
  WorldRoomEditor.completedPolygons s' = [0%nat]
  /\ WorldRoomEditor.selectedPolygon s' = None
  /\ WorldRoomEditor.polygonObjs s' !! 0%nat
     = Some [Vector.mk 1 1; Vector.mk 5 1; Vector.mk 3 4].
Proof. vm_compute. repeat split. Qed.

(** * Further properties of the code *)

(** ** Lookups in a map *)

Lemma JsMap_get_set_eq {V : Type} (m : JsMap.t V) (k : string) (v : V) :
  JsMap.get (JsMap.set m k v) k = Some v.
Proof.
  induction m as [|[k' v'] m IH]; simpl.
  - rewrite String.eqb_refl. reflexivity.
  - destruct (String.eqb k k') eqn:E; simpl; rewrite E; [reflexivity | exact IH].
Qed.

Lemma JsMap_get_set_ne {V : Type} (m : JsMap.t V) (k k' : string) (v : V) :
  k' <> k -> JsMap.get (JsMap.set m k v) k' = JsMap.get m k'.
Proof.
  intros Hne. induction m as [|[k0 v0] m IH]; simpl.
  - rewrite (String_eqb_false k' k Hne). reflexivity.
  - destruct (String.eqb_spec k k0) as [->|Hk]; simpl.
    + rewrite (String_eqb_false k' k0 Hne). reflexivity.
    + rewrite IH. reflexivity.
Qed.

Lemma JsMap_get_None {V : Type} (m : JsMap.t V) (k : string) :
  JsMap.get m k = None <-> k ∉ map fst m.
Proof.
  induction m as [|[k' v'] m IH]; simpl.
  - split; [intros _; apply not_elem_of_nil | reflexivity].
  - rewrite not_elem_of_cons. destruct (String.eqb_spec k k') as [->|Hne].
    + split; [discriminate | intros [H _]; congruence].
    + rewrite IH. tauto.
Qed.

Lemma JsMap_delete_absent {V : Type} (m : JsMap.t V) (k : string) :
  JsMap.get m k = None -> JsMap.delete m k = m.
Proof.
  induction m as [|[k' v'] m IH]; simpl; [reflexivity|].
  destruct (String.eqb k k'); [discriminate|]. intros H. rewrite (IH H). reflexivity.
Qed.

Lemma JsMap_get_delete_eq {V : Type} (m : JsMap.t V) (k : string) :
  JsMap.wf m -> JsMap.get (JsMap.delete m k) k = None.
Proof.
  unfold JsMap.wf. induction m as [|[k' v'] m IH]; simpl; intros Hwf; [reflexivity|].
  apply NoDup_cons in Hwf as [Hk' Hwf].
  destruct (String.eqb_spec k k') as [->|Hne].
  - apply JsMap_get_None, Hk'.
  - simpl. rewrite (String_eqb_false k k' Hne). apply IH, Hwf.
Qed.

Lemma JsMap_get_delete_ne {V : Type} (m : JsMap.t V) (k k' : string) :
  k' <> k -> JsMap.get (JsMap.delete m k) k' = JsMap.get m k'.
Proof.
  intros Hne. induction m as [|[k0 v0] m IH]; simpl; [reflexivity|].
  destruct (String.eqb_spec k k0) as [->|Hk]; simpl.
  - rewrite (String_eqb_false k' k0 Hne). reflexivity.
  - rewrite IH. reflexivity.
Qed.

Lemma JsMap_values_set {V : Type} (m : JsMap.t V) (k : string) (v v' : V) :
  v' ∈ JsMap.values (JsMap.set m k v) -> v' = v \/ v' ∈ JsMap.values m.
Proof.
  unfold JsMap.values. induction m as [|[k0 v0] m IH]; simpl.
  - intros H. apply list_elem_of_singleton in H. auto.
  - destruct (String.eqb k k0); simpl; rewrite !elem_of_cons; intros [H|H]; auto.
    destruct (IH H); auto.
Qed.

Lemma JsMap_values_set_NoDup {V : Type} (m : JsMap.t V) (k : string) (v : V) :
  NoDup (JsMap.values m) -> v ∉ JsMap.values m ->
  NoDup (JsMap.values (JsMap.set m k v)).
Proof.
  unfold JsMap.values. induction m as [|[k0 v0] m IH]; simpl; intros Hnd Hv.
  - apply NoDup_singleton.
  - apply NoDup_cons in Hnd as [Hv0 Hnd]. rewrite not_elem_of_cons in Hv.
    destruct Hv as [Hne Hv].
    destruct (String.eqb k k0); simpl; apply NoDup_cons; split; auto.
    intros Hin. apply (JsMap_values_set m k v v0) in Hin as [->|Hin]; auto.
Qed.

Lemma JsMap_values_delete {V : Type} (m : JsMap.t V) (k : string) (v : V) :
  v ∈ JsMap.values (JsMap.delete m k) -> v ∈ JsMap.values m.
Proof.
  unfold JsMap.values. induction m as [|[k0 v0] m IH]; simpl; [auto|].
  destruct (String.eqb k k0); simpl; rewrite ?elem_of_cons; [auto|].
  intros [H|H]; auto.
Qed.

Lemma JsMap_values_delete_NoDup {V : Type} (m : JsMap.t V) (k : string) :
  NoDup (JsMap.values m) -> NoDup (JsMap.values (JsMap.delete m k)).
Proof.
  unfold JsMap.values. induction m as [|[k0 v0] m IH]; simpl; intros Hnd; [exact Hnd|].
  apply NoDup_cons in Hnd as [Hv0 Hnd].
  destruct (String.eqb k k0); simpl; [exact Hnd|].
  apply NoDup_cons. split; [|auto].
  intros Hin. apply Hv0. apply (JsMap_values_delete m k v0 Hin).
Qed.

(** ** An invariant of the input manager *)

Lemma mapAlive_mono {V : Type} (objs objs' : gmap ref V) (m : JsMap.t ref) :
  (forall r, is_Some (objs !! r) -> is_Some (objs' !! r)) ->
  mapAlive objs m -> mapAlive objs' m.
Proof. intros Hmono (Hwf & Hnd & Halive). repeat split; auto. Qed.

Lemma mapAlive_nil {V : Type} (objs : gmap ref V) : mapAlive objs [].
Proof.
  repeat split; try apply NoDup_nil_2. intros r Hr. inversion Hr.
Qed.

Lemma mapAlive_delete {V : Type} (objs : gmap ref V) (m : JsMap.t ref)
    (k : string) :
  mapAlive objs m -> mapAlive objs (JsMap.delete m k).
Proof.
  intros (Hwf & Hnd & Halive). repeat split.
  - apply JsMap_delete_wf, Hwf.
  - apply JsMap_values_delete_NoDup, Hnd.
  - intros r Hr. apply Halive, (JsMap_values_delete m k r Hr).
Qed.

Lemma mapAlive_set {V : Type} (objs : gmap ref V) (m : JsMap.t ref)
    (k : string) (r : ref) (v : V) :
  objs !! r = None ->
  mapAlive objs m -> mapAlive (<[r := v]> objs) (JsMap.set m k r).
Proof.
  intros Hfresh (Hwf & Hnd & Halive). repeat split.
  - apply JsMap_set_wf, Hwf.
  - apply JsMap_values_set_NoDup; [exact Hnd|].
    intros Hin. destruct (Halive r Hin) as [x Hx]. congruence.
  - intros r' Hr'. apply JsMap_values_set in Hr' as [->|Hr'].
    + rewrite lookup_insert_eq. eauto.
    + destruct (decide (r' = r)) as [->|Hne];
        [rewrite lookup_insert_eq | rewrite lookup_insert_ne by congruence]; eauto.
Qed.

Lemma insert_keeps_alive {V : Type} (objs : gmap ref V) (r : ref) (v : V) :
  forall r', is_Some (objs !! r') -> is_Some (<[r := v]> objs !! r').
Proof.
  intros r' H. destruct (decide (r' = r)) as [->|Hne];
    [rewrite lookup_insert_eq | rewrite lookup_insert_ne by congruence]; eauto.
Qed.

Lemma inv_new : inv InputManager.new.
Proof.
  split; [apply storeWf_new | apply mapAlive_nil | apply mapAlive_nil |].
  intros saved H. discriminate.
Qed.

Lemma fmap_is_Some_eq {A B : Type} (f : A -> B) (x y : option A) :
  f <$> x = f <$> y -> is_Some y -> is_Some x.
Proof. intros H [b ->]. destruct x; [eauto | discriminate]. Qed.

Lemma inv_sameControls (s s' : InputManager.t) :
  sameControls s s' -> inv s -> inv s'.
Proof.
  intros Hs [Hst Hb Hd Hsv].
  assert (Hbo : forall r, is_Some (InputManager.buttonObjs s !! r) ->
                          is_Some (InputManager.buttonObjs s' !! r))
    by (intros r; apply (fmap_is_Some_eq buttonIdent), (same_buttonIdent _ _ Hs)).
  assert (Hdo : forall r, is_Some (InputManager.directionalObjs s !! r) ->
                          is_Some (InputManager.directionalObjs s' !! r))
    by (intros r; apply (fmap_is_Some_eq stickIdent), (same_stickIdent _ _ Hs)).
  split.
  - apply (keeps_storeWf _ _ (sameControls_keeps _ _ Hs) Hst).
  - rewrite (same_buttons _ _ Hs). apply (mapAlive_mono _ _ _ Hbo Hb).
  - rewrite (same_directionals _ _ Hs). apply (mapAlive_mono _ _ _ Hdo Hd).
  - rewrite (same_saved _ _ Hs). intros saved Hsaved.
    destruct (Hsv saved Hsaved) as [H1 H2].
    split; [apply (mapAlive_mono _ _ _ Hbo H1) | apply (mapAlive_mono _ _ _ Hdo H2)].
Qed.

Lemma inv_registerButton (name key : string) (gp : option Z) (s : InputManager.t) :
  inv s -> inv (InputManager.registerButton name key gp s).
Proof.
  intros [Hst Hb Hd Hsv].
  destruct (Hst (InputManager.nextRef s) (Nat.le_refl _)) as [Hfb Hfd].
  split; simpl.
  - apply (keeps_storeWf _ _ (keeps_registerButton name key gp s) Hst).
  - apply mapAlive_set; assumption.
  - exact Hd.
  - intros saved Hsaved. destruct (Hsv saved Hsaved) as [H1 H2].
    split; [|exact H2]. apply (mapAlive_mono _ _ _ (insert_keeps_alive _ _ _) H1).
Qed.

Lemma inv_registerDirectional (name u r0 d l : string) (h v : option Z)
    (s : InputManager.t) :
  inv s -> inv (InputManager.registerDirectional name u r0 d l h v s).
Proof.
  intros [Hst Hb Hd Hsv].
  destruct (Hst (InputManager.nextRef s) (Nat.le_refl _)) as [Hfb Hfd].
  split; simpl.
  - apply (keeps_storeWf _ _ (keeps_registerDirectional name u r0 d l h v s) Hst).
  - exact Hb.
  - apply mapAlive_set; assumption.
  - intros saved Hsaved. destruct (Hsv saved Hsaved) as [H1 H2].
    split; [exact H1|]. apply (mapAlive_mono _ _ _ (insert_keeps_alive _ _ _) H2).
Qed.

Lemma inv_unregisterButton (name : string) (s : InputManager.t) :
  inv s -> inv (InputManager.unregisterButton name s).
Proof.
  intros [Hst Hb Hd Hsv]. split; simpl; auto. apply mapAlive_delete, Hb.
Qed.

Lemma inv_unregisterAll (s : InputManager.t) :
  inv s -> inv (InputManager.unregisterAll s).
Proof.
  intros [Hst Hb Hd Hsv]. split; simpl; auto; apply mapAlive_nil.
Qed.

Lemma inv_save (s : InputManager.t) : inv s -> inv (fst (InputManager.save s)).
Proof.
  intros [Hst Hb Hd Hsv]. split; simpl; auto.
  intros saved [= <-]. simpl.
  rewrite (JsMap_copy _ (proj1 Hb)), (JsMap_copy _ (proj1 Hd)). auto.
Qed.

Lemma inv_restore (s : InputManager.t) : inv s -> inv (fst (InputManager.restore s)).
Proof.
  intros [Hst Hb Hd Hsv]. unfold InputManager.restore.
  destruct (InputManager.savedControls s) as [saved|] eqn:Hsaved; simpl.
  - destruct (Hsv saved eq_refl) as [H1 H2]. split; simpl; auto. discriminate.
  - split; auto. rewrite Hsaved. discriminate.
Qed.

Lemma inv_perform (op : Op) (s : InputManager.t) : inv s -> inv (perform op s).
Proof.
  intros Hinv.
  destruct op; simpl;
    try (refine (inv_sameControls _ _ _ Hinv);
         first [ apply sameControls_setOnPressed
               | apply sameControls_setOnReleased
               | apply sameControls_setDirectionalFunction
               | apply sameControls_step
               | apply (keyHandler_keeps Button.down), down_buttonIdent
               | apply (keyHandler_keeps Button.up), up_buttonIdent
               | split; reflexivity ]).
  - apply inv_registerButton, Hinv.
  - apply inv_unregisterButton, Hinv.
  - apply inv_registerDirectional, Hinv.
  - apply inv_unregisterAll, Hinv.
  - unfold InputManager.enterMenuMode.
    eapply inv_sameControls; [apply sameControls_setOnPressed|].
    do 3 apply inv_registerButton.
    apply inv_registerDirectional, inv_unregisterAll, Hinv.
  - eapply inv_sameControls; [apply sameControls_set_usingKeyboard|].
    apply inv_unregisterAll, Hinv.
Qed.

Lemma inv_actAll (actions : list Action) :
  forall s, inv s -> inv (actAll actions s).
Proof.
  unfold actAll. induction actions as [|a actions IH]; intros s Hinv; simpl;
    [exact Hinv|].
  apply IH. destruct a; simpl;
    [apply inv_perform | apply inv_save | apply inv_restore]; exact Hinv.
Qed.

(** Whatever is done to an input manager from its construction on, every
    name of its maps and of its snapshot refers to a button or directional
    that is in the store, no two names refer to the same one, no name is
    there twice, and no reference beyond the last one handed out is in
    use. *)
Theorem reachable_inv (actions : list Action) :
  inv (actAll actions InputManager.new).
Proof. apply inv_actAll, inv_new. Qed.

(** ** Registering, unregistering and setting handlers *)

Lemma inv_button_not_next (s : InputManager.t) (name : string) (r : ref) :
  inv s ->
  JsMap.get (InputManager.buttons s) name = Some r ->
  r <> InputManager.nextRef s.
Proof.
  intros Hinv Hget ->.
  destruct (inv_buttons _ Hinv) as (_ & _ & Halive).
  destruct (Halive _ (JsMap_get_values _ _ _ Hget)) as [b Hb].
  destruct (inv_store _ Hinv _ (Nat.le_refl _)) as [Hnone _]. congruence.
Qed.

Lemma inv_directional_not_next (s : InputManager.t) (name : string) (r : ref) :
  inv s ->
  JsMap.get (InputManager.directionals s) name = Some r ->
  r <> InputManager.nextRef s.
Proof.
  intros Hinv Hget ->.
  destruct (inv_directionals _ Hinv) as (_ & _ & Halive).
  destruct (Halive _ (JsMap_get_values _ _ _ Hget)) as [b Hb].
  destruct (inv_store _ Hinv _ (Nat.le_refl _)) as [_ Hnone]. congruence.
Qed.

(** Two names of a map with no key and no value twice have two values. *)
Lemma JsMap_get_inj {V : Type} (m : JsMap.t V) (k k' : string) (v : V) :
  JsMap.wf m -> NoDup (JsMap.values m) ->
  JsMap.get m k = Some v -> JsMap.get m k' = Some v -> k = k'.
Proof.
  unfold JsMap.wf, JsMap.values.
  induction m as [|[k0 v0] m IH]; simpl; intros Hwf Hnd; [discriminate|].
  apply NoDup_cons in Hwf as [_ Hwf]. apply NoDup_cons in Hnd as [Hv0 Hnd].
  destruct (String.eqb_spec k k0) as [->|Hk], (String.eqb_spec k' k0) as [->|Hk'].
  - reflexivity.
  - intros [= ->] Hget. exfalso. apply Hv0, (JsMap_get_values m k' v Hget).
  - intros Hget [= ->]. exfalso. apply Hv0, (JsMap_get_values m k v Hget).
  - apply IH; assumption.
Qed.

(** [registerButton] and [registerDirectional]: the name stands for a new
    control, made from the arguments, with a clear status, a zero vector
    and no handlers, whatever it stood for before; every other name stands
    for what it stood for. *)
Theorem register_then_lookup (s : InputManager.t) (name key : string)
    (gp : option Z) (up right down left : string) (h v : option Z) :
  inv s ->
  let sb := InputManager.registerButton name key gp s in
  let sd := InputManager.registerDirectional name up right down left h v s in
  buttonNamed sb name = Some (Button.new key gp)
  /\ (forall name', name' <> name -> buttonNamed sb name' = buttonNamed s name')
  /\ (forall name', directionalNamed sb name' = directionalNamed s name')
  /\ directionalNamed sd name = Some (Directional.new up right down left h v)
  /\ InputManager.getDirectionalVec name sd = Some (Vector.mk 0 0)
  /\ (forall name', name' <> name ->
        directionalNamed sd name' = directionalNamed s name')
  /\ (forall name', buttonNamed sd name' = buttonNamed s name').
Proof.
  intros Hinv sb sd. subst sb sd.
  unfold buttonNamed, directionalNamed, InputManager.getDirectionalVec.
  cbn [InputManager.registerButton InputManager.registerDirectional
       InputManager.buttons InputManager.directionals InputManager.buttonObjs
       InputManager.directionalObjs InputManager.set_buttons
       InputManager.set_directionals InputManager.set_nextRef
       InputManager.set_buttonObjs InputManager.set_directionalObjs].
  rewrite !JsMap_get_set_eq. cbn [mbind option_bind].
  rewrite !lookup_insert_eq.
  split; [reflexivity|]. split; [|split; [reflexivity|]].
  - intros name' Hne. rewrite JsMap_get_set_ne by exact Hne.
    destruct (JsMap.get (InputManager.buttons s) name') as [r|] eqn:Hget;
      [|reflexivity].
    cbn [mbind option_bind]. rewrite lookup_insert_ne; [reflexivity|].
    intros Heq. apply (inv_button_not_next s name' r Hinv Hget). congruence.
  - split; [reflexivity|]. split; [reflexivity|]. split; [|reflexivity].
    intros name' Hne. rewrite JsMap_get_set_ne by exact Hne.
    destruct (JsMap.get (InputManager.directionals s) name') as [r|] eqn:Hget;
      [|reflexivity].
    cbn [mbind option_bind]. rewrite lookup_insert_ne; [reflexivity|].
    intros Heq. apply (inv_directional_not_next s name' r Hinv Hget). congruence.
Qed.

(** The theorem at a manager in menu mode, where "enter" is registered
    again. *)
Lemma register_then_lookup_witness :
  let s := actAll [Perform EnterMenuMode] InputManager.new in
  let sb := InputManager.registerButton "enter" "e" None s in
  buttonNamed sb "enter" = Some (Button.new "e" None)
  /\ buttonNamed sb "fullscreen" = buttonNamed s "fullscreen".
Proof.
  intros s sb.
  assert (Hinv : inv s) by (apply inv_actAll, inv_new).
  destruct (register_then_lookup s "enter" "e" None "w" "d" "s" "a" None None Hinv)
    as (H1 & H2 & _).
  split; [exact H1 | apply H2; discriminate].
Defined.

Lemma set_buttons_same (s : InputManager.t) :
  InputManager.set_buttons (InputManager.buttons s) s = s.
Proof. destruct s; reflexivity. Qed.

(** [unregisterButton]: the name stands for nothing afterwards, and a
    handler set for it is refused; every other name stands for what it
    stood for; for a name that is not registered nothing changes. *)
Theorem unregister_then_lookup (s : InputManager.t) (name : string) :
  inv s ->
  let s' := InputManager.unregisterButton name s in
  buttonNamed s' name = None
  /\ (forall handler, InputManager.setOnPressed name handler s' = (s', false))
  /\ (forall handler, InputManager.setOnReleased name handler s' = (s', false))
  /\ (forall name', name' <> name -> buttonNamed s' name' = buttonNamed s name')
  /\ (JsMap.get (InputManager.buttons s) name = None -> s' = s).
Proof.
  intros Hinv s'. subst s'.
  destruct (inv_buttons _ Hinv) as (Hwf & _ & _).
  unfold buttonNamed, InputManager.setOnPressed, InputManager.setOnReleased.
  cbn [InputManager.unregisterButton InputManager.buttons InputManager.buttonObjs
       InputManager.set_buttons].
  rewrite (JsMap_get_delete_eq _ name Hwf).
  repeat split.
  - intros name' Hne. rewrite JsMap_get_delete_ne by exact Hne. reflexivity.
  - intros Habsent. unfold InputManager.unregisterButton.
    rewrite (JsMap_delete_absent _ _ Habsent). apply set_buttons_same.
Qed.

(** The theorem at a manager in menu mode: "cancel" is unregistered. *)
Lemma unregister_then_lookup_witness :
  let s := actAll [Perform EnterMenuMode] InputManager.new in
  let s' := InputManager.unregisterButton "cancel" s in
  buttonNamed s' "cancel" = None
  /\ InputManager.setOnPressed "cancel" (Some (Handler "back")) s' = (s', false)
  /\ buttonNamed s' "enter" = buttonNamed s "enter".
Proof.
  intros s s'.
  assert (Hinv : inv s) by (apply inv_actAll, inv_new).
  destruct (unregister_then_lookup s "cancel" Hinv) as (H1 & H2 & _ & H3 & _).
  split; [exact H1|]. split; [apply H2 | apply H3; discriminate].
Defined.

(** [setOnPressed] and [setOnReleased] on a registered name: they report
    success and the button has the handler, or [noOp] when none is given,
    with its key, gamepad index, status and other handler as they were;
    every other name stands for what it stood for. *)
Theorem setOn_then_lookup (s : InputManager.t) (name : string)
    (handler : option Callback) (b : Button.t) :
  inv s ->
  buttonNamed s name = Some b ->
  let sp := InputManager.setOnPressed name handler s in
  let sr := InputManager.setOnReleased name handler s in
  snd sp = true
  /\ buttonNamed (fst sp) name = Some (Button.set_onPressed (orNoOp handler) b)
  /\ (forall name', name' <> name ->
        buttonNamed (fst sp) name' = buttonNamed s name')
  /\ snd sr = true
  /\ buttonNamed (fst sr) name = Some (Button.set_onReleased (orNoOp handler) b)
  /\ (forall name', name' <> name ->
        buttonNamed (fst sr) name' = buttonNamed s name').
Proof.
  intros Hinv Hb sp sr. subst sp sr.
  destruct (inv_buttons _ Hinv) as (Hwf & Hnd & _).
  unfold buttonNamed in *.
  unfold InputManager.setOnPressed, InputManager.setOnReleased.
  destruct (JsMap.get (InputManager.buttons s) name) as [r|] eqn:Hget;
    [|discriminate].
  cbn [mbind option_bind] in Hb.
  cbn [fst snd InputManager.modifyRegistered InputManager.buttons
       InputManager.buttonObjs InputManager.set_buttonObjs].
  rewrite Hget. cbn [mbind option_bind]. rewrite !lookup_alter_eq, Hb.
  assert (Hother : forall (f : Button.t -> Button.t) name', name' <> name ->
            JsMap.get (InputManager.buttons s) name'
              ≫= (fun r' => alter f r (InputManager.buttonObjs s) !! r')
            = JsMap.get (InputManager.buttons s) name'
              ≫= (fun r' => InputManager.buttonObjs s !! r')).
  { intros f name' Hne.
    destruct (JsMap.get (InputManager.buttons s) name') as [r'|] eqn:Hget';
      [|reflexivity].
    cbn [mbind option_bind]. rewrite lookup_alter_ne; [reflexivity|].
    intros ->. apply Hne. symmetry.
    apply (JsMap_get_inj _ name name' r' Hwf Hnd Hget Hget'). }
  repeat split; auto.
Qed.

(** The theorem at a manager in menu mode: a handler for "enter". *)
Lemma setOn_then_lookup_witness :
  let s := actAll [Perform EnterMenuMode] InputManager.new in
  let sp := InputManager.setOnPressed "enter" (Some (Handler "ok")) s in
  snd sp = true
  /\ buttonNamed (fst sp) "enter"
     = Some (Button.set_onPressed (Handler "ok") (Button.new "space" (Some 4)))
  /\ buttonNamed (fst sp) "fullscreen" = buttonNamed s "fullscreen".
Proof.
  intros s sp.
  assert (Hinv : inv s) by (apply inv_actAll, inv_new).
  destruct (setOn_then_lookup s "enter" (Some (Handler "ok"))
              (Button.new "space" (Some 4)) Hinv eq_refl)
    as (H1 & H2 & H3 & _).
  split; [exact H1|]. split; [exact H2 | apply H3; discriminate].
Defined.

(** ** The snapshot slot *)

(** The snapshot is a single slot.  A restore empties it, so that a second
    restore, whatever is done in between short of a save, changes nothing
    and logs the diagnostic; a save while a snapshot is outstanding,
    whatever was done since short of a restore, logs the diagnostic; a
    save on an empty slot logs nothing. *)
Theorem snapshot_single_slot (s : InputManager.t) (ops : list Op) :
  let restored := performAll ops (fst (InputManager.restore s)) in
  let saved := performAll ops (fst (InputManager.save s)) in
  InputManager.restore restored
  = (restored, [ConsoleLog "IM: Tried to restore undefined controls"])
  /\ snd (InputManager.save restored) = []
  /\ snd (InputManager.save saved) = [ConsoleLog "IM: Overwriting savedControls"].
Proof.
  intros restored saved.
  assert (Hr : InputManager.savedControls restored = None).
  { unfold restored. rewrite (keeps_saved _ _ (performAll_keeps ops _)).
    unfold InputManager.restore.
    destruct (InputManager.savedControls s) eqn:E; [reflexivity | exact E]. }
  assert (Hs : is_Some (InputManager.savedControls saved)).
  { unfold saved. rewrite (keeps_saved _ _ (performAll_keeps ops _)). simpl. eauto. }
  split; [apply restore_without_snapshot, Hr|].
  unfold InputManager.save. cbn [snd]. rewrite Hr. destruct Hs as [x ->].
  split; reflexivity.
Qed.

(** ** The structure of a step *)

Lemma set_usingKeyboard_same (s : InputManager.t) :
  InputManager.set_usingKeyboard (InputManager.usingKeyboard s) s = s.
Proof. destruct s; reflexivity. Qed.

Lemma set_directionalObjs_same (s : InputManager.t) :
  InputManager.set_directionalObjs (InputManager.directionalObjs s) s = s.
Proof. destruct s; reflexivity. Qed.

Lemma set_buttonObjs_same (s : InputManager.t) :
  InputManager.set_buttonObjs (InputManager.buttonObjs s) s = s.
Proof. destruct s; reflexivity. Qed.

(** A loop of [alter]s of a function that does nothing the second time. *)
Lemma fold_alter_lookup {V : Type} (f : V -> V) (rs : list ref) :
  (forall v, f (f v) = f v) ->
  forall (h : gmap ref V) (r : ref),
    fold_left (fun h r => alter f r h) rs h !! r
    = (if bool_decide (r ∈ rs) then f else id) <$> h !! r.
Proof.
  intros Hf. induction rs as [|r0 rs IH]; intros h r; simpl.
  - destruct (h !! r); reflexivity.
  - rewrite IH, lookup_alter. destruct (decide (r0 = r)) as [->|Hne].
    + rewrite (bool_decide_eq_true_2 (r ∈ r :: rs)) by apply list_elem_of_here.
      destruct (h !! r) as [v|]; simpl; [|reflexivity].
      destruct (bool_decide (r ∈ rs)); simpl; [rewrite Hf|]; reflexivity.
    + rewrite (bool_decide_ext (r ∈ r0 :: rs) (r ∈ rs)); [reflexivity|].
      rewrite elem_of_cons. split; [intros [->|H]; [congruence | exact H] | auto].
Qed.

Lemma fold_modifyDirectional (f : Directional.t -> Directional.t) (rs : list ref) :
  forall s : InputManager.t,
    fold_left (fun s r => InputManager.modifyDirectional r f s) rs s
    = InputManager.set_directionalObjs
        (fold_left (fun h r => alter f r h) rs (InputManager.directionalObjs s)) s.
Proof.
  induction rs as [|r rs IH]; intros s; simpl.
  - symmetry. apply set_directionalObjs_same.
  - rewrite IH. reflexivity.
Qed.

Lemma fold_modifyRegistered (f : Button.t -> Button.t) (rs : list ref) :
  forall s : InputManager.t,
    fold_left (fun s r => InputManager.modifyRegistered r f s) rs s
    = InputManager.set_buttonObjs
        (fold_left (fun h r => alter f r h) rs (InputManager.buttonObjs s)) s.
Proof.
  induction rs as [|r rs IH]; intros s; simpl.
  - symmetry. apply set_buttonObjs_same.
  - rewrite IH. reflexivity.
Qed.

(** ** A poll of a gamepad *)

#[local] Instance flagOnly_refl : Reflexive flagOnly.
Proof. intros s. unfold flagOnly. symmetry. apply set_usingKeyboard_same. Qed.

#[local] Instance flagOnly_trans : Transitive flagOnly.
Proof. intros s1 s2 s3 H12 H23. unfold flagOnly in *. rewrite H23, H12. reflexivity. Qed.

Lemma flagOnly_fold (f : InputManager.t -> ref -> InputManager.t) :
  (forall a b, flagOnly a (f a b)) ->
  forall l a, flagOnly a (fold_left f l a).
Proof. intros Hf l. apply fold_left_rel; [typeclasses eauto.. | exact Hf]. Qed.

Lemma flagOnly_checkAxis (gamepad : Gamepad.t) (ai : option Z)
    (s : InputManager.t) :
  flagOnly s (InputManager.checkAxis gamepad ai s).
Proof.
  unfold InputManager.checkAxis.
  destruct (InputManager.axisReading gamepad ai) as [reading|]; [|reflexivity].
  destruct (negb (reading =? 0)%float); reflexivity.
Qed.

Lemma flagOnly_checkStick (gamepad : Gamepad.t) (s : InputManager.t) (r : ref) :
  flagOnly s (InputManager.checkStick gamepad s r).
Proof.
  unfold InputManager.checkStick.
  destruct (InputManager.directionalObjs s !! r) as [dir|]; [|reflexivity].
  etransitivity; apply flagOnly_checkAxis.
Qed.

Lemma flagOnly_checkButton (gamepad : Gamepad.t) (s : InputManager.t) (r : ref) :
  flagOnly s (InputManager.checkButton gamepad s r).
Proof.
  unfold InputManager.checkButton.
  destruct (InputManager.buttonObjs s !! r) as [but|]; [|reflexivity].
  destruct (InputManager.buttonReading gamepad (Button.gpButtonIndex but))
    as [[|]|]; reflexivity.
Qed.

Lemma readStick_idempotent (gamepad : Gamepad.t) (dir : Directional.t) :
  InputManager.readStick gamepad (InputManager.readStick gamepad dir)
  = InputManager.readStick gamepad dir.
Proof. reflexivity. Qed.

Lemma readGamepadButton_idempotent (gamepad : Gamepad.t) (but : Button.t) :
  InputManager.readGamepadButton gamepad (InputManager.readGamepadButton gamepad but)
  = InputManager.readGamepadButton gamepad but.
Proof.
  unfold InputManager.readGamepadButton.
  destruct (InputManager.buttonReading gamepad (Button.gpButtonIndex but))
    as [c|] eqn:E; simpl; rewrite E; reflexivity.
Qed.

Lemma pollGamepad_cases (gamepad : Gamepad.t) (s : InputManager.t) :
  let s' := InputManager.pollGamepad gamepad s in
  if InputManager.usingKeyboard s' then s' = s
  else (forall name,
          directionalNamed s' name
          = InputManager.readStick gamepad <$> directionalNamed s name)
       /\ (forall name,
             buttonNamed s' name
             = InputManager.readGamepadButton gamepad <$> buttonNamed s name)
       /\ InputManager.directionals s' = InputManager.directionals s
       /\ InputManager.buttons s' = InputManager.buttons s.
Proof.
  intros s'. subst s'. unfold InputManager.pollGamepad. cbv zeta.
  set (s1 := fold_left (InputManager.checkStick gamepad)
               (JsMap.values (InputManager.directionals s)) s).
  set (s2 := fold_left (InputManager.checkButton gamepad)
               (JsMap.values (InputManager.buttons s1)) s1).
  assert (Hfo : flagOnly s s2).
  { transitivity s1; [apply flagOnly_fold, flagOnly_checkStick|].
    apply flagOnly_fold, flagOnly_checkButton. }
  assert (Hmono : InputManager.usingKeyboard s = false ->
                  InputManager.usingKeyboard s2 = false).
  { intros H.
    apply (proj2 (pollKeeps_fold _ (pollKeeps_checkButton gamepad) _ s1)).
    apply (proj2 (pollKeeps_fold _ (pollKeeps_checkStick gamepad) _ s)), H. }
  unfold flagOnly in Hfo.
  destruct (InputManager.usingKeyboard s2) eqn:E; cbn [negb].
  - rewrite E, Hfo.
    destruct (InputManager.usingKeyboard s) eqn:Es; [|discriminate (Hmono eq_refl)].
    rewrite <- Es. apply set_usingKeyboard_same.
  - rewrite fold_modifyRegistered, fold_modifyDirectional.
    cbn [InputManager.usingKeyboard InputManager.set_buttonObjs
         InputManager.set_directionalObjs InputManager.buttons
         InputManager.directionals InputManager.buttonObjs
         InputManager.directionalObjs].
    rewrite E, Hfo.
    cbn [InputManager.set_usingKeyboard InputManager.buttons
         InputManager.directionals InputManager.buttonObjs
         InputManager.directionalObjs].
    unfold directionalNamed, buttonNamed.
    cbn [InputManager.usingKeyboard InputManager.set_buttonObjs
         InputManager.set_directionalObjs InputManager.set_usingKeyboard
         InputManager.buttons InputManager.directionals
         InputManager.buttonObjs InputManager.directionalObjs].
    repeat split.
    + intros name.
      destruct (JsMap.get (InputManager.directionals s) name) as [r|] eqn:Hget;
        [|reflexivity].
      cbn [mbind option_bind].
      rewrite (fold_alter_lookup _ _ (readStick_idempotent gamepad)).
      rewrite bool_decide_eq_true_2 by (eapply JsMap_get_values, Hget).
      reflexivity.
    + intros name.
      destruct (JsMap.get (InputManager.buttons s) name) as [r|] eqn:Hget;
        [|reflexivity].
      cbn [mbind option_bind].
      rewrite (fold_alter_lookup _ _ (readGamepadButton_idempotent gamepad)).
      rewrite bool_decide_eq_true_2 by (eapply JsMap_get_values, Hget).
      reflexivity.
Qed.

(** A poll of a connected gamepad does one of two things.  Either the
    keyboard keeps the controls, and the manager is exactly as it was; or
    the gamepad has them, and under every name the directional has the
    vector read from its stick and the button the status stepped from its
    gamepad button, the maps being as they were. *)
Theorem poll_dichotomy (gamepad : Gamepad.t) (s : InputManager.t) :
  let s' := InputManager.pollGamepad gamepad s in
  if InputManager.usingKeyboard s' then s' = s
  else (forall name,
          directionalNamed s' name
          = InputManager.readStick gamepad <$> directionalNamed s name)
       /\ (forall name,
             buttonNamed s' name
             = InputManager.readGamepadButton gamepad <$> buttonNamed s name)
       /\ InputManager.directionals s' = InputManager.directionals s
       /\ InputManager.buttons s' = InputManager.buttons s.
Proof. apply pollGamepad_cases. Qed.

Lemma fold_left_id {A B : Type} (f : A -> B -> A) (l : list B) (a : A) :
  (forall b, b ∈ l -> f a b = a) -> fold_left f l a = a.
Proof.
  induction l as [|b l IH]; intros H; simpl; [reflexivity|].
  rewrite (H b) by apply list_elem_of_here.
  apply IH. intros b' Hb'. apply H, list_elem_of_further, Hb'.
Qed.

Lemma checkAxis_withinDeadZone (gamepad : Gamepad.t) (ai : option Z)
    (s : InputManager.t) :
  withinDeadZone gamepad ai -> InputManager.checkAxis gamepad ai s = s.
Proof.
  intros Hw. unfold InputManager.checkAxis, InputManager.axisReading.
  destruct ai as [i|]; [|reflexivity].
  destruct (index (Gamepad.axes gamepad) i) as [a|] eqn:Hi; [|reflexivity].
  destruct (truthy a); [|reflexivity].
  unfold InputManager.deadZoneGuard. rewrite (Hw i a eq_refl Hi). reflexivity.
Qed.

Lemma pollGamepad_quiet (gamepad : Gamepad.t) (s : InputManager.t) :
  InputManager.usingKeyboard s = true ->
  quiet gamepad s ->
  InputManager.pollGamepad gamepad s = s.
Proof.
  intros Huk [Hsticks Hbuttons]. unfold InputManager.pollGamepad. cbv zeta.
  rewrite (fold_left_id (InputManager.checkStick gamepad)).
  - rewrite (fold_left_id (InputManager.checkButton gamepad)).
    + rewrite Huk. reflexivity.
    + intros r Hr. unfold InputManager.checkButton.
      destruct (InputManager.buttonObjs s !! r) as [but|] eqn:Hb; [|reflexivity].
      pose proof (Hbuttons r but Hr Hb) as Hq.
      destruct (InputManager.buttonReading gamepad (Button.gpButtonIndex but))
        as [[|]|]; [congruence | reflexivity | reflexivity].
  - intros r Hr. unfold InputManager.checkStick.
    destruct (InputManager.directionalObjs s !! r) as [dir|] eqn:Hd; [|reflexivity].
    destruct (Hsticks r dir Hr Hd) as [Hh Hv].
    rewrite (checkAxis_withinDeadZone _ _ _ Hh).
    apply (checkAxis_withinDeadZone _ _ _ Hv).
Qed.

Lemma getGamepadInput_skipped (gamepads : list (option Gamepad.t))
    (s : InputManager.t) :
  Forall skipped gamepads -> InputManager.getGamepadInput gamepads s = s.
Proof.
  intros H. unfold InputManager.getGamepadInput. apply fold_left_id.
  intros entry Hin. rewrite Forall_forall in H. specialize (H entry Hin).
  destruct entry as [g|]; [|reflexivity]. simpl in H. rewrite H. reflexivity.
Qed.

(** While the keyboard has the controls, a poll in which every gamepad is
    skipped ([null] or not connected) or quiet (no watched stick over the
    dead zone, no watched button active) leaves the manager exactly as it
    was: no vector and no status is overwritten. *)
Theorem idle_gamepads_change_nothing (gamepads : list (option Gamepad.t))
    (s : InputManager.t) :
  InputManager.usingKeyboard s = true ->
  Forall (fun entry =>
            skipped entry \/ exists gamepad, entry = Some gamepad /\ quiet gamepad s)
         gamepads ->
  InputManager.getGamepadInput gamepads s = s.
Proof.
  intros Huk H. unfold InputManager.getGamepadInput. apply fold_left_id.
  intros entry Hin. rewrite Forall_forall in H.
  destruct (H entry Hin) as [Hskip | (g & -> & Hq)].
  - destruct entry as [g|]; [|reflexivity]. simpl in Hskip. rewrite Hskip. reflexivity.
  - destruct (Gamepad.connected g); [|reflexivity].
    apply pollGamepad_quiet; assumption.
Qed.

(** The theorem at a manager in menu mode after a key event, polled with an
    empty slot, a gamepad that is not connected, and a connected one whose
    stick rests within the dead zone. *)
Lemma idle_gamepads_change_nothing_witness :
  let s := actAll [Perform EnterMenuMode; Perform (Keydown "w")] InputManager.new in
  let off := Gamepad.mk false [1%float; 1%float] [] in
  let resting := Gamepad.mk true [0.1%float; (-0.2)%float] [] in
  InputManager.getGamepadInput [None; Some off; Some resting] s = s.
Proof.
  intros s off resting.
  apply idle_gamepads_change_nothing; [reflexivity|].
  constructor; [left; reflexivity|].
  constructor; [left; reflexivity|].
  constructor; [|constructor].
  - right. exists resting. split; [reflexivity|]. split.
    + intros r dir Hr Hd. apply list_elem_of_singleton in Hr. subst r.
      vm_compute in Hd. injection Hd as <-.
      split; intros i a [= <-] Ha; vm_compute in Ha; injection Ha as <-; reflexivity.
    + intros r but Hr Hb Hread.
      unfold InputManager.buttonReading in Hread.
      destruct (Button.gpButtonIndex but) as [i|]; [|discriminate].
      unfold index in Hread. destruct (i <? 0); [discriminate|].
      simpl in Hread. destruct (Z.to_nat i); discriminate.
Defined.

Lemma axisReading_withinDeadZone (gamepad : Gamepad.t) (ai : option Z) :
  withinDeadZone gamepad ai ->
  default 0%float (InputManager.axisReading gamepad ai) = 0%float.
Proof.
  intros Hw. unfold InputManager.axisReading.
  destruct ai as [i|]; [|reflexivity].
  destruct (index (Gamepad.axes gamepad) i) as [a|] eqn:Hi; [|reflexivity].
  destruct (truthy a); [|reflexivity].
  unfold InputManager.deadZoneGuard. rewrite (Hw i a eq_refl Hi). reflexivity.
Qed.

Lemma readStick_withinDeadZone (gamepad : Gamepad.t) (dir : Directional.t) :
  withinDeadZone gamepad (Directional.hAxisIndex dir) ->
  withinDeadZone gamepad (Directional.vAxisIndex dir) ->
  Directional.vec (InputManager.readStick gamepad dir) = Vector.mk 0 0.
Proof.
  intros Hh Hv. unfold InputManager.readStick.
  rewrite (axisReading_withinDeadZone _ _ Hh), (axisReading_withinDeadZone _ _ Hv).
  reflexivity.
Qed.

Lemma poll_keeps_gamepad (gamepad : Gamepad.t) (s : InputManager.t) :
  InputManager.usingKeyboard s = false ->
  InputManager.usingKeyboard (InputManager.pollGamepad gamepad s) = false.
Proof. apply pollKeeps_pollGamepad. Qed.

(** While the gamepad has the controls, a poll of a connected gamepad sets
    the vector of a directional to zero when both of its axes read within
    the dead zone (or are not there): stick drift moves nothing. *)
Theorem deadZone_gives_zero_vector (gamepad : Gamepad.t) (s : InputManager.t)
    (name : string) (dir : Directional.t) :
  Gamepad.connected gamepad = true ->
  InputManager.usingKeyboard s = false ->
  directionalNamed s name = Some dir ->
  withinDeadZone gamepad (Directional.hAxisIndex dir) ->
  withinDeadZone gamepad (Directional.vAxisIndex dir) ->
  InputManager.getDirectionalVec name
    (InputManager.getGamepadInput [Some gamepad] s)
  = Some (Vector.mk 0 0).
Proof.
  intros Hconn Huk Hdir Hh Hv.
  unfold InputManager.getGamepadInput. cbn [fold_left]. rewrite Hconn.
  pose proof (pollGamepad_cases gamepad s) as Hd. cbv zeta in Hd.
  rewrite (poll_keeps_gamepad gamepad s Huk) in Hd.
  destruct Hd as (Hdirs & _).
  specialize (Hdirs name). rewrite Hdir in Hdirs.
  unfold directionalNamed in Hdirs. unfold InputManager.getDirectionalVec.
  destruct (JsMap.get _ name) as [r|]; [|discriminate].
  cbn [mbind option_bind] in Hdirs |- *. rewrite Hdirs.
  cbn [fmap option_fmap option_map]. rewrite (readStick_withinDeadZone _ _ Hh Hv).
  reflexivity.
Qed.

(** The theorem at a manager in menu mode with a gamepad connected, whose
    stick rests within the dead zone. *)
Lemma deadZone_gives_zero_vector_witness :
  let s :=
    actAll [Perform EnterMenuMode; Perform GamepadConnect] InputManager.new in
  let resting := Gamepad.mk true [0.1%float; (-0.05)%float] [] in
  InputManager.getDirectionalVec "navigation"
    (InputManager.getGamepadInput [Some resting] s)
  = Some (Vector.mk 0 0).
Proof.
  intros s resting.
  apply (deadZone_gives_zero_vector resting s "navigation"
           (Directional.new "w" "d" "s" "a" (Some 0) (Some 1)));
    try reflexivity;
    intros i a [= <-] Ha; vm_compute in Ha; injection Ha as <-; reflexivity.
Defined.

(** ** What a step calls, and when *)

Lemma step_eq (gamepads : list (option Gamepad.t)) (s : InputManager.t) :
  InputManager.step gamepads s
  = let acc :=
      fold_left InputManager.stepDirectional
        (JsMap.values (InputManager.directionals s)) (s, []) in
    let s2 := InputManager.getGamepadInput gamepads (fst acc) in
    (InputManager.ageButtons s2, snd acc ++ InputManager.fireAll s2).
Proof.
  unfold InputManager.step.
  destruct (fold_left InputManager.stepDirectional _ (s, [])) as [s1 out].
  reflexivity.
Qed.

Lemma buttonCalls_app (out out' : list Event) :
  buttonCalls (out ++ out') = buttonCalls out ++ buttonCalls out'.
Proof. apply flat_map_app. Qed.

Lemma directionalCalls_app (out out' : list Event) :
  directionalCalls (out ++ out') = directionalCalls out ++ directionalCalls out'.
Proof. apply flat_map_app. Qed.

#[local] Instance dirOnly_refl : Reflexive dirOnly.
Proof.
  intros a. split; [|reflexivity]. symmetry. apply set_directionalObjs_same.
Qed.

#[local] Instance dirOnly_trans : Transitive dirOnly.
Proof.
  intros a1 a2 a3 [H12 C12] [H23 C23]. split; [|congruence].
  rewrite H23, H12. reflexivity.
Qed.

Lemma dirOnly_stepDirectional (acc : InputManager.t * list Event) (r : ref) :
  dirOnly acc (InputManager.stepDirectional acc r).
Proof.
  destruct acc as [s out]. unfold InputManager.stepDirectional.
  destruct (InputManager.directionalObjs s !! r) as [dir|]; [|reflexivity].
  unfold Directional.step.
  destruct (Vector.getMagnitude (Directional.vec dir) =? 0)%float;
    [|destruct (Directional.keyCounter dir =? 0)];
    (split; [reflexivity|]); cbn [snd]; rewrite buttonCalls_app, app_nil_r;
    reflexivity.
Qed.

Lemma dirOnly_stepDirectionals (rs : list ref) (acc : InputManager.t * list Event) :
  dirOnly acc (fold_left InputManager.stepDirectional rs acc).
Proof.
  apply fold_left_rel; [typeclasses eauto.. | apply dirOnly_stepDirectional].
Qed.

Lemma fireAll_registered (s : InputManager.t) :
  InputManager.fireAll s
  = flat_map (fun r => from_option InputManager.fire []
                         (InputManager.buttonObjs s !! r))
      (JsMap.values (InputManager.buttons s)).
Proof.
  unfold InputManager.fireAll. rewrite getAllButtons_registered.
  induction (JsMap.values (InputManager.buttons s)) as [|r rs IH]; simpl;
    [reflexivity | rewrite IH; reflexivity].
Qed.

Lemma fireAll_set_directionalObjs (h : gmap ref Directional.t) (s : InputManager.t) :
  InputManager.fireAll (InputManager.set_directionalObjs h s)
  = InputManager.fireAll s.
Proof. rewrite !fireAll_registered. reflexivity. Qed.

Lemma directionalCalls_fire (b : Button.t) :
  directionalCalls (InputManager.fire b) = [].
Proof.
  unfold InputManager.fire.
  destruct (Status.isPressed _), (Status.isReleased _); reflexivity.
Qed.

Lemma directionalCalls_fireAll (s : InputManager.t) :
  directionalCalls (InputManager.fireAll s) = [].
Proof.
  rewrite fireAll_registered.
  induction (JsMap.values (InputManager.buttons s)) as [|r rs IH]; simpl;
    [reflexivity|].
  rewrite directionalCalls_app, IH, app_nil_r.
  destruct (InputManager.buttonObjs s !! r); [apply directionalCalls_fire | reflexivity].
Qed.

(** The directional callbacks of a step, with their labels, do not depend
    on what the gamepads read during the step: they come from the vectors
    the step finds, before its poll.  A stick moved now is answered by the
    repeat callback at the next step at the earliest. *)
Theorem step_directional_calls_before_poll
    (gamepads gamepads' : list (option Gamepad.t)) (s : InputManager.t) :
  directionalCalls (snd (InputManager.step gamepads s))
  = directionalCalls (snd (InputManager.step gamepads' s)).
Proof.
  rewrite !step_eq. cbv zeta. cbn [snd].
  rewrite !directionalCalls_app, !directionalCalls_fireAll. reflexivity.
Qed.

Lemma fire_age (b : Button.t) : InputManager.fire (Button.age b) = [].
Proof. reflexivity. Qed.

Lemma buttonObjs_ageButtons (s : InputManager.t) (r : ref) :
  r ∈ JsMap.values (InputManager.buttons s) ->
  InputManager.buttonObjs (InputManager.ageButtons s) !! r
  = Button.age <$> InputManager.buttonObjs s !! r.
Proof.
  intros Hr. unfold InputManager.ageButtons. rewrite getAllButtons_registered.
  destruct (age_registered_lookup (JsMap.values (InputManager.buttons s)) s r)
    as [-> _].
  rewrite bool_decide_eq_true_2 by exact Hr. reflexivity.
Qed.

Lemma fireAll_ageButtons (s : InputManager.t) :
  InputManager.fireAll (InputManager.ageButtons s) = [].
Proof.
  rewrite fireAll_registered, (same_buttons _ _ (sameControls_ageButtons s)).
  assert (H : forall r, r ∈ JsMap.values (InputManager.buttons s) ->
            from_option InputManager.fire []
              (InputManager.buttonObjs (InputManager.ageButtons s) !! r) = []).
  { intros r Hr. rewrite (buttonObjs_ageButtons s r Hr).
    destruct (InputManager.buttonObjs s !! r); reflexivity. }
  induction (JsMap.values (InputManager.buttons s)) as [|r rs IH]; simpl;
    [reflexivity|].
  rewrite (H r) by apply list_elem_of_here.
  apply IH. intros r' Hr'. apply H, list_elem_of_further, Hr'.
Qed.

(** Edges last one step.  After any step, a step during which no gamepad
    is polled (each is [null] or not connected), with no key event in
    between, calls no button callback: every press and release has been
    answered once. *)
Theorem edges_answered_once (gamepads gamepads' : list (option Gamepad.t))
    (s : InputManager.t) :
  Forall skipped gamepads' ->
  buttonCalls
    (snd (InputManager.step gamepads' (fst (InputManager.step gamepads s))))
  = [].
Proof.
  intros Hskip.
  set (s' := fst (InputManager.step gamepads s)).
  assert (Hs' : InputManager.fireAll s' = []).
  { unfold s'. rewrite step_eq. cbv zeta. cbn [fst]. apply fireAll_ageButtons. }
  rewrite step_eq. cbv zeta. cbn [snd].
  rewrite (getGamepadInput_skipped _ _ Hskip).
  destruct (dirOnly_stepDirectionals
              (JsMap.values (InputManager.directionals s')) (s', [])) as [Hfst Hcalls].
  rewrite buttonCalls_app, Hcalls, Hfst, fireAll_set_directionalObjs.
  cbn [fst snd]. rewrite Hs'. reflexivity.
Qed.

(** The theorem at a manager whose button "jump" was pressed before the
    first of the two steps. *)
Lemma edges_answered_once_witness :
  let s :=
    actAll [Perform (RegisterButton "jump" "j" None); Perform (Keydown "j")]
      InputManager.new in
  buttonCalls (snd (InputManager.step [] s)) = [noOp]
  /\ buttonCalls
       (snd (InputManager.step [None] (fst (InputManager.step [] s)))) = [].
Proof.
  intros s. split; [reflexivity|].
  apply edges_answered_once. constructor; [exact I | constructor].
Defined.

(** ** Key events *)

Lemma alter_lookup_Some {V : Type} (f : V -> V) (h : gmap ref V) (r : ref) (v : V) :
  h !! r = Some v -> alter f r h = <[r := f v]> h.
Proof.
  intros Hr. apply map_eq. intros r'.
  destruct (decide (r = r')) as [<-|Hne].
  - rewrite lookup_alter_eq, lookup_insert_eq, Hr. reflexivity.
  - rewrite lookup_alter_ne, lookup_insert_ne by exact Hne. reflexivity.
Qed.

Lemma alter_lookup_None {V : Type} (f : V -> V) (h : gmap ref V) (r : ref) :
  h !! r = None -> alter f r h = h.
Proof.
  intros Hr. apply map_eq. intros r'.
  destruct (decide (r = r')) as [<-|Hne].
  - rewrite lookup_alter_eq, Hr. reflexivity.
  - rewrite lookup_alter_ne by exact Hne. reflexivity.
Qed.

Lemma fold_alter_lookup_NoDup {V : Type} (f : V -> V) (rs : list ref) :
  NoDup rs ->
  forall (h : gmap ref V) (r : ref),
    fold_left (fun h r => alter f r h) rs h !! r
    = (if bool_decide (r ∈ rs) then f else id) <$> h !! r.
Proof.
  induction 1 as [|r0 rs Hr0 Hnd IH]; intros h r; simpl.
  - destruct (h !! r); reflexivity.
  - rewrite IH, lookup_alter. destruct (decide (r0 = r)) as [->|Hne].
    + rewrite (bool_decide_eq_true_2 (r ∈ r :: rs)) by apply list_elem_of_here.
      rewrite (bool_decide_eq_false_2 (r ∈ rs)) by exact Hr0.
      destruct (h !! r); reflexivity.
    + rewrite (bool_decide_ext (r ∈ r0 :: rs) (r ∈ rs)); [reflexivity|].
      rewrite elem_of_cons. split; [intros [->|H]; [congruence | exact H] | auto].
Qed.

(** The button loop of a key handler alters the button objects one by
    one. *)
Lemma keyButtons_fold (act : Button.t -> Button.t) (key : string) (rs : list ref) :
  forall (s : InputManager.t) (out : list Event),
    fst (fold_left (InputManager.keyButtons act key) rs (s, out))
    = InputManager.set_buttonObjs
        (fold_left (fun h r => alter (keyOnButton act key) r h) rs
           (InputManager.buttonObjs s)) s.
Proof.
  induction rs as [|r rs IH]; intros s out; simpl.
  - symmetry. apply set_buttonObjs_same.
  - destruct (InputManager.buttonObjs s !! r) as [but|] eqn:Hr.
    + rewrite (alter_lookup_Some _ _ _ _ Hr). unfold keyOnButton.
      destruct (String.eqb key (Button.key but)).
      * rewrite IH. reflexivity.
      * rewrite (insert_id _ _ _ Hr). apply IH.
    + rewrite (alter_lookup_None _ _ _ Hr). apply IH.
Qed.

(** The stick loop of a key handler alters the directional objects one by
    one. *)
Lemma keySticks_fold (act : Button.t -> Button.t) (key : string) (rs : list ref) :
  forall (s : InputManager.t) (out : list Event),
    fst (fold_left (InputManager.keySticks act key) rs (s, out))
    = InputManager.set_directionalObjs
        (fold_left
           (fun h r =>
              alter (fun d => fst (InputManager.keyDirectional act key d)) r h)
           rs (InputManager.directionalObjs s)) s.
Proof.
  induction rs as [|r rs IH]; intros s out; simpl.
  - symmetry. apply set_directionalObjs_same.
  - destruct (InputManager.directionalObjs s !! r) as [dir|] eqn:Hr.
    + rewrite (alter_lookup_Some _ _ _ _ Hr).
      destruct (InputManager.keyDirectional act key dir) as [dir' out'].
      rewrite IH. reflexivity.
    + rewrite (alter_lookup_None _ _ _ Hr). apply IH.
Qed.

Lemma keyHandler_objs (act : Button.t -> Button.t) (key : string)
    (s : InputManager.t) :
  let s' := fst (InputManager.keyHandler act key s) in
  InputManager.buttons s' = InputManager.buttons s
  /\ InputManager.directionals s' = InputManager.directionals s
  /\ InputManager.buttonObjs s'
     = fold_left (fun h r => alter (keyOnButton act key) r h)
         (JsMap.values (InputManager.buttons s)) (InputManager.buttonObjs s)
  /\ InputManager.directionalObjs s'
     = fold_left
         (fun h r =>
            alter (fun d => fst (InputManager.keyDirectional act key d)) r h)
         (JsMap.values (InputManager.directionals s))
         (InputManager.directionalObjs s).
Proof.
  unfold InputManager.keyHandler. cbv zeta.
  destruct (fold_left (InputManager.keySticks act key) _ _) as [s1 out1] eqn:H1.
  pose proof (keySticks_fold act key
                (JsMap.values (InputManager.directionals s))
                (InputManager.set_usingKeyboard true s) []) as Hs1.
  change (InputManager.directionals (InputManager.set_usingKeyboard true s))
    with (InputManager.directionals s) in H1.
  rewrite H1 in Hs1. cbn [fst] in Hs1. rewrite keyButtons_fold. subst s1.
  repeat split.
Qed.

Lemma key_event_lookup (act : Button.t -> Button.t) (key : string)
    (s : InputManager.t) :
  inv s ->
  let s' := fst (InputManager.keyHandler act key s) in
  (forall name, buttonNamed s' name = keyOnButton act key <$> buttonNamed s name)
  /\ (forall name,
        directionalNamed s' name
        = (fun d => fst (InputManager.keyDirectional act key d))
            <$> directionalNamed s name).
Proof.
  intros Hinv s'. destruct (keyHandler_objs act key s) as (Hb & Hd & Hbo & Hdo).
  fold s' in Hb, Hd, Hbo, Hdo.
  destruct (inv_buttons _ Hinv) as (_ & Hnb & _).
  destruct (inv_directionals _ Hinv) as (_ & Hndd & _).
  split; intros name.
  - unfold buttonNamed. rewrite Hb, Hbo.
    destruct (JsMap.get (InputManager.buttons s) name) as [r|] eqn:Hget;
      [|reflexivity].
    cbn [mbind option_bind]. rewrite (fold_alter_lookup_NoDup _ _ Hnb).
    rewrite bool_decide_eq_true_2 by (eapply JsMap_get_values, Hget).
    reflexivity.
  - unfold directionalNamed. rewrite Hd, Hdo.
    destruct (JsMap.get (InputManager.directionals s) name) as [r|] eqn:Hget;
      [|reflexivity].
    cbn [mbind option_bind]. rewrite (fold_alter_lookup_NoDup _ _ Hndd).
    rewrite bool_decide_eq_true_2 by (eapply JsMap_get_values, Hget).
    reflexivity.
Qed.

(** A key event reaches every control by its name.  In a state the manager
    can be in, after [keydownHandler] the button of a name is the button
    it was, with [down()] called if the key is its key; a directional is
    the directional it was after the loop over its four sides; and
    [keyupHandler] does the same with [up()]. *)
Theorem key_event_on_controls (key : string) (s : InputManager.t) :
  inv s ->
  let sd := fst (InputManager.keydownHandler key s) in
  let su := fst (InputManager.keyupHandler key s) in
  (forall name,
     buttonNamed sd name = keyOnButton Button.down key <$> buttonNamed s name)
  /\ (forall name,
        directionalNamed sd name
        = (fun d => fst (InputManager.keyDirectional Button.down key d))
            <$> directionalNamed s name)
  /\ (forall name,
        buttonNamed su name = keyOnButton Button.up key <$> buttonNamed s name)
  /\ (forall name,
        directionalNamed su name
        = (fun d => fst (InputManager.keyDirectional Button.up key d))
            <$> directionalNamed s name).
Proof.
  intros Hinv sd su.
  destruct (key_event_lookup Button.down key s Hinv) as [H1 H2].
  destruct (key_event_lookup Button.up key s Hinv) as [H3 H4].
  split; [exact H1|]. split; [exact H2|]. split; [exact H3 | exact H4].
Qed.

(** The theorem at a manager with the buttons "jump" on [j] and "duck" on
    [k]: the key [j] presses "jump" and leaves "duck" alone. *)
Lemma key_event_on_controls_witness :
  let s :=
    actAll [Perform (RegisterButton "jump" "j" None);
            Perform (RegisterButton "duck" "k" None)] InputManager.new in
  let sd := fst (InputManager.keydownHandler "j" s) in
  buttonNamed sd "jump" = Some (Button.down (Button.new "j" None))
  /\ buttonNamed sd "duck" = Some (Button.new "k" None).
Proof.
  intros s sd.
  assert (Hinv : inv s) by apply inv_actAll, inv_new.
  destruct (key_event_on_controls "j" s Hinv) as (H & _).
  subst sd. split; [rewrite (H "jump") | rewrite (H "duck")]; reflexivity.
Defined.

(** What the loop over the four sides of a directional comes to. *)
Lemma keyDirectional_cases (act : Button.t -> Button.t) (key : string)
    (d : Directional.t) :
  let d' := fst (InputManager.keyDirectional act key d) in
  (forall side,
     Directional.button side d' = keyOnButton act key (Directional.button side d))
  /\ (if existsb (sideHasKey key d) Directional.sides
      then d' = Directional.setVecFromButtons d'
      else d' = d)
  /\ snd (InputManager.keyDirectional act key d)
     = repeat PreventDefault
         (length (filter (fun side => sideHasKey key d side = true)
                    Directional.sides)).
Proof.
  destruct d as [ub rb db lb h v vec fn kd kr kc].
  unfold InputManager.keyDirectional, InputManager.keySide, sideHasKey,
    keyOnButton, Directional.sides.
  cbn [fold_left existsb filter list_filter Directional.button
       Directional.upButton Directional.rightButton Directional.downButton
       Directional.leftButton].
  destruct (String.eqb key (Button.key ub)) eqn:Hu;
    cbn [Directional.button Directional.set_button Directional.setVecFromButtons
         Directional.set_vec Directional.upButton Directional.rightButton
         Directional.downButton Directional.leftButton];
    destruct (String.eqb key (Button.key rb)) eqn:Hr;
    cbn [Directional.button Directional.set_button Directional.setVecFromButtons
         Directional.set_vec Directional.upButton Directional.rightButton
         Directional.downButton Directional.leftButton];
    destruct (String.eqb key (Button.key db)) eqn:Hd;
    cbn [Directional.button Directional.set_button Directional.setVecFromButtons
         Directional.set_vec Directional.upButton Directional.rightButton
         Directional.downButton Directional.leftButton];
    destruct (String.eqb key (Button.key lb)) eqn:Hl;
    (split; [intros []; cbn; rewrite ?Hu, ?Hr, ?Hd, ?Hl; reflexivity|]);
    (split; [reflexivity|]);
    repeat (rewrite decide_True by reflexivity
            || rewrite decide_False by discriminate);
    reflexivity.
Qed.

(** A key event on one directional.  Each side whose key it is has [act]
    called on its button, the others are left alone; if the key is the key
    of some side, the vector is afterwards the one [setVecFromButtons]
    computes from the four buttons as they are then, otherwise nothing
    changes; and the default is prevented once for each side with this
    key. *)
Theorem key_event_on_directional (act : Button.t -> Button.t) (key : string)
    (d : Directional.t) :
  let d' := fst (InputManager.keyDirectional act key d) in
  (forall side,
     Directional.button side d' = keyOnButton act key (Directional.button side d))
  /\ (if existsb (sideHasKey key d) Directional.sides
      then d' = Directional.setVecFromButtons d'
      else d' = d)
  /\ snd (InputManager.keyDirectional act key d)
     = repeat PreventDefault
         (length (filter (fun side => sideHasKey key d side = true)
                    Directional.sides)).
Proof. apply keyDirectional_cases. Qed.

Lemma keyDirectional_unbound (act : Button.t -> Button.t) (key : string)
    (d : Directional.t) :
  (forall side, sideHasKey key d side = false) ->
  InputManager.keyDirectional act key d = (d, []).
Proof.
  intros H. unfold InputManager.keyDirectional, InputManager.keySide,
    Directional.sides. cbn [fold_left].
  pose proof (H Label.up) as Hu. pose proof (H Label.right) as Hr.
  pose proof (H Label.down) as Hd. pose proof (H Label.left) as Hl.
  unfold sideHasKey in Hu, Hr, Hd, Hl. rewrite Hu, Hr, Hd, Hl. reflexivity.
Qed.

Lemma keyDirectional_emits (act : Button.t -> Button.t) (key : string)
    (d : Directional.t) (side : Label.t) :
  sideHasKey key d side = true ->
  PreventDefault ∈ snd (InputManager.keyDirectional act key d).
Proof.
  intros H. destruct (keyDirectional_cases act key d) as (_ & _ & ->).
  assert (Hin : side ∈ filter (fun side => sideHasKey key d side = true)
                         Directional.sides).
  { apply list_elem_of_filter. split; [exact H|].
    destruct side; unfold Directional.sides; set_solver. }
  destruct (filter _ Directional.sides) as [|x l]; [inversion Hin|].
  apply list_elem_of_here.
Qed.

Lemma keyDirectional_events (act : Button.t -> Button.t) (key : string)
    (d : Directional.t) :
  Forall (eq PreventDefault) (snd (InputManager.keyDirectional act key d)).
Proof.
  destruct (keyDirectional_cases act key d) as (_ & _ & ->).
  induction (length _) as [|n IH]; constructor; [reflexivity | exact IH].
Qed.

(** The two loops of a key handler, when no control they visit has the
    key. *)
Lemma keySticks_unbound (act : Button.t -> Button.t) (key : string)
    (rs : list ref) (s : InputManager.t) (out : list Event) :
  (forall r d side, r ∈ rs -> InputManager.directionalObjs s !! r = Some d ->
                    sideHasKey key d side = false) ->
  fold_left (InputManager.keySticks act key) rs (s, out) = (s, out).
Proof.
  induction rs as [|r rs IH]; intros H; [reflexivity|]. cbn [fold_left].
  assert (Hstep : InputManager.keySticks act key (s, out) r = (s, out)).
  { unfold InputManager.keySticks.
    destruct (InputManager.directionalObjs s !! r) as [d|] eqn:Hr; [|reflexivity].
    rewrite keyDirectional_unbound
      by (intros side; apply (H r d side); [apply list_elem_of_here | exact Hr]).
    rewrite (insert_id _ _ _ Hr), set_directionalObjs_same, app_nil_r.
    reflexivity. }
  rewrite Hstep. apply IH. intros r' d side Hin. apply H, list_elem_of_further, Hin.
Qed.

Lemma keyButtons_unbound (act : Button.t -> Button.t) (key : string)
    (rs : list ref) (s : InputManager.t) (out : list Event) :
  (forall r b, r ∈ rs -> InputManager.buttonObjs s !! r = Some b ->
               String.eqb key (Button.key b) = false) ->
  fold_left (InputManager.keyButtons act key) rs (s, out) = (s, out).
Proof.
  induction rs as [|r rs IH]; intros H; [reflexivity|]. cbn [fold_left].
  assert (Hstep : InputManager.keyButtons act key (s, out) r = (s, out)).
  { unfold InputManager.keyButtons.
    destruct (InputManager.buttonObjs s !! r) as [b|] eqn:Hr; [|reflexivity].
    rewrite (H r b (list_elem_of_here _ _) Hr). reflexivity. }
  rewrite Hstep. apply IH. intros r' b Hin. apply H, list_elem_of_further, Hin.
Qed.

(** The two loops of a key handler prevent the default once they visit a
    control with the key, and never take an event back. *)
Lemma keySticks_emits (act : Button.t -> Button.t) (key : string) (rs : list ref) :
  forall (s : InputManager.t) (out : list Event),
    PreventDefault ∈ out
    \/ (exists r d side,
          r ∈ rs /\ InputManager.directionalObjs s !! r = Some d
          /\ sideHasKey key d side = true) ->
    PreventDefault ∈ snd (fold_left (InputManager.keySticks act key) rs (s, out)).
Proof.
  induction rs as [|r0 rs IH]; intros s out H; cbn [fold_left].
  - destruct H as [H | (r & _ & _ & Hin & _)]; [exact H | inversion Hin].
  - unfold InputManager.keySticks at 2.
    destruct (InputManager.directionalObjs s !! r0) as [d0|] eqn:Hr0.
    + destruct (InputManager.keyDirectional act key d0) as [d0' out0] eqn:Hk.
      apply IH. destruct H as [H | (r & d & side & Hin & Hr & Hside)].
      * left. apply elem_of_app. left. exact H.
      * destruct (decide (r = r0)) as [->|Hne].
        -- left. apply elem_of_app. right.
           replace d with d0 in Hside by congruence.
           pose proof (keyDirectional_emits act key d0 side Hside) as He.
           rewrite Hk in He. exact He.
        -- right. exists r, d, side. split; [|split; [|exact Hside]].
           ++ apply elem_of_cons in Hin as [?|Hin]; [congruence | exact Hin].
           ++ cbn [InputManager.directionalObjs InputManager.set_directionalObjs].
              rewrite lookup_insert_ne by congruence. exact Hr.
    + apply IH. destruct H as [H | (r & d & side & Hin & Hr & Hside)];
        [left; exact H|].
      right. exists r, d, side. split; [|split; [exact Hr | exact Hside]].
      apply elem_of_cons in Hin as [->|Hin]; [congruence | exact Hin].
Qed.

Lemma keyButtons_emits (act : Button.t -> Button.t) (key : string) (rs : list ref) :
  forall (s : InputManager.t) (out : list Event),
    PreventDefault ∈ out
    \/ (exists r b,
          r ∈ rs /\ InputManager.buttonObjs s !! r = Some b
          /\ String.eqb key (Button.key b) = true) ->
    PreventDefault ∈ snd (fold_left (InputManager.keyButtons act key) rs (s, out)).
Proof.
  induction rs as [|r0 rs IH]; intros s out H; cbn [fold_left].
  - destruct H as [H | (r & _ & Hin & _)]; [exact H | inversion Hin].
  - unfold InputManager.keyButtons at 2.
    destruct (InputManager.buttonObjs s !! r0) as [b0|] eqn:Hr0.
    + destruct (String.eqb key (Button.key b0)) eqn:Hk0.
      * apply IH. left. apply elem_of_app. right. apply list_elem_of_here.
      * apply IH. destruct H as [H | (r & b & Hin & Hr & Hk)]; [left; exact H|].
        right. exists r, b. split; [|split; [exact Hr | exact Hk]].
        apply elem_of_cons in Hin as [->|Hin]; [congruence | exact Hin].
    + apply IH. destruct H as [H | (r & b & Hin & Hr & Hk)]; [left; exact H|].
      right. exists r, b. split; [|split; [exact Hr | exact Hk]].
      apply elem_of_cons in Hin as [->|Hin]; [congruence | exact Hin].
Qed.

Lemma keySticks_events (act : Button.t -> Button.t) (key : string) (rs : list ref) :
  forall acc : InputManager.t * list Event,
    Forall (eq PreventDefault) (snd acc) ->
    Forall (eq PreventDefault)
      (snd (fold_left (InputManager.keySticks act key) rs acc)).
Proof.
  induction rs as [|r rs IH]; intros [s out] H; cbn [fold_left]; [exact H|].
  apply IH. unfold InputManager.keySticks.
  destruct (InputManager.directionalObjs s !! r) as [d|]; [|exact H].
  pose proof (keyDirectional_events act key d) as Hd.
  destruct (InputManager.keyDirectional act key d) as [d' out'].
  apply Forall_app. split; [exact H | exact Hd].
Qed.

Lemma keyButtons_events (act : Button.t -> Button.t) (key : string) (rs : list ref) :
  forall acc : InputManager.t * list Event,
    Forall (eq PreventDefault) (snd acc) ->
    Forall (eq PreventDefault)
      (snd (fold_left (InputManager.keyButtons act key) rs acc)).
Proof.
  induction rs as [|r rs IH]; intros [s out] H; cbn [fold_left]; [exact H|].
  apply IH. unfold InputManager.keyButtons.
  destruct (InputManager.buttonObjs s !! r) as [b|]; [|exact H].
  destruct (String.eqb key (Button.key b)); [|exact H].
  apply Forall_app. split; [exact H | repeat constructor].
Qed.

Lemma keyHandler_unbound (act : Button.t -> Button.t) (key : string)
    (s : InputManager.t) :
  ~ boundKey key s ->
  InputManager.keyHandler act key s = (InputManager.set_usingKeyboard true s, []).
Proof.
  intros Hnot. unfold InputManager.keyHandler. cbv zeta.
  rewrite keySticks_unbound.
  - cbn [fst]. apply keyButtons_unbound. intros r b Hin Hr.
    destruct (String.eqb_spec key (Button.key b)) as [->|]; [|reflexivity].
    exfalso. apply Hnot. left. exists r, b. auto.
  - intros r d side Hin Hr. unfold sideHasKey.
    destruct (String.eqb_spec key (Button.key (Directional.button side d)))
      as [->|]; [|reflexivity].
    exfalso. apply Hnot. right. exists r, d, side. auto.
Qed.

Lemma keyHandler_bound (act : Button.t -> Button.t) (key : string)
    (s : InputManager.t) :
  boundKey key s -> PreventDefault ∈ snd (InputManager.keyHandler act key s).
Proof.
  intros Hb. unfold InputManager.keyHandler. cbv zeta.
  destruct (fold_left (InputManager.keySticks act key) _ _) as [s1 out1] eqn:H1.
  pose proof (keySticks_fold act key
                (JsMap.values (InputManager.directionals s))
                (InputManager.set_usingKeyboard true s) []) as Hs1.
  change (InputManager.directionals (InputManager.set_usingKeyboard true s))
    with (InputManager.directionals s) in H1.
  rewrite H1 in Hs1. cbn [fst] in Hs1.
  apply keyButtons_emits. destruct Hb as [(r & b & Hin & Hr & Hk)
                                         | (r & d & side & Hin & Hr & Hk)].
  - right. exists r, b. subst s1. split; [exact Hin|]. split; [exact Hr|].
    rewrite Hk. apply String.eqb_refl.
  - left.
    pose proof (keySticks_emits act key
                  (JsMap.values (InputManager.directionals s))
                  (InputManager.set_usingKeyboard true s) []) as He.
    rewrite H1 in He. apply He. right. exists r, d, side.
    split; [exact Hin|]. split; [exact Hr|].
    unfold sideHasKey. rewrite Hk. apply String.eqb_refl.
Qed.

Lemma keyHandler_events (act : Button.t -> Button.t) (key : string)
    (s : InputManager.t) :
  Forall (eq PreventDefault) (snd (InputManager.keyHandler act key s)).
Proof.
  unfold InputManager.keyHandler. cbv zeta.
  apply keyButtons_events, keySticks_events. constructor.
Qed.

Lemma keyHandler_silent_iff (act : Button.t -> Button.t) (key : string)
    (s : InputManager.t) :
  snd (InputManager.keyHandler act key s) = [] <-> ~ boundKey key s.
Proof.
  split.
  - intros Hnil Hb. apply (keyHandler_bound act) in Hb. rewrite Hnil in Hb.
    inversion Hb.
  - intros Hnot. rewrite (keyHandler_unbound act key s Hnot). reflexivity.
Qed.

(** The key handlers prevent the default of an event exactly when its key
    is bound.  They emit nothing but [preventDefault()]; they emit nothing
    at all if and only if no registered button and no side of a registered
    directional has the key; and the event of such a key changes nothing
    but [usingKeyboard], which it sets. *)
Theorem key_default_prevented_iff_bound (key : string) (s : InputManager.t) :
  Forall (eq PreventDefault) (snd (InputManager.keydownHandler key s))
  /\ Forall (eq PreventDefault) (snd (InputManager.keyupHandler key s))
  /\ (snd (InputManager.keydownHandler key s) = [] <-> ~ boundKey key s)
  /\ (snd (InputManager.keyupHandler key s) = [] <-> ~ boundKey key s)
  /\ (~ boundKey key s ->
      fst (InputManager.keydownHandler key s)
      = InputManager.set_usingKeyboard true s
      /\ fst (InputManager.keyupHandler key s)
         = InputManager.set_usingKeyboard true s).
Proof.
  split; [apply keyHandler_events|]. split; [apply keyHandler_events|].
  split; [apply keyHandler_silent_iff|]. split; [apply keyHandler_silent_iff|].
  intros Hnot. unfold InputManager.keydownHandler, InputManager.keyupHandler.
  rewrite !(keyHandler_unbound _ key s Hnot). split; reflexivity.
Qed.

(** ** Mouse functions *)

#[local] Instance mouseKept_refl : Reflexive mouseKept.
Proof. intros s. split; reflexivity. Qed.

#[local] Instance mouseKept_trans : Transitive mouseKept.
Proof. intros s1 s2 s3 [H1 H2] [H3 H4]. split; congruence. Qed.

Lemma mouseKept_fold {B : Type} (f : InputManager.t -> B -> InputManager.t) :
  (forall a b, mouseKept a (f a b)) ->
  forall l a, mouseKept a (fold_left f l a).
Proof. intros Hf l. apply fold_left_rel; [typeclasses eauto.. | exact Hf]. Qed.

Lemma mouseKept_pollGamepad (gamepad : Gamepad.t) (s : InputManager.t) :
  mouseKept s (InputManager.pollGamepad gamepad s).
Proof.
  unfold InputManager.pollGamepad. cbv zeta.
  set (s1 := fold_left (InputManager.checkStick gamepad) _ s).
  assert (H1 : mouseKept s s1).
  { apply mouseKept_fold. intros a r. unfold InputManager.checkStick.
    destruct (InputManager.directionalObjs a !! r); [|reflexivity].
    unfold InputManager.checkAxis.
    repeat match goal with
           | |- context [match ?x with _ => _ end] => destruct x
           end; split; reflexivity. }
  clearbody s1.
  set (s2 := fold_left (InputManager.checkButton gamepad) _ s1).
  assert (H2 : mouseKept s1 s2).
  { apply mouseKept_fold. intros a r. unfold InputManager.checkButton.
    repeat match goal with
           | |- context [match ?x with _ => _ end] => destruct x
           end; split; reflexivity. }
  clearbody s2. etransitivity; [exact H1|]. etransitivity; [exact H2|].
  destruct (negb (InputManager.usingKeyboard s2)); [|reflexivity].
  rewrite fold_modifyRegistered, fold_modifyDirectional. split; reflexivity.
Qed.

Lemma mouseKept_step (gamepads : list (option Gamepad.t)) (s : InputManager.t) :
  mouseKept s (fst (InputManager.step gamepads s)).
Proof.
  rewrite step_eq. cbv zeta. cbn [fst].
  destruct (dirOnly_stepDirectionals
              (JsMap.values (InputManager.directionals s)) (s, [])) as [Hfst _].
  set (s1 := fst (fold_left InputManager.stepDirectional _ (s, []))) in *.
  cbn [fst] in Hfst.
  assert (H1 : mouseKept s s1) by (rewrite Hfst; split; reflexivity).
  clearbody s1. etransitivity; [exact H1|].
  transitivity (InputManager.getGamepadInput gamepads s1).
  - unfold InputManager.getGamepadInput. apply mouseKept_fold.
    intros a [gamepad|]; [|reflexivity].
    destruct (Gamepad.connected gamepad); [apply mouseKept_pollGamepad | reflexivity].
  - unfold InputManager.ageButtons. apply mouseKept_fold.
    intros a [r|d side]; split; reflexivity.
Qed.

Lemma mouseKept_keyHandler (act : Button.t -> Button.t) (key : string)
    (s : InputManager.t) :
  mouseKept s (fst (InputManager.keyHandler act key s)).
Proof.
  unfold InputManager.keyHandler. cbv zeta.
  destruct (fold_left (InputManager.keySticks act key) _ _) as [s1 out1] eqn:H1.
  pose proof (keySticks_fold act key
                (JsMap.values (InputManager.directionals
                                 (InputManager.set_usingKeyboard true s)))
                (InputManager.set_usingKeyboard true s) []) as Hs1.
  rewrite H1 in Hs1. cbn [fst] in Hs1. rewrite keyButtons_fold. subst s1.
  split; reflexivity.
Qed.

Lemma mouseKept_act (a : Action) (s : InputManager.t) :
  noMouseSetter a -> mouseKept s (act a s).
Proof.
  destruct a as [op| |]; cbn [act].
  - destruct op; cbn [noMouseSetter perform]; intros H; try contradiction;
      try (split; reflexivity).
    + unfold InputManager.setOnPressed.
      destruct (JsMap.get _ _); split; reflexivity.
    + unfold InputManager.setOnReleased.
      destruct (JsMap.get _ _); split; reflexivity.
    + unfold InputManager.setDirectionalFunction.
      destruct (JsMap.get _ _); split; reflexivity.
    + apply mouseKept_keyHandler.
    + apply mouseKept_keyHandler.
    + apply mouseKept_step.
  - intros _. split; reflexivity.
  - intros _. unfold InputManager.restore.
    destruct (InputManager.savedControls s); split; reflexivity.
Qed.

Lemma mouseKept_actAll (actions : list Action) :
  forall s, Forall noMouseSetter actions -> mouseKept s (actAll actions s).
Proof.
  induction actions as [|a actions IH]; intros s H; [reflexivity|].
  apply Forall_cons in H as [Ha H]. unfold actAll. cbn [fold_left].
  etransitivity; [apply (mouseKept_act a s Ha) | apply IH, H].
Qed.

(** The mouse functions and the context-menu flag are no controls: nothing
    but their own setters changes them.  Through any run of operations
    without a call of [setMouseDown], [setMouseUp], [setMouseMove] or
    [suppressContextMenu] (through [unregisterAll], [startUp],
    [enterMenuMode], [save] and [restore] among them) the mouse handlers
    call the functions they called before, and [contextmenuHandler]
    answers as before. *)
Theorem mouse_functions_outlive_controls (actions : list Action)
    (s : InputManager.t) (e : MouseEvent.t) :
  Forall noMouseSetter actions ->
  let s' := actAll actions s in
  snd (InputManager.mousedownHandler e s') = snd (InputManager.mousedownHandler e s)
  /\ snd (InputManager.mouseupHandler e s') = snd (InputManager.mouseupHandler e s)
  /\ snd (InputManager.mousemoveHandler e s')
     = snd (InputManager.mousemoveHandler e s)
  /\ InputManager.contextmenuHandler s' = InputManager.contextmenuHandler s.
Proof.
  intros H s'. destruct (mouseKept_actAll actions s H) as [Hm Hc]. fold s' in Hm, Hc.
  unfold InputManager.mousedownHandler, InputManager.mouseupHandler,
    InputManager.mousemoveHandler, InputManager.contextmenuHandler.
  cbn [snd]. rewrite Hm, Hc. repeat split.
Qed.

(** The theorem at a manager whose mouse-down function was set before the
    controls were dropped, menu mode entered and a snapshot restored. *)
Lemma mouse_functions_outlive_controls_witness :
  let s :=
    InputManager.suppressContextMenu true
      (InputManager.setMouseDown (Some (Handler "shoot")) InputManager.new) in
  let e := MouseEvent.mk 1 1 0 false in
  let s' :=
    actAll [Save; Perform UnregisterAll; Perform EnterMenuMode; Restore;
            Perform StartUp] s in
  snd (InputManager.mousedownHandler e s') = [InvokeMouse (Handler "shoot") e]
  /\ InputManager.contextmenuHandler s' = (false, [PreventDefault]).
Proof.
  intros s e s'.
  assert (H : Forall noMouseSetter
                [Save; Perform UnregisterAll; Perform EnterMenuMode; Restore;
                 Perform StartUp]) by (repeat constructor).
  destruct (mouse_functions_outlive_controls _ s e H) as (H1 & _ & _ & H2).
  split; [exact H1 | exact H2].
Defined.

(** * Further properties of the room editor *)

(** ** Searches *)

Lemma find_firstOf {A : Type} (f : A -> bool) (l : list A) (x : A) :
  find f l = Some x -> firstOf f l x.
Proof.
  induction l as [|y l IH]; simpl; [discriminate|].
  destruct (f y) eqn:Hy.
  - intros [= ->]. exists [], l. split; [reflexivity|]. split; [exact Hy | constructor].
  - intros H. destruct (IH H) as (l1 & l2 & -> & Hx & Hl1).
    exists (y :: l1), l2. split; [reflexivity|]. split; [exact Hx|].
    constructor; [exact Hy | exact Hl1].
Qed.

Lemma find_none_Forall {A : Type} (f : A -> bool) (l : list A) :
  find f l = None -> Forall (fun y => f y = false) l.
Proof.
  induction l as [|y l IH]; simpl; [constructor|].
  destruct (f y) eqn:Hy; [discriminate|]. intros H. constructor; [exact Hy | apply IH, H].
Qed.

Lemma find_rev_lastOf {A : Type} (f : A -> bool) (l : list A) (x : A) :
  find f (rev l) = Some x -> lastOf f l x.
Proof.
  intros H. destruct (find_firstOf f _ x H) as (l1 & l2 & Hl & Hx & Hl1).
  exists (rev l2), (rev l1). split; [|split; [exact Hx | apply Forall_rev, Hl1]].
  rewrite <- (rev_involutive l), Hl, rev_app_distr. simpl.
  rewrite <- app_assoc. reflexivity.
Qed.

Lemma find_rev_none_Forall {A : Type} (f : A -> bool) (l : list A) :
  find f (rev l) = None -> Forall (fun y => f y = false) l.
Proof.
  intros H. rewrite <- (rev_involutive l). apply Forall_rev, find_none_Forall, H.
Qed.

(** ** A click in select mode *)

Section SelectClick.

Variable windowToWorldCoord : Vector.t -> Vector.t.
Variable polygonContains : Polygon.t -> Vector.t -> bool.
Variable boxContains : Box.t -> Vector.t -> bool.

#[local] Abbreviation click :=
  (click windowToWorldCoord polygonContains boxContains).
#[local] Abbreviation world := (world windowToWorldCoord).

(** The editor a click in select mode searches from. *)
Lemma click_select (ev : MouseEvent.t) (s : WorldRoomEditor.t) :
  WorldRoomEditor.mode s = select ->
  plainClick ev ->
  let vec := world s ev in
  let base :=
    WorldRoomEditor.cancel
      (WorldRoomEditor.set_mousePos vec (WorldRoomEditor.set_mouseIsDown true s)) in
  click ev s
  = match find (inPolygon polygonContains s vec)
            (WorldRoomEditor.completedPolygons s) with
    | Some p => WorldRoomEditor.set_selectedPolygon (Some p) base
    | None =>
        match WorldRoomEditor.currentRoom s with
        | Some room =>
            match find (inEntity boxContains s vec) (Room.entities room) with
            | Some e => WorldRoomEditor.set_selectedEntity (Some e) base
            | None =>
                match find (inBackground boxContains s vec)
                        (rev (Room.backgrounds room)) with
                | Some b => WorldRoomEditor.set_selectedBgObj (Some b) base
                | None => base
                end
            end
        | None => base
        end
    end.
Proof.
  intros Hmode [Hbtn Hshift] vec base. apply Z.eqb_neq in Hbtn.
  unfold click, WorldRoomEditor.mousedownHandler.
  cbv zeta.
  change (WorldRoomEditor.mode
            (WorldRoomEditor.set_mousePos _ (WorldRoomEditor.set_mouseIsDown true s)))
    with (WorldRoomEditor.mode s).
  rewrite Hbtn, Hmode, Hshift. cbn [negb].
  change (WorldRoomEditor.hitPolygon polygonContains _ _)
    with (find (inPolygon polygonContains s vec)
            (WorldRoomEditor.completedPolygons s)).
  destruct (find (inPolygon polygonContains s vec) _) as [p|]; [reflexivity|].
  change (WorldRoomEditor.currentRoom (WorldRoomEditor.cancel _))
    with (WorldRoomEditor.currentRoom s).
  destruct (WorldRoomEditor.currentRoom s) as [room|]; [|reflexivity].
  change (WorldRoomEditor.hitEntity boxContains _ room _)
    with (find (inEntity boxContains s vec) (Room.entities room)).
  destruct (find (inEntity boxContains s vec) _) as [e|]; [reflexivity|].
  change (WorldRoomEditor.hitBackground boxContains _ room _)
    with (find (inBackground boxContains s vec) (rev (Room.backgrounds room))).
  destruct (find (inBackground boxContains s vec) _) as [b|]; reflexivity.
Qed.

End SelectClick.

(** A click in select mode selects at most one thing, by priority.  A
    click without shift that is no right click, in select mode, leaves the
    polygons and the room as they are and ends with one of: the first
    completed polygon that contains the point selected alone; no polygon
    containing the point and the first entity of the room whose draw box
    contains it selected alone; no polygon and no entity containing it and
    the last (topmost) background whose box contains it selected alone;
    nothing selected, and nothing containing the point.  Whatever was
    selected before plays no part. *)
Theorem select_click_selects_one (windowToWorldCoord : Vector.t -> Vector.t)
    (polygonContains : list Vector.t -> Vector.t -> bool)
    (boxContains : Box.t -> Vector.t -> bool)
    (ev : MouseEvent.t) (s : WorldRoomEditor.t) :
  WorldRoomEditor.mode s = select ->
  plainClick ev ->
  let s' := click windowToWorldCoord polygonContains boxContains ev s in
  let vec := world windowToWorldCoord s ev in
  let entities := from_option Room.entities [] (WorldRoomEditor.currentRoom s) in
  let backgrounds :=
    from_option Room.backgrounds [] (WorldRoomEditor.currentRoom s) in
  let noPolygon :=
    Forall (fun p => inPolygon polygonContains s vec p = false)
      (WorldRoomEditor.completedPolygons s) in
  let noEntity :=
    Forall (fun e => inEntity boxContains s vec e = false) entities in
  let noBackground :=
    Forall (fun b => inBackground boxContains s vec b = false) backgrounds in
  WorldRoomEditor.completedPolygons s' = WorldRoomEditor.completedPolygons s
  /\ WorldRoomEditor.currentRoom s' = WorldRoomEditor.currentRoom s
  /\ WorldRoomEditor.polygonObjs s' = WorldRoomEditor.polygonObjs s
  /\ match selection s' with
     | (Some p, None, None) =>
         firstOf (inPolygon polygonContains s vec)
           (WorldRoomEditor.completedPolygons s) p
     | (None, Some e, None) =>
         noPolygon /\ firstOf (inEntity boxContains s vec) entities e
     | (None, None, Some b) =>
         noPolygon /\ noEntity
         /\ lastOf (inBackground boxContains s vec) backgrounds b
     | (None, None, None) => noPolygon /\ noEntity /\ noBackground
     | _ => False
     end.
Proof.
  intros Hmode Hclick s' vec entities backgrounds noPolygon noEntity noBackground.
  subst s'.
  rewrite (click_select windowToWorldCoord polygonContains boxContains ev s
             Hmode Hclick).
  fold vec.
  subst noPolygon noEntity noBackground entities backgrounds.
  destruct (find (inPolygon polygonContains s vec) _) as [p|] eqn:Hp.
  { repeat (split; [reflexivity|]). apply find_firstOf, Hp. }
  apply find_none_Forall in Hp.
  destruct (WorldRoomEditor.currentRoom s) as [room|] eqn:Hroom.
  - destruct (find (inEntity boxContains s vec) _) as [e|] eqn:He.
    { repeat (split; [reflexivity || exact Hroom|]). cbn.
      split; [exact Hp | apply find_firstOf, He]. }
    apply find_none_Forall in He.
    destruct (find (inBackground boxContains s vec) _) as [b|] eqn:Hb.
    { repeat (split; [reflexivity || exact Hroom|]). cbn.
      split; [exact Hp|]. split; [exact He | apply find_rev_lastOf, Hb]. }
    apply find_rev_none_Forall in Hb.
    repeat (split; [reflexivity || exact Hroom|]). cbn.
    split; [exact Hp|]. split; [exact He | exact Hb].
  - repeat (split; [reflexivity || exact Hroom|]). cbn.
    split; [exact Hp|]. split; constructor.
Qed.

(** The theorem at an editor in select mode with the background 7 selected
    and two backgrounds, 7 below 8, that both contain every point: the
    click selects 8. *)
Lemma select_click_selects_one_witness :
  let room := Room.mk [] [7%nat; 8%nat] in
  let box := Box.mk (Vector.mk 0 0) 10 10 in
  let s :=
    WorldRoomEditor.set_selectedBgObj (Some 7%nat)
      (WorldRoomEditor.setMode select
         (WorldRoomEditor.new
            (<[7%nat := Background.mk box]> (<[8%nat := Background.mk box]> ∅))
            ∅ 9%nat (Some room) (Vector.mk 0 0))) in
  let ev := MouseEvent.mk 3 4 0 false in
  let s' := click (fun v => v) (fun _ _ => false) (fun _ _ => true) ev s in
  selection s' = (None, None, Some 8%nat)
  /\ WorldRoomEditor.currentRoom s' = Some room.
Proof.
  intros room box s ev s'.
  assert (Hclick : plainClick ev) by (split; [discriminate | reflexivity]).
  destruct (select_click_selects_one (fun v => v) (fun _ _ => false)
              (fun _ _ => true) ev s eq_refl Hclick) as (_ & Hroom & _).
  split; [vm_compute; reflexivity | exact Hroom].
Defined.

(** ** Deleting a completed polygon *)

Lemma indexOf_first (l1 l2 : list ref) (p : ref) :
  p ∉ l1 -> indexOf (l1 ++ p :: l2) p = Some (length l1).
Proof.
  induction l1 as [|q l1 IH]; intros Hnot; simpl.
  - rewrite Nat.eqb_refl. reflexivity.
  - apply not_elem_of_cons in Hnot as [Hne Hnot].
    destruct (Nat.eqb_spec q p) as [->|_]; [congruence|].
    rewrite (IH Hnot). reflexivity.
Qed.

Lemma splice1_middle {A : Type} (l1 l2 : list A) (x : A) :
  splice1 (length l1) (l1 ++ x :: l2) = l1 ++ l2.
Proof.
  unfold splice1. induction l1 as [|y l1 IH]; simpl; [reflexivity|].
  f_equal. exact IH.
Qed.

(** [delete()] with a completed polygon selected takes its first
    occurrence out of the completed polygons, keeps the order of the
    others, deselects it, and changes nothing else: the selected
    background and entity stay selected and stay in the room. *)
Theorem delete_completed_polygon (s : WorldRoomEditor.t) (p : ref) :
  WorldRoomEditor.selectedPolygon s = Some p ->
  p ∈ WorldRoomEditor.completedPolygons s ->
  exists l1 l2,
    WorldRoomEditor.completedPolygons s = l1 ++ p :: l2
    /\ (p ∉ l1)
    /\ WorldRoomEditor.delete s
       = WorldRoomEditor.set_selectedPolygon None
           (WorldRoomEditor.set_completedPolygons (l1 ++ l2) s).
Proof.
  intros Hsel Hin.
  destruct (list_elem_of_split_l _ _ Hin) as (l1 & l2 & Hl & Hnot).
  exists l1, l2. split; [exact Hl|]. split; [exact Hnot|].
  unfold WorldRoomEditor.delete.
  rewrite Hsel, Hl, (indexOf_first l1 l2 p Hnot), splice1_middle. reflexivity.
Qed.

(** The theorem at an editor in which a triangle was drawn and closed,
    then selected by a click in select mode. *)
Lemma delete_completed_polygon_witness :
  let s0 := WorldRoomEditor.new ∅ ∅ 0%nat (Some (Room.mk [] [])) (Vector.mk 0 0) in
  let run := clicks (fun v => v) (fun _ _ => true) (fun _ _ => false) in
  let drawn :=
    run [MouseEvent.mk 1 1 0 false; MouseEvent.mk 5 1 0 false;
         MouseEvent.mk 3 4 0 true] s0 in
  let s := run [MouseEvent.mk 3 2 0 false] (WorldRoomEditor.setMode select drawn) in
  WorldRoomEditor.selectedPolygon s = Some 0%nat
  /\ WorldRoomEditor.completedPolygons s = [0%nat]
  /\ exists l1 l2,
       WorldRoomEditor.completedPolygons s = l1 ++ 0%nat :: l2
       /\ (0%nat ∉ l1)
       /\ WorldRoomEditor.delete s
          = WorldRoomEditor.set_selectedPolygon None
              (WorldRoomEditor.set_completedPolygons (l1 ++ l2) s).
Proof.
  intros s0 run drawn s.
  assert (Hsel : WorldRoomEditor.selectedPolygon s = Some 0%nat)
    by (vm_compute; reflexivity).
  assert (Hcompleted : WorldRoomEditor.completedPolygons s = [0%nat])
    by (vm_compute; reflexivity).
  split; [exact Hsel|]. split; [exact Hcompleted|].
  apply (delete_completed_polygon s 0%nat Hsel).
  rewrite Hcompleted. apply list_elem_of_here.
Defined.

(** ** Right clicks *)

(** A right click is no click of the mode.  In either mode, with or
    without shift, it adds no point and selects and completes nothing: it
    prevents the default and starts a drag, and once the button is
    released the editor is what it was before the click but for the mouse
    position and the two flags the release clears. *)
Theorem right_click_is_no_click (windowToWorldCoord : Vector.t -> Vector.t)
    (polygonContains : list Vector.t -> Vector.t -> bool)
    (boxContains : Box.t -> Vector.t -> bool)
    (press release : MouseEvent.t) (s : WorldRoomEditor.t) :
  MouseEvent.button press = 2 ->
  let pressed :=
    WorldRoomEditor.mousedownHandler windowToWorldCoord polygonContains
      boxContains press s in
  snd pressed = [PreventDefault]
  /\ WorldRoomEditor.dragging (fst pressed) = true
  /\ WorldRoomEditor.selectMouseupHandler windowToWorldCoord release (fst pressed)
     = WorldRoomEditor.set_mousePos (world windowToWorldCoord s release)
         (WorldRoomEditor.set_dragging false
            (WorldRoomEditor.set_mouseIsDown false s)).
Proof.
  intros Hbtn pressed. subst pressed.
  unfold WorldRoomEditor.mousedownHandler. cbv zeta.
  rewrite Hbtn. cbn [Z.eqb Pos.eqb fst snd]. repeat split.
Qed.

(** The theorem at a right click with shift, in drawBarrier mode. *)
Lemma right_click_is_no_click_witness :
  let s := WorldRoomEditor.new ∅ ∅ 0%nat None (Vector.mk 0 0) in
  let press := MouseEvent.mk 1 1 2 true in
  let release := MouseEvent.mk 6 1 2 true in
  let pressed :=
    WorldRoomEditor.mousedownHandler (fun v => v) (fun _ _ => false)
      (fun _ _ => false) press s in
  snd pressed = [PreventDefault]
  /\ WorldRoomEditor.polygonObjs
       (WorldRoomEditor.selectMouseupHandler (fun v => v) release (fst pressed))
     = ∅.
Proof.
  intros s press release pressed.
  destruct (right_click_is_no_click (fun v => v) (fun _ _ => false)
              (fun _ _ => false) press release s eq_refl) as (H1 & _ & H3).
  split; [exact H1|]. fold pressed in H3. rewrite H3. reflexivity.
Defined.

(** ** Starting over *)

Lemma clicks_after_cancel (windowToWorldCoord : Vector.t -> Vector.t)
    (polygonContains : list Vector.t -> Vector.t -> bool)
    (boxContains : Box.t -> Vector.t -> bool)
    (ev : MouseEvent.t) (evs : list MouseEvent.t) (s : WorldRoomEditor.t) :
  WorldRoomEditor.mode s = drawBarrier ->
  WorldRoomEditor.selectedPolygon s = None ->
  Forall plainClick (ev :: evs) ->
  let s' := clicks windowToWorldCoord polygonContains boxContains (ev :: evs) s in
  pointsInProgress s' = map (world windowToWorldCoord s) (ev :: evs)
  /\ WorldRoomEditor.completedPolygons s' = WorldRoomEditor.completedPolygons s.
Proof.
  intros Hmode Hsel Hclicks s'.
  assert (Hwf : inProgressWf s) by (intros p Hp; congruence).
  destruct (clicks_plain windowToWorldCoord polygonContains boxContains evs ev s
              Hmode Hwf Hclicks) as (Hsel' & Hpts & Hcompleted & _).
  fold s' in Hsel', Hpts, Hcompleted. split; [|exact Hcompleted].
  unfold pointsInProgress at 1. rewrite Hsel', Hpts.
  unfold pointsInProgress. rewrite Hsel. reflexivity.
Qed.

(** [cancel()] and [setMode(drawBarrier)] drop the polygon in progress.
    The clicks that follow draw a new polygon that has their points and
    none of the points drawn before, and the completed polygons are the
    ones there were: a polygon that was not closed is not kept. *)
Theorem drawing_starts_over (windowToWorldCoord : Vector.t -> Vector.t)
    (polygonContains : list Vector.t -> Vector.t -> bool)
    (boxContains : Box.t -> Vector.t -> bool)
    (ev : MouseEvent.t) (evs : list MouseEvent.t) (s : WorldRoomEditor.t) :
  Forall plainClick (ev :: evs) ->
  let clicks := clicks windowToWorldCoord polygonContains boxContains in
  let world := world windowToWorldCoord in
  let afterSetMode := clicks (ev :: evs) (WorldRoomEditor.setMode drawBarrier s) in
  (pointsInProgress afterSetMode = map (world s) (ev :: evs)
   /\ WorldRoomEditor.completedPolygons afterSetMode
      = WorldRoomEditor.completedPolygons s)
  /\ (WorldRoomEditor.mode s = drawBarrier ->
      let afterCancel := clicks (ev :: evs) (WorldRoomEditor.cancel s) in
      pointsInProgress afterCancel = map (world s) (ev :: evs)
      /\ WorldRoomEditor.completedPolygons afterCancel
         = WorldRoomEditor.completedPolygons s).
Proof.
  intros Hclicks clicks world afterSetMode. split.
  - apply (clicks_after_cancel windowToWorldCoord polygonContains boxContains
             ev evs (WorldRoomEditor.setMode drawBarrier s)); auto.
  - intros Hmode afterCancel.
    apply (clicks_after_cancel windowToWorldCoord polygonContains boxContains
             ev evs (WorldRoomEditor.cancel s)); auto.
Qed.

(** The theorem at an editor in which two points were drawn before the
    mode was set again. *)
Lemma drawing_starts_over_witness :
  let s0 := WorldRoomEditor.new ∅ ∅ 0%nat None (Vector.mk 0 0) in
  let run := clicks (fun v => v) (fun _ _ => false) (fun _ _ => false) in
  let s := run [MouseEvent.mk 1 1 0 false; MouseEvent.mk 5 1 0 false] s0 in
  pointsInProgress s = [Vector.mk 1 1; Vector.mk 5 1]
  /\ pointsInProgress
       (run [MouseEvent.mk 3 4 0 false] (WorldRoomEditor.setMode drawBarrier s))
     = [Vector.mk 3 4].
Proof.
  intros s0 run s. split; [vm_compute; reflexivity|].
  assert (Hclicks : Forall plainClick [MouseEvent.mk 3 4 0 false])
    by (repeat constructor; discriminate).
  destruct (drawing_starts_over (fun v => v) (fun _ _ => false) (fun _ _ => false)
              (MouseEvent.mk 3 4 0 false) [] s Hclicks) as [[H _] _].
  exact H.
Defined.

(** * Further properties of a step *)

(** ** A press and its callback *)






(** ** The function of a directional *)

Lemma stepDirectional_emits (e : Event) (rs : list ref) :
  forall (s : InputManager.t) (out : list Event),
    e ∈ out
    \/ (exists r d,
          r ∈ rs /\ InputManager.directionalObjs s !! r = Some d
          /\ e ∈ snd (Directional.step d)) ->
    e ∈ snd (fold_left InputManager.stepDirectional rs (s, out)).
Proof.
  induction rs as [|r0 rs IH]; intros s out H; cbn [fold_left].
  - destruct H as [H | (r & _ & Hin & _)]; [exact H | inversion Hin].
  - unfold InputManager.stepDirectional at 2.
    destruct (InputManager.directionalObjs s !! r0) as [d0|] eqn:Hr0.
    + destruct (Directional.step d0) as [d0' out0] eqn:Hstep.
      apply IH. destruct H as [H | (r & d & Hin & Hr & He)].
      * left. apply elem_of_app. left. exact H.
      * destruct (decide (r = r0)) as [->|Hne].
        -- left. apply elem_of_app. right.
           replace d with d0 in He by congruence. rewrite Hstep in He. exact He.
        -- right. exists r, d. split; [|split; [|exact He]].
           ++ apply elem_of_cons in Hin as [?|Hin]; [congruence | exact Hin].
           ++ cbn [InputManager.directionalObjs InputManager.set_directionalObjs].
              rewrite lookup_insert_ne by congruence. exact Hr.
    + apply IH. destruct H as [H | (r & d & Hin & Hr & He)]; [left; exact H|].
      right. exists r, d. split; [|split; [exact Hr | exact He]].
      apply elem_of_cons in Hin as [->|Hin]; [congruence | exact Hin].
Qed.

Lemma directionalCalls_elem (f : Callback) (label : Label.t) (out : list Event) :
  InvokeDir f label ∈ out -> (f, label) ∈ directionalCalls out.
Proof.
  intros H. unfold directionalCalls. apply list_elem_of_In, in_flat_map.
  exists (InvokeDir f label). split; [apply list_elem_of_In, H | left; reflexivity].
Qed.

Lemma step_calls_directional (s : InputManager.t) (name : string)
    (d : Directional.t) (gamepads : list (option Gamepad.t)) :
  directionalNamed s name = Some d ->
  moving (Directional.vec d) ->
  Directional.keyCounter d = 0 ->
  (Directional.fn d, Directional.fireLabel (Directional.vec d))
  ∈ directionalCalls (snd (InputManager.step gamepads s)).
Proof.
  unfold directionalNamed, moving. intros Hd Hmoving Hcounter.
  destruct (JsMap.get (InputManager.directionals s) name) as [r|] eqn:Hget;
    [|discriminate].
  cbn [mbind option_bind] in Hd. apply JsMap_get_values in Hget.
  rewrite step_eq. cbv zeta. cbn [snd]. rewrite directionalCalls_app.
  apply elem_of_app. left. apply directionalCalls_elem, stepDirectional_emits.
  right. exists r, d. split; [exact Hget|]. split; [exact Hd|].
  unfold Directional.step. rewrite Hmoving, Hcounter. cbn [Z.eqb snd].
  apply list_elem_of_here.
Qed.

(** [setDirectionalFunction] on a registered name: the directional has the
    function, its buttons, vector and counter as they were, and every
    other name stands for what it stood for; and the next step calls this
    function, with the label of the vector, if the vector is not zero and
    the repeat counter has run out. *)
Theorem directional_function_is_called (s : InputManager.t) (label : string)
    (handler : Callback) (d : Directional.t) :
  inv s ->
  directionalNamed s label = Some d ->
  let s' := InputManager.setDirectionalFunction label handler s in
  directionalNamed s' label = Some (Directional.set_fn handler d)
  /\ (forall name, name <> label ->
        directionalNamed s' name = directionalNamed s name)
  /\ (forall name, buttonNamed s' name = buttonNamed s name)
  /\ (moving (Directional.vec d) ->
      Directional.keyCounter d = 0 ->
      forall gamepads,
        (handler, Directional.fireLabel (Directional.vec d))
        ∈ directionalCalls (snd (InputManager.step gamepads s'))).
Proof.
  intros Hinv Hd s'.
  destruct (inv_directionals _ Hinv) as (Hwf & Hnd & _).
  assert (Hlabel : directionalNamed s' label = Some (Directional.set_fn handler d)).
  { subst s'. unfold directionalNamed in *. unfold InputManager.setDirectionalFunction.
    destruct (JsMap.get (InputManager.directionals s) label) as [r|] eqn:Hget;
      [|discriminate].
    cbn [mbind option_bind] in Hd.
    cbn [InputManager.modifyDirectional InputManager.directionals
         InputManager.directionalObjs InputManager.set_directionalObjs].
    rewrite Hget. cbn [mbind option_bind]. rewrite lookup_alter_eq, Hd.
    reflexivity. }
  split; [exact Hlabel|]. split; [|split].
  - intros name Hne. subst s'. unfold directionalNamed in *.
    unfold InputManager.setDirectionalFunction.
    destruct (JsMap.get (InputManager.directionals s) label) as [r|] eqn:Hget;
      [|discriminate].
    cbn [InputManager.modifyDirectional InputManager.directionals
         InputManager.directionalObjs InputManager.set_directionalObjs].
    destruct (JsMap.get (InputManager.directionals s) name) as [r'|] eqn:Hget';
      [|reflexivity].
    cbn [mbind option_bind]. rewrite lookup_alter_ne; [reflexivity|].
    intros ->. apply Hne.
    apply (JsMap_get_inj _ name label r' Hwf Hnd Hget' Hget).
  - intros name. subst s'. unfold InputManager.setDirectionalFunction.
    destruct (JsMap.get (InputManager.directionals s) label); reflexivity.
  - intros Hmoving Hcounter gamepads.
    apply (step_calls_directional s' label (Directional.set_fn handler d)
             gamepads Hlabel Hmoving Hcounter).
Qed.

(** The theorem at a manager in menu mode, the key [d] of "navigation"
    down. *)
Lemma directional_function_is_called_witness :
  let s :=
    actAll [Perform EnterMenuMode; Perform (Keydown "d")] InputManager.new in
  let s' := InputManager.setDirectionalFunction "navigation" (Handler "move") s in
  (Handler "move", Label.right)
  ∈ directionalCalls (snd (InputManager.step [] s')).
Proof.
  intros s s'.
  assert (Hinv : inv s) by apply inv_actAll, inv_new.
  set (d := Directional.setVecFromButtons
              (Directional.set_button Label.right
                 (Button.down (Button.new "d" None))
                 (Directional.new "w" "d" "s" "a" (Some 0) (Some 1)))).
  assert (Hd : directionalNamed s "navigation" = Some d) by (vm_compute; reflexivity).
  destruct (directional_function_is_called s "navigation" (Handler "move") d
              Hinv Hd) as (_ & _ & _ & Hcall).
  apply (Hcall eq_refl eq_refl []).
Defined.

(** * The room editor's use of the input manager *)

Lemma buttonNamed_perform (op : Op) (s : InputManager.t) (name : string) :
  inv s ->
  configures op ->
  buttonNamed (perform op s) name = onName op name (buttonNamed s name).
Proof.
  intros Hinv Hop. destruct (inv_buttons _ Hinv) as (Hwf & Hnd & _).
  destruct op; cbn [configures] in Hop; try contradiction;
    cbn [perform onName]; try reflexivity.
  - unfold buttonNamed, InputManager.registerButton.
    cbn [InputManager.buttons InputManager.buttonObjs InputManager.set_buttons
         InputManager.set_nextRef InputManager.set_buttonObjs].
    destruct (String.eqb_spec name name0) as [->|Hne].
    + rewrite JsMap_get_set_eq. cbn [mbind option_bind].
      apply lookup_insert_eq.
    + rewrite JsMap_get_set_ne by exact Hne.
      destruct (JsMap.get (InputManager.buttons s) name) as [r|] eqn:Hget;
        [|reflexivity].
      cbn [mbind option_bind]. apply lookup_insert_ne.
      intros Heq. apply (inv_button_not_next s name r Hinv Hget).
      symmetry. exact Heq.
  - unfold buttonNamed, InputManager.unregisterButton.
    cbn [InputManager.buttons InputManager.buttonObjs InputManager.set_buttons].
    destruct (String.eqb_spec name name0) as [->|Hne].
    + rewrite (JsMap_get_delete_eq _ _ Hwf). reflexivity.
    + rewrite JsMap_get_delete_ne by exact Hne. reflexivity.
  - unfold buttonNamed, InputManager.setOnPressed.
    destruct (JsMap.get (InputManager.buttons s) name0) as [r0|] eqn:Hget0;
      cbn [fst InputManager.modifyRegistered InputManager.buttons
           InputManager.buttonObjs InputManager.set_buttonObjs].
    + destruct (String.eqb_spec name name0) as [->|Hne].
      * rewrite Hget0. cbn [mbind option_bind]. apply lookup_alter_eq.
      * destruct (JsMap.get (InputManager.buttons s) name) as [r|] eqn:Hget;
          [|reflexivity].
        cbn [mbind option_bind]. apply lookup_alter_ne.
        intros ->. apply Hne.
        apply (JsMap_get_inj _ name name0 r Hwf Hnd Hget Hget0).
    + destruct (String.eqb_spec name name0) as [->|Hne]; [|reflexivity].
      rewrite Hget0. reflexivity.
  - unfold buttonNamed, InputManager.setOnReleased.
    destruct (JsMap.get (InputManager.buttons s) name0) as [r0|] eqn:Hget0;
      cbn [fst InputManager.modifyRegistered InputManager.buttons
           InputManager.buttonObjs InputManager.set_buttonObjs].
    + destruct (String.eqb_spec name name0) as [->|Hne].
      * rewrite Hget0. cbn [mbind option_bind]. apply lookup_alter_eq.
      * destruct (JsMap.get (InputManager.buttons s) name) as [r|] eqn:Hget;
          [|reflexivity].
        cbn [mbind option_bind]. apply lookup_alter_ne.
        intros ->. apply Hne.
        apply (JsMap_get_inj _ name name0 r Hwf Hnd Hget Hget0).
    + destruct (String.eqb_spec name name0) as [->|Hne]; [|reflexivity].
      rewrite Hget0. reflexivity.
  - unfold InputManager.setDirectionalFunction.
    destruct (JsMap.get _ _); reflexivity.
Qed.

Lemma buttonNamed_performAll (ops : list Op) (name : string) :
  forall s : InputManager.t,
    inv s ->
    Forall configures ops ->
    buttonNamed (performAll ops s) name
    = fold_left (fun b op => onName op name b) ops (buttonNamed s name).
Proof.
  unfold performAll.
  induction ops as [|op ops IH]; intros s Hinv Hops; [reflexivity|].
  apply Forall_cons in Hops as [Hop Hops]. cbn [fold_left].
  rewrite (IH _ (inv_perform op s Hinv) Hops),
    (buttonNamed_perform op s name Hinv Hop).
  reflexivity.
Qed.

Lemma inv_performAll (ops : list Op) :
  forall s : InputManager.t, inv s -> inv (performAll ops s).
Proof.
  unfold performAll. induction ops as [|op ops IH]; intros s Hinv; [exact Hinv|].
  cbn [fold_left]. apply IH, inv_perform, Hinv.
Qed.

(** [exit()] does not undo [enter()].  In a state the manager can be in:
    while the editor is entered, "delete" stands for a new button on the
    key [Delete] that calls [delete()], and "escape" calls [cancel()] only
    if a button of that name was registered before, [enter()] registering
    none.  After [exit()] the names "select-mode", "barrier-mode" and
    "export" stand for nothing, the mouse functions are [noOp] and the
    context menu is no longer suppressed; but "delete" still stands for a
    button on the key [Delete], with no handler, and a button "escape"
    still calls [cancel()].  Every other name stands for what it stood for
    before [enter()]. *)
Theorem editor_exit_does_not_undo_enter (im : InputManager.t) :
  inv im ->
  let entered := WorldRoomEditorInput.enter im in
  let exited := WorldRoomEditorInput.exit entered in
  buttonNamed entered "escape"
  = Button.set_onPressed (Handler "cancel") <$> buttonNamed im "escape"
  /\ buttonNamed entered "delete"
     = Some (Button.set_onPressed (Handler "delete") (Button.new "Delete" None))
  /\ buttonNamed exited "select-mode" = None
  /\ buttonNamed exited "barrier-mode" = None
  /\ buttonNamed exited "export" = None
  /\ buttonNamed exited "delete" = Some (Button.new "Delete" None)
  /\ buttonNamed exited "escape"
     = Button.set_onPressed (Handler "cancel") <$> buttonNamed im "escape"
  /\ InputManager.mouseFunctions exited = MouseFunctions.mk noOp noOp noOp
  /\ InputManager.noContextMenu exited = false
  /\ (forall name,
        name ∉ ["escape"; "select-mode"; "barrier-mode"; "delete"; "export"] ->
        buttonNamed exited name = buttonNamed im name).
Proof.
  intros Hinv entered exited.
  assert (Hentered : forall name,
            buttonNamed entered name
            = fold_left (fun b op => onName op name b)
                WorldRoomEditorInput.enterCalls (buttonNamed im name)).
  { intros name. apply buttonNamed_performAll; [exact Hinv|].
    repeat constructor. }
  assert (Hexited : forall name,
            buttonNamed exited name
            = fold_left (fun b op => onName op name b)
                WorldRoomEditorInput.exitCalls (buttonNamed entered name)).
  { intros name. apply buttonNamed_performAll; [apply inv_performAll, Hinv|].
    repeat constructor. }
  split; [rewrite Hentered; reflexivity|].
  split; [rewrite Hentered; reflexivity|].
  split; [rewrite Hexited, Hentered; reflexivity|].
  split; [rewrite Hexited, Hentered; reflexivity|].
  split; [rewrite Hexited, Hentered; reflexivity|].
  split; [rewrite Hexited, Hentered; reflexivity|].
  split; [rewrite Hexited, Hentered; reflexivity|].
  split; [reflexivity|]. split; [reflexivity|].
  intros name Hnot. rewrite Hexited, Hentered.
  unfold WorldRoomEditorInput.enterCalls, WorldRoomEditorInput.exitCalls.
  cbn [fold_left onName].
  repeat match goal with
         | |- context [String.eqb name ?k] =>
             destruct (String.eqb_spec name k) as [->|_];
             [exfalso; apply Hnot; repeat constructor|]
         end.
  reflexivity.
Qed.

(** The theorem at a manager with a button "escape", as a game registers
    one before it enters the editor. *)
Lemma editor_exit_does_not_undo_enter_witness :
  let im :=
    actAll [Perform (RegisterButton "escape" "Escape" None)] InputManager.new in
  let exited := WorldRoomEditorInput.exit (WorldRoomEditorInput.enter im) in
  buttonNamed exited "escape"
  = Some (Button.set_onPressed (Handler "cancel") (Button.new "Escape" None))
  /\ buttonNamed exited "delete" = Some (Button.new "Delete" None)
  /\ buttonNamed exited "export" = None.
Proof.
  intros im exited.
  assert (Hinv : inv im) by apply inv_actAll, inv_new.
  destruct (editor_exit_does_not_undo_enter im Hinv)
    as (_ & _ & _ & _ & Hexport & Hdelete & Hescape & _).
  split; [exact Hescape|]. split; [exact Hdelete | exact Hexport].
Defined.
